(** * rosa: node-pool flags, operator-role upgrade, SDK responses, flag parsing

    A shallow embedding of the parts of the rosa command-line tool that
    the specification talks about:

    - [Arguments]     : pkg/arguments/arguments.go, [ParseKnownFlags];
    - [MachineType]   : the generated machine-type client responses;
    - [NodePool]      : the node-pool create and edit commands;
    - [OperatorRoles] : the [upgrade operator-roles] command.

    Go values are modelled as follows.  An [int] is a [Z] (the code only
    compares and copies integers, so no wrap-around is involved), a
    [string] is a [string] of bytes, a pointer is an [option] ([None] is
    [nil]), an [error] is the [option] of its message, and a call that
    returns [(value, err)] returns a [result].  Calls into packages whose
    code is not part of the modelled files (the cloud and cluster-service
    clients, the interactive prompter, pflag) are oracles: fields of an
    environment record, or section variables. *)

From Stdlib Require Import String Ascii List ZArith Bool Lia.
Import ListNotations.

Local Open Scope list_scope.
Local Open Scope string_scope.

(** ** Go strings *)

Module GoString.

(** [strings.HasPrefix(s, prefix)]. *)
Fixpoint HasPrefix (s p : string) : bool :=
  match p, s with
  | EmptyString, _ => true
  | String _ _, EmptyString => false
  | String c p', String d s' => Ascii.eqb c d && HasPrefix s' p'
  end.

(** [strings.Contains(s, substr)]. *)
Fixpoint Contains (s sub : string) : bool :=
  if HasPrefix s sub then true
  else match s with
       | EmptyString => false
       | String _ s' => Contains s' sub
       end.

(** [s[n:]]: the bytes of [s] from index [n] on.  The callers only slice
    after a [HasPrefix] test, so the index is always in range. *)
Fixpoint sliceFrom (n : nat) (s : string) : string :=
  match n, s with
  | O, _ => s
  | S n', String _ s' => sliceFrom n' s'
  | S _, EmptyString => EmptyString
  end.

(** [s[:n]]: the first [n] bytes of [s]. *)
Fixpoint sliceTo (n : nat) (s : string) : string :=
  match n, s with
  | S n', String c s' => String c (sliceTo n' s')
  | _, _ => EmptyString
  end.

(** [strings.SplitN(s, "=", 2)]: [s] cut at its first equal sign, or [s]
    alone when it has none. *)
Fixpoint SplitN_eq_2 (s : string) : list string :=
  match s with
  | EmptyString => [EmptyString]
  | String c s' =>
      if Ascii.eqb c "="%char then [EmptyString; s']
      else match SplitN_eq_2 s' with
           | [] => [String c EmptyString]
           | hd :: tl => String c hd :: tl
           end
  end.

(** Indexing a slice of strings at 0; the slices indexed this way are
    results of [SplitN] and never empty. *)
Definition index0 (l : list string) : string :=
  match l with
  | [] => EmptyString
  | x :: _ => x
  end.

Lemma HasPrefix_dash2_dash1 (s : string) :
  HasPrefix s "--" = true -> HasPrefix s "-" = true.
Proof.
  destruct s as [|a s]; cbn [HasPrefix]; [discriminate|].
  intros H. apply andb_prop in H as [Ha _]. rewrite Ha.
  now destruct s.
Qed.

Lemma sliceTo_app (s t : string) : sliceTo (String.length s) (s ++ t) = s.
Proof. induction s as [|c s IH]; simpl; [destruct t|]; congruence. Qed.

Lemma length_append (s t : string) :
  String.length (s ++ t) = String.length s + String.length t.
Proof. induction s as [|c s IH]; simpl; congruence. Qed.

Lemma append_assoc (s t u : string) : (s ++ t) ++ u = s ++ (t ++ u).
Proof. induction s as [|c s IH]; simpl; congruence. Qed.

Lemma append_nil_r (s : string) : s ++ "" = s.
Proof. induction s as [|c s IH]; simpl; congruence. Qed.

Lemma HasPrefix_no_dash (s : string) :
  HasPrefix s "-" = false -> HasPrefix s "--" = false.
Proof.
  intros H. destruct (HasPrefix s "--") eqn:H2; [|reflexivity].
  apply HasPrefix_dash2_dash1 in H2. congruence.
Qed.

Lemma Contains_cons (c : ascii) (s : string) :
  Contains (String c s) "=" = Ascii.eqb "="%char c || Contains s "=".
Proof.
  cbn [Contains HasPrefix]. destruct s; now destruct (Ascii.eqb "="%char c).
Qed.

Lemma Contains_separator (s t : string) : Contains (s ++ "=" ++ t) "=" = true.
Proof.
  induction s as [|c s IH]; cbn [String.append]; rewrite Contains_cons.
  - reflexivity.
  - cbn [String.append] in IH. rewrite IH. apply Bool.orb_true_r.
Qed.

Lemma SplitN_separator (s t : string) :
  Contains s "=" = false -> SplitN_eq_2 (s ++ "=" ++ t) = [s; t].
Proof.
  induction s as [|c s IH]; intros Hs; [reflexivity|].
  rewrite Contains_cons in Hs. apply Bool.orb_false_iff in Hs as [Hc Hs].
  cbn [String.append SplitN_eq_2]. rewrite Ascii.eqb_sym, Hc.
  cbn [String.append] in IH. now rewrite (IH Hs).
Qed.

Lemma SplitN_whole (s : string) :
  Contains s "=" = false -> SplitN_eq_2 s = [s].
Proof.
  induction s as [|c s IH]; intros Hs; [reflexivity|].
  rewrite Contains_cons in Hs. apply Bool.orb_false_iff in Hs as [Hc Hs].
  cbn [SplitN_eq_2]. rewrite Ascii.eqb_sym, Hc. now rewrite (IH Hs).
Qed.

End GoString.

(** ** Go results *)

(** The message of a Go [error]. *)
Definition error := string.

(** A call returning [(value, err)]: either the value with a [nil] error
    or the error. *)
Inductive result (A : Type) : Type :=
| Ok (a : A)
| Err (e : error).
Arguments Ok {A} a.
Arguments Err {A} e.

(** * pkg/arguments: [ParseKnownFlags] *)

Module Arguments.
Import GoString.

(** What the code reads of a [pflag.Flag]: its name and the type name of
    its value ([flag.Value.Type()]). *)
Record Flag : Type := mkFlag { Name : string; ValueType : string }.

(** A concrete flag set for examples: the declared flags by name; parsing
    is left out (it plays no part on the paths evaluated below). *)
Definition ListFlagSet : Type := list Flag.

Definition listLookup (flags : ListFlagSet) (name : string) : option Flag :=
  find (fun f => String.eqb (Name f) name) flags.

Definition listParse (flags : ListFlagSet) (_ : list string)
    : ListFlagSet * option error := (flags, None).

Definition listGetBool (_ : ListFlagSet) (_ : string) : result bool := Ok false.

(** Quoting of a name without special characters: the name between
    double quotes. *)
Definition dquote : string := String (Ascii.ascii_of_nat 34) EmptyString.
Definition plainQuote (s : string) : string := dquote ++ s ++ dquote.

Definition exampleFlags : ListFlagSet :=
  [mkFlag "cluster" "string"; mkFlag "yes" "bool"; mkFlag "help" "bool"].

(** Defining a flag on the concrete flag set: the flag is added at the
    end; the values of the flags are not kept.  The guarded variants do
    nothing for a name the flag set has. *)
Definition listBoolVar (flags : ListFlagSet) (name : string) : ListFlagSet :=
  (flags ++ [mkFlag name "bool"])%list.

Definition listStringVar (flags : ListFlagSet) (name : string) : ListFlagSet :=
  (flags ++ [mkFlag name "string"])%list.

Definition listSetValue (flags : ListFlagSet) (_ _ : string) : ListFlagSet := flags.

Definition guardedBoolVar (flags : ListFlagSet) (name : string) : ListFlagSet :=
  match listLookup flags name with
  | None => listBoolVar flags name
  | Some _ => flags
  end.

Definition guardedStringVar (flags : ListFlagSet) (name : string) : ListFlagSet :=
  match listLookup flags name with
  | None => listStringVar flags name
  | Some _ => flags
  end.

Section ParseKnownFlags.

(** The pflag flag set of the command, with the three operations the
    function uses. *)
Variable FlagSet : Type.
Variable Lookup : FlagSet -> string -> option Flag.
Variable Parse : FlagSet -> list string -> FlagSet * option error.
Variable GetBool : FlagSet -> string -> result bool.

(** [fmt.Sprintf("%q", s)]: the Go-quoted form of [s]. *)
Variable quote : string -> string.

Definition ErrHelp : error := "pflag: help requested".

(** The three local variables of the loop. *)
Record LoopState : Type := mkLoop {
  validArgs : list string;
  upcomingValue : bool;
  unknownFlags : string
}.

(** The two shapes of flag case in the switch: a flag without an equal
    sign (cases 1 and 3) may announce a value; a flag with an equal
    sign (cases 2 and 4) clears [upcomingValue]. *)
Definition spaceSeparated (flags : FlagSet) (failOnUnknown : bool)
    (arg flagName : string) (st : LoopState) : LoopState :=
  match Lookup flags flagName with
  | Some flag =>
      mkLoop (validArgs st ++ [arg])
             (if negb (String.eqb (ValueType flag) "bool") then true
              else upcomingValue st)
             (unknownFlags st)
  | None =>
      if failOnUnknown
      then mkLoop (validArgs st) (upcomingValue st)
                  (unknownFlags st ++ (quote flagName ++ ", "))
      else st
  end.

Definition equalSeparated (flags : FlagSet) (failOnUnknown : bool)
    (arg flagName : string) (st : LoopState) : LoopState :=
  match Lookup flags flagName with
  | Some _ => mkLoop (validArgs st ++ [arg]) false (unknownFlags st)
  | None =>
      if failOnUnknown
      then mkLoop (validArgs st) false
                  (unknownFlags st ++ (quote flagName ++ ", "))
      else mkLoop (validArgs st) false (unknownFlags st)
  end.

(** The body of [for _, arg := range argv]. *)
Definition step (flags : FlagSet) (failOnUnknown : bool)
    (st : LoopState) (arg : string) : LoopState :=
  if HasPrefix arg "--" && negb (Contains arg "=") then
    spaceSeparated flags failOnUnknown arg (sliceFrom 2 arg) st
  else if HasPrefix arg "--" && Contains arg "=" then
    equalSeparated flags failOnUnknown arg
      (index0 (SplitN_eq_2 (sliceFrom 2 arg))) st
  else if HasPrefix arg "-" && negb (Contains arg "=") then
    spaceSeparated flags failOnUnknown arg (sliceFrom 1 arg) st
  else if HasPrefix arg "-" && Contains arg "=" then
    equalSeparated flags failOnUnknown arg
      (index0 (SplitN_eq_2 (sliceFrom 1 arg))) st
  else if upcomingValue st then
    mkLoop (validArgs st ++ [arg]) false (unknownFlags st)
  else st.

Definition loop (flags : FlagSet) (failOnUnknown : bool)
    (argv : list string) : LoopState :=
  fold_left (step flags failOnUnknown) argv (mkLoop [] false "").

(** [ParseKnownFlags(cmd, argv, failOnUnknown)]: the flag set after the
    call and the returned error. *)
Definition ParseKnownFlags (flags : FlagSet) (argv : list string)
    (failOnUnknown : bool) : FlagSet * option error :=
  let st := loop flags failOnUnknown argv in
  if failOnUnknown && negb (String.eqb (unknownFlags st) "") then
    (flags,
     Some ("Unknown flags passed: "
           ++ sliceTo (String.length (unknownFlags st) - 2) (unknownFlags st)))
  else
    match Parse flags (validArgs st) with
    | (flags', Some err) => (flags', Some err)
    | (flags', None) =>
        match GetBool flags' "help" with
        | Err err => (flags', Some err)
        | Ok helpVal =>
            if helpVal then (flags', Some ErrHelp) else (flags', None)
        end
    end.

(** The flag name the switch derives from an argument that starts with
    a dash. *)
Definition flagNameOf (arg : string) : string :=
  if HasPrefix arg "--" then
    if Contains arg "=" then index0 (SplitN_eq_2 (sliceFrom 2 arg))
    else sliceFrom 2 arg
  else
    if Contains arg "=" then index0 (SplitN_eq_2 (sliceFrom 1 arg))
    else sliceFrom 1 arg.

(** An unknown long or short flag: an argument that starts with a dash
    and whose flag name the flag set does not know. *)
Definition isUnknownFlag (flags : FlagSet) (arg : string) : bool :=
  HasPrefix arg "-" &&
  match Lookup flags (flagNameOf arg) with
  | Some _ => false
  | None => true
  end.

Definition unknownNames (flags : FlagSet) (argv : list string) : list string :=
  map flagNameOf (filter (isUnknownFlag flags) argv).

(** The value of [unknownFlags] after the loop has met the flag names
    [names]: each one quoted and followed by a comma and a space. *)
Fixpoint listing (names : list string) : string :=
  match names with
  | [] => ""
  | n :: rest => (quote n ++ ", ") ++ listing rest
  end.

(** A flag argument whose name the flag set knows. *)
Definition isKnownFlag (flags : FlagSet) (arg : string) : bool :=
  HasPrefix arg "-" &&
  match Lookup flags (flagNameOf arg) with
  | Some _ => true
  | None => false
  end.

(** Whether the loop keeps an argument, given the value of
    [upcomingValue] when it meets it: a known flag always, an argument
    without a dash when a value is awaited. *)
Definition keeps (flags : FlagSet) (awaited : bool) (arg : string) : bool :=
  isKnownFlag flags arg || (negb (HasPrefix arg "-") && awaited).

(** The value of [upcomingValue] after the loop body, from its value
    before. *)
Definition nextUpcoming (flags : FlagSet) (awaited : bool) (arg : string) : bool :=
  upcomingValue (step flags false (mkLoop [] awaited "") arg).

(** The arguments the loop keeps, in order. *)
Fixpoint keptArgs (flags : FlagSet) (awaited : bool) (argv : list string)
    : list string :=
  match argv with
  | [] => []
  | arg :: rest =>
      (if keeps flags awaited arg then [arg] else [])
      ++ keptArgs flags (nextUpcoming flags awaited arg) rest
  end.

(** [l] is [argv] with some arguments left out. *)
Inductive subseq : list string -> list string -> Prop :=
| subseq_nil : subseq [] []
| subseq_drop (x : string) (l argv : list string) :
    subseq l argv -> subseq l (x :: argv)
| subseq_keep (x : string) (l argv : list string) :
    subseq l argv -> subseq (x :: l) (x :: argv).

(** What [ParseKnownFlags] returns once the arguments are parsed. *)
Definition helpOutcome (parsed : FlagSet * option error) : option error :=
  match parsed with
  | (_, Some err) => Some err
  | (flags', None) =>
      match GetBool flags' "help" with
      | Err err => Some err
      | Ok true => Some ErrHelp
      | Ok false => None
      end
  end.

(** *** The loop collects the unknown flags *)

Lemma step_unknownFlags (flags : FlagSet) (st : LoopState) (arg : string) :
  unknownFlags (step flags true st arg) =
  unknownFlags st ++
  (if isUnknownFlag flags arg then quote (flagNameOf arg) ++ ", " else "").
Proof.
  unfold step, isUnknownFlag, flagNameOf, spaceSeparated, equalSeparated.
  destruct (HasPrefix arg "--") eqn:H2.
  - rewrite (HasPrefix_dash2_dash1 _ H2).
    destruct (Contains arg "="); cbn [andb negb];
      match goal with |- context [Lookup ?f ?n] => destruct (Lookup f n) end;
      cbn [unknownFlags]; now rewrite ?append_nil_r.
  - destruct (HasPrefix arg "-"), (Contains arg "="); cbn [andb negb];
      try match goal with |- context [Lookup ?f ?n] => destruct (Lookup f n) end;
      try destruct (upcomingValue st);
      cbn [unknownFlags]; now rewrite ?append_nil_r.
Qed.

Lemma fold_unknownFlags (flags : FlagSet) (argv : list string) (st : LoopState) :
  unknownFlags (fold_left (step flags true) argv st) =
  unknownFlags st ++ listing (unknownNames flags argv).
Proof.
  revert st. induction argv as [|arg argv IH]; intros st.
  - cbn. now rewrite append_nil_r.
  - cbn [fold_left]. rewrite IH, step_unknownFlags.
    unfold unknownNames. cbn [filter].
    destruct (isUnknownFlag flags arg); cbn [map listing].
    + now rewrite !append_assoc.
    + now rewrite append_nil_r.
Qed.

Lemma loop_unknownFlags (flags : FlagSet) (argv : list string) :
  unknownFlags (loop flags true argv) = listing (unknownNames flags argv).
Proof. unfold loop. now rewrite fold_unknownFlags. Qed.

(** *** Cutting the last separator leaves the comma-separated list *)

Lemma listing_concat (names : list string) :
  names <> [] ->
  listing names = String.concat ", " (map quote names) ++ ", ".
Proof.
  induction names as [|n rest IH]; [congruence|]. intros _.
  destruct rest as [|m rest].
  - cbn. now rewrite append_nil_r.
  - cbn [listing] in *. rewrite IH by discriminate.
    cbn [map String.concat]. now rewrite !append_assoc.
Qed.

Lemma listing_cut (names : list string) :
  names <> [] ->
  sliceTo (String.length (listing names) - 2) (listing names) =
  String.concat ", " (map quote names).
Proof.
  intros Hne. rewrite (listing_concat _ Hne), length_append.
  cbn [String.length].
  replace (_ + 2 - 2) with (String.length (String.concat ", " (map quote names)))
    by lia.
  apply sliceTo_app.
Qed.

Lemma listing_nonempty (names : list string) :
  names <> [] -> String.eqb (listing names) "" = false.
Proof.
  intros Hne. rewrite (listing_concat _ Hne).
  apply String.eqb_neq. intros H.
  apply (f_equal String.length) in H. rewrite length_append in H.
  cbn in H. lia.
Qed.

Lemma unknownNames_nonempty (flags : FlagSet) (argv : list string) (arg : string) :
  In arg argv -> isUnknownFlag flags arg = true -> unknownNames flags argv <> [].
Proof.
  intros Hin Hunk Hnil. unfold unknownNames in Hnil.
  apply map_eq_nil in Hnil.
  assert (Hf : In arg (filter (isUnknownFlag flags) argv))
    by (apply filter_In; auto).
  rewrite Hnil in Hf. exact Hf.
Qed.

(** C10.  When [failOnUnknown] is true and the arguments hold at least
    one unknown long or short flag, [ParseKnownFlags] returns the error
    [Unknown flags passed: ...] whose list is the quoted name of every
    unknown flag of the argument list, in order and separated by commas;
    the flag set it leaves is the one it was given, whatever [Parse] and
    [GetBool] would have done: they are not called on this path. *)
Theorem ParseKnownFlags_unknown_flags (flags : FlagSet) (argv : list string) :
  (exists arg, In arg argv /\ isUnknownFlag flags arg = true) ->
  ParseKnownFlags flags argv true =
    (flags,
     Some ("Unknown flags passed: "
           ++ String.concat ", " (map quote (unknownNames flags argv))))
  /\ (forall arg, In arg argv -> isUnknownFlag flags arg = true ->
      In (flagNameOf arg) (unknownNames flags argv)).
Proof.
  intros [arg [Hin Hunk]]. split.
  - pose proof (unknownNames_nonempty _ _ _ Hin Hunk) as Hne.
    unfold ParseKnownFlags. cbv zeta.
    rewrite loop_unknownFlags, (listing_nonempty _ Hne).
    cbn [andb negb]. now rewrite (listing_cut _ Hne).
  - intros a Ha Hu. unfold unknownNames.
    apply in_map, filter_In. auto.
Qed.

(** *** What the loop keeps *)

Ltac step_cases arg :=
  unfold keeps, nextUpcoming; unfold step, isKnownFlag, isUnknownFlag, flagNameOf,
    spaceSeparated, equalSeparated;
  let H2 := fresh "H2" in
  destruct (HasPrefix arg "--") eqn:H2;
  [ rewrite (HasPrefix_dash2_dash1 _ H2) | destruct (HasPrefix arg "-") ];
  destruct (Contains arg "="); cbn [andb negb orb];
  repeat match goal with
         | |- context [Lookup ?f ?n] => destruct (Lookup f n)
         end.

Lemma step_validArgs (flags : FlagSet) (failOnUnknown : bool) (st : LoopState)
    (arg : string) :
  validArgs (step flags failOnUnknown st arg) =
  (validArgs st ++ (if keeps flags (upcomingValue st) arg then [arg] else []))%list.
Proof.
  destruct st as [kept awaited unknown].
  step_cases arg; destruct failOnUnknown, awaited;
    cbn [validArgs upcomingValue andb orb negb]; now rewrite ?app_nil_r.
Qed.

Lemma step_upcomingValue (flags : FlagSet) (failOnUnknown : bool) (st : LoopState)
    (arg : string) :
  upcomingValue (step flags failOnUnknown st arg) =
  nextUpcoming flags (upcomingValue st) arg.
Proof.
  destruct st as [kept awaited unknown].
  step_cases arg; destruct failOnUnknown, awaited;
    cbn [upcomingValue]; reflexivity.
Qed.

Lemma fold_validArgs (flags : FlagSet) (failOnUnknown : bool) (argv : list string) :
  forall st,
  validArgs (fold_left (step flags failOnUnknown) argv st) =
  (validArgs st ++ keptArgs flags (upcomingValue st) argv)%list.
Proof.
  induction argv as [|arg argv IH]; intros st; cbn [fold_left keptArgs].
  - now rewrite app_nil_r.
  - now rewrite IH, step_validArgs, step_upcomingValue, app_assoc.
Qed.

Lemma loop_validArgs (flags : FlagSet) (failOnUnknown : bool) (argv : list string) :
  validArgs (loop flags failOnUnknown argv) = keptArgs flags false argv.
Proof. unfold loop. now rewrite fold_validArgs. Qed.

Lemma keptArgs_subseq (flags : FlagSet) (argv : list string) :
  forall awaited, subseq (keptArgs flags awaited argv) argv.
Proof.
  induction argv as [|arg argv IH]; intros awaited; cbn [keptArgs].
  - constructor.
  - destruct (keeps flags awaited arg); cbn [app]; constructor; apply IH.
Qed.

Lemma keeps_not_unknown (flags : FlagSet) (awaited : bool) (arg : string) :
  keeps flags awaited arg = true -> isUnknownFlag flags arg = false.
Proof.
  unfold keeps, isKnownFlag, isUnknownFlag.
  destruct (HasPrefix arg "-"), (Lookup flags (flagNameOf arg)), awaited;
    cbn; congruence.
Qed.

Lemma keptArgs_known (flags : FlagSet) (argv : list string) :
  forall awaited arg,
  In arg (keptArgs flags awaited argv) -> isUnknownFlag flags arg = false.
Proof.
  induction argv as [|a argv IH]; intros awaited arg; cbn [keptArgs]; [intros []|].
  intros Hin. apply in_app_or in Hin as [Hin|Hin]; [|now apply IH in Hin].
  destruct (keeps flags awaited a) eqn:Hk; [|destruct Hin].
  destruct Hin as [<-|[]]. now apply keeps_not_unknown in Hk.
Qed.

Lemma keptArgs_keeps_known (flags : FlagSet) (argv : list string) :
  forall awaited arg,
  In arg argv -> isKnownFlag flags arg = true ->
  In arg (keptArgs flags awaited argv).
Proof.
  induction argv as [|a argv IH]; intros awaited arg; [intros []|].
  intros [->|Hin] Hknown; cbn [keptArgs]; apply in_or_app.
  - left. unfold keeps. rewrite Hknown. now left.
  - right. now apply IH.
Qed.

(** What [flags.Parse] receives: the arguments with some left out, their
    order unchanged; no unknown flag is among them, and every flag the
    flag set knows is. *)
Theorem ParseKnownFlags_validArgs (flags : FlagSet) (failOnUnknown : bool)
    (argv : list string) :
  let kept := validArgs (loop flags failOnUnknown argv) in
  subseq kept argv /\
  (forall arg, In arg kept -> isUnknownFlag flags arg = false) /\
  (forall arg, In arg argv -> isKnownFlag flags arg = true -> In arg kept).
Proof.
  cbv zeta. rewrite loop_validArgs. split; [|split].
  - apply keptArgs_subseq.
  - apply keptArgs_known.
  - apply keptArgs_keeps_known.
Qed.

(** *** Filtering twice *)

Lemma keeps_monotone (flags : FlagSet) (awaited awaited' : bool) (arg : string) :
  (awaited = true -> awaited' = true) ->
  keeps flags awaited arg = true -> keeps flags awaited' arg = true.
Proof.
  unfold keeps. intros Hle.
  destruct (isKnownFlag flags arg), (HasPrefix arg "-"), awaited, awaited';
    cbn; auto; intros; discriminate Hle || auto.
Qed.

Lemma nextUpcoming_monotone (flags : FlagSet) (awaited awaited' : bool)
    (arg : string) :
  (awaited = true -> awaited' = true) ->
  nextUpcoming flags awaited arg = true -> nextUpcoming flags awaited' arg = true.
Proof.
  intros Hle. step_cases arg; destruct awaited, awaited';
    cbn [upcomingValue]; auto;
    repeat match goal with |- context [if ?b then _ else _] => destruct b end;
    auto; intros; discriminate Hle || auto.
Qed.

Lemma dropped_keeps_upcoming (flags : FlagSet) (awaited : bool) (arg : string) :
  keeps flags awaited arg = false ->
  nextUpcoming flags awaited arg = true -> awaited = true.
Proof.
  step_cases arg; destruct awaited; cbn [upcomingValue andb orb negb];
    auto; try discriminate.
Qed.

Lemma keptArgs_again (flags : FlagSet) (argv : list string) :
  forall awaited awaited',
  (awaited = true -> awaited' = true) ->
  keptArgs flags awaited' (keptArgs flags awaited argv) = keptArgs flags awaited argv.
Proof.
  induction argv as [|arg argv IH]; intros awaited awaited' Hle; [reflexivity|].
  cbn [keptArgs]. destruct (keeps flags awaited arg) eqn:Hk; cbn [app keptArgs].
  - rewrite (keeps_monotone _ _ _ _ Hle Hk). cbn [app]. f_equal.
    apply IH. now apply nextUpcoming_monotone.
  - apply IH. intros Hnext. apply Hle.
    now apply (dropped_keeps_upcoming flags awaited arg).
Qed.

Lemma unknownNames_of_kept (flags : FlagSet) (awaited : bool) (argv : list string) :
  unknownNames flags (keptArgs flags awaited argv) = [].
Proof.
  unfold unknownNames.
  assert (H : forall l, (forall a, In a l -> isUnknownFlag flags a = false) ->
                        filter (isUnknownFlag flags) l = []).
  { induction l as [|a l IH]; intros Hall; [reflexivity|].
    cbn [filter]. rewrite (Hall a (or_introl eq_refl)).
    apply IH. intros b Hb. apply Hall. now right. }
  rewrite H; [reflexivity|]. apply keptArgs_known.
Qed.

Lemma step_unknownFlags_off (flags : FlagSet) (st : LoopState) (arg : string) :
  unknownFlags (step flags false st arg) = unknownFlags st.
Proof.
  destruct st as [kept awaited unknown].
  step_cases arg; destruct awaited; reflexivity.
Qed.

Lemma fold_unknownFlags_off (flags : FlagSet) (argv : list string) :
  forall st, unknownFlags (fold_left (step flags false) argv st) = unknownFlags st.
Proof.
  induction argv as [|arg argv IH]; intros st; [reflexivity|].
  cbn [fold_left]. now rewrite IH, step_unknownFlags_off.
Qed.

Lemma filter_none (flags : FlagSet) (argv : list string) :
  (forall arg, In arg argv -> isUnknownFlag flags arg = false) ->
  unknownNames flags argv = [].
Proof.
  intros Hall. unfold unknownNames.
  induction argv as [|a argv IH]; [reflexivity|].
  cbn [filter]. rewrite (Hall a (or_introl eq_refl)).
  apply IH. intros b Hb. apply Hall. now right.
Qed.

Lemma loop_no_unknown (flags : FlagSet) (failOnUnknown : bool) (argv : list string) :
  failOnUnknown = false \/
  (forall arg, In arg argv -> isUnknownFlag flags arg = false) ->
  failOnUnknown && negb (String.eqb (unknownFlags (loop flags failOnUnknown argv)) "")
  = false.
Proof.
  intros [-> | Hall]; [reflexivity|].
  destruct failOnUnknown; [|reflexivity].
  now rewrite loop_unknownFlags, (filter_none _ _ Hall).
Qed.

(** Without [failOnUnknown], or when the arguments hold no unknown flag,
    [ParseKnownFlags] does not stop at the flags: unknown flags are left
    out in silence, the kept arguments are parsed, and the flag set and
    the error returned are those of [flags.Parse], then of the [help]
    flag. *)
Theorem ParseKnownFlags_without_unknown (flags : FlagSet) (failOnUnknown : bool)
    (argv : list string) :
  failOnUnknown = false \/
  (forall arg, In arg argv -> isUnknownFlag flags arg = false) ->
  let parsed := Parse flags (validArgs (loop flags failOnUnknown argv)) in
  ParseKnownFlags flags argv failOnUnknown = (fst parsed, helpOutcome parsed).
Proof.
  intros H. unfold ParseKnownFlags. cbv zeta.
  rewrite (loop_no_unknown _ _ _ H).
  destruct (Parse flags _) as [flags' [err|]]; cbn [fst helpOutcome]; [reflexivity|].
  destruct (GetBool flags' "help") as [[|]|err]; reflexivity.
Qed.

(** The arguments [ParseKnownFlags] keeps are kept again, all of them and
    in the same order, when the loop runs over them a second time, and
    that second run finds no unknown flag. *)
Theorem ParseKnownFlags_filter_idempotent (flags : FlagSet)
    (failOnUnknown failOnUnknown' : bool) (argv : list string) :
  let kept := validArgs (loop flags failOnUnknown argv) in
  validArgs (loop flags failOnUnknown' kept) = kept /\
  unknownFlags (loop flags failOnUnknown' kept) = "".
Proof.
  cbv zeta. rewrite !loop_validArgs. split.
  - now apply keptArgs_again.
  - destruct failOnUnknown'.
    + now rewrite loop_unknownFlags, unknownNames_of_kept.
    + unfold loop. now rewrite fold_unknownFlags_off.
Qed.

End ParseKnownFlags.

Example ParseKnownFlags_example_ok :
  ParseKnownFlags ListFlagSet listLookup listParse listGetBool plainQuote
    exampleFlags ["--cluster"; "c1"; "--yes"] true = (exampleFlags, None).
Proof. reflexivity. Qed.

Example ParseKnownFlags_example_unknown :
  ParseKnownFlags ListFlagSet listLookup listParse listGetBool plainQuote
    exampleFlags ["--cluster"; "c1"; "--bogus"; "-x=1"] true =
  (exampleFlags,
   Some ("Unknown flags passed: " ++ plainQuote "bogus" ++ ", " ++ plainQuote "x")).
Proof. reflexivity. Qed.

Lemma ParseKnownFlags_unknown_flags_witness :
  (exists arg, In arg ["--cluster"; "c1"; "--bogus"]
               /\ isUnknownFlag ListFlagSet listLookup exampleFlags arg = true)
  /\ ParseKnownFlags ListFlagSet listLookup listParse listGetBool plainQuote
       exampleFlags ["--cluster"; "c1"; "--bogus"] true =
     (exampleFlags, Some ("Unknown flags passed: " ++ plainQuote "bogus")).
Proof.
  assert (H : exists arg, In arg ["--cluster"; "c1"; "--bogus"]
               /\ isUnknownFlag ListFlagSet listLookup exampleFlags arg = true).
  { exists "--bogus". split; [simpl; auto | reflexivity]. }
  split; [exact H|].
  exact (proj1 (ParseKnownFlags_unknown_flags ListFlagSet listLookup listParse
                  listGetBool plainQuote exampleFlags
                  ["--cluster"; "c1"; "--bogus"] H)).
Defined.

Lemma ParseKnownFlags_without_unknown_witness :
  ParseKnownFlags ListFlagSet listLookup listParse listGetBool plainQuote
    exampleFlags ["--cluster"; "c1"; "--bogus"; "x"] false
  = (exampleFlags, None).
Proof.
  exact (ParseKnownFlags_without_unknown ListFlagSet listLookup listParse
           listGetBool plainQuote exampleFlags false
           ["--cluster"; "c1"; "--bogus"; "x"] (or_introl eq_refl)).
Defined.

(** ** [IsValidMode] *)

Fixpoint IsValidMode (modes : list string) (mode : string) : bool :=
  match modes with
  | [] => false
  | modeValue :: rest =>
      if String.eqb mode modeValue then true else IsValidMode rest mode
  end.

(** [IsValidMode] says yes exactly for the modes of the list; for an
    empty list it says no. *)
Theorem IsValidMode_In (modes : list string) (mode : string) :
  IsValidMode modes mode = true <-> In mode modes.
Proof.
  induction modes as [|m rest IH]; cbn [IsValidMode In].
  - split; [discriminate | intros []].
  - destruct (String.eqb mode m) eqn:Heq.
    + apply String.eqb_eq in Heq. split; auto.
    + apply String.eqb_neq in Heq. rewrite IH. split; [auto|].
      intros [H|H]; [congruence | exact H].
Qed.

(** ** [ParseUnknownFlags] *)

Section ParseUnknownFlags.

(** The flag set, with the calls the function makes on it: [Lookup],
    the definition of a flag by [BoolVar] and [StringVar], [Set] (whose
    error the function drops), [Parse] and [GetBool]. *)
Variable FlagSet : Type.
Variable Lookup : FlagSet -> string -> option Flag.
Variable BoolVar : FlagSet -> string -> FlagSet.
Variable StringVar : FlagSet -> string -> FlagSet.
Variable SetValue : FlagSet -> string -> string -> FlagSet.
Variable Parse : FlagSet -> list string -> FlagSet * option error.
Variable GetBool : FlagSet -> string -> result bool.

(** What the loop changes: the flag set, the local [prevArg] and the
    package variable [hasUnknownFlags]. *)
Record UnknownState : Type := mkUnknown {
  flagSet : FlagSet;
  prevArg : string;
  hasUnknownFlags : bool
}.

(** The test at the head of the loop body: a flag follows a flag, so the
    previous one is defined as a boolean set to true. *)
Definition flushPrevious (st : UnknownState) (arg : string) : UnknownState :=
  if HasPrefix arg "-" && negb (String.eqb (prevArg st) "") then
    mkUnknown (SetValue (BoolVar (flagSet st) (prevArg st)) (prevArg st) "true")
              "" true
  else st.

(** The body of [for _, arg := range argv]. *)
Definition unknownStep (st : UnknownState) (arg : string) : UnknownState :=
  let st1 := flushPrevious st arg in
  if HasPrefix arg "--" && negb (Contains arg "=") then
    let name := sliceFrom 2 arg in
    if Nat.eqb (String.length name) 0
       || match Lookup (flagSet st1) name with Some _ => true | None => false end
    then st1
    else mkUnknown (flagSet st1) name (hasUnknownFlags st1)
  else if negb (String.eqb (prevArg st1) "") then
    mkUnknown (SetValue (StringVar (flagSet st1) (prevArg st1)) (prevArg st1) arg)
              "" true
  else if HasPrefix arg "--" && Contains arg "=" then
    match SplitN_eq_2 (sliceFrom 2 arg) with
    | [name; value] =>
        match Lookup (flagSet st1) name with
        | None =>
            mkUnknown (SetValue (StringVar (flagSet st1) name) name value)
                      (prevArg st1) true
        | Some _ => st1
        end
    | _ => st1
    end
  else st1.

Definition unknownLoop (flags : FlagSet) (hasUnknown : bool) (argv : list string)
    : UnknownState :=
  fold_left unknownStep argv (mkUnknown flags "" hasUnknown).

(** [ParseUnknownFlags(cmd, argv)]: the flag set and the value of
    [hasUnknownFlags] after the call, and the returned error. *)
Definition ParseUnknownFlags (flags : FlagSet) (hasUnknown : bool)
    (argv : list string) : FlagSet * bool * option error :=
  let st := unknownLoop flags hasUnknown argv in
  match Parse (flagSet st) argv with
  | (flags', Some err) => (flags', hasUnknownFlags st, Some err)
  | (flags', None) =>
      match GetBool flags' "help" with
      | Err err => (flags', hasUnknownFlags st, Some err)
      | Ok helpVal =>
          if helpVal then (flags', hasUnknownFlags st, Some ErrHelp)
          else (flags', hasUnknownFlags st, None)
      end
  end.

(** A flag waiting in [prevArg] is one the flag set does not know. *)
Definition pendingUnknown (st : UnknownState) : Prop :=
  prevArg st = "" \/ Lookup (flagSet st) (prevArg st) = None.

(** The unknown long flag [--name]. *)
Definition longFlag (name : string) : string := "--" ++ name.

Lemma unknownStep_pending (st : UnknownState) (arg : string) :
  pendingUnknown (unknownStep st arg).
Proof.
  destruct st as [fs prev has].
  unfold pendingUnknown, unknownStep, flushPrevious. cbn [prevArg flagSet hasUnknownFlags].
  destruct (HasPrefix arg "--") eqn:H2;
    [rewrite (HasPrefix_dash2_dash1 _ H2) | destruct (HasPrefix arg "-")];
    destruct (String.eqb prev "") eqn:Hprev;
    destruct (Contains arg "=");
    cbn [andb negb prevArg flagSet hasUnknownFlags String.eqb];
    rewrite ?Hprev; cbn [negb prevArg flagSet];
    repeat match goal with
           | |- context [Nat.eqb ?a ?b] => destruct (Nat.eqb a b)
           | |- context [match SplitN_eq_2 ?x with _ => _ end] =>
               destruct (SplitN_eq_2 x) as [|? [|? [|? ?]]]
           | |- context [match Lookup ?f ?n with _ => _ end] =>
               destruct (Lookup f n) eqn:?
           end;
    cbn [orb prevArg flagSet]; rewrite ?Hprev; cbn [negb prevArg flagSet];
    try apply String.eqb_eq in Hprev; auto.
Qed.

Lemma unknownLoop_pending (argv : list string) :
  forall st, pendingUnknown st -> pendingUnknown (fold_left unknownStep argv st).
Proof.
  induction argv as [|arg argv IH]; intros st Hst; [exact Hst|].
  cbn [fold_left]. apply IH, unknownStep_pending.
Qed.

(** Without an argument that starts with two dashes the loop defines
    nothing: the flag set and the marker of unknown flags stay as they
    were.  Short flags and bare values are never taken for unknown
    flags. *)
Theorem ParseUnknownFlags_no_long_flag (flags : FlagSet) (hasUnknown : bool)
    (argv : list string) :
  (forall arg, In arg argv -> HasPrefix arg "--" = false) ->
  unknownLoop flags hasUnknown argv = mkUnknown flags "" hasUnknown.
Proof.
  unfold unknownLoop.
  assert (H : forall argv st, prevArg st = "" ->
            (forall arg, In arg argv -> HasPrefix arg "--" = false) ->
            fold_left unknownStep argv st = st).
  { clear. induction argv as [|arg argv IH]; intros st Hprev Hall; [reflexivity|].
    cbn [fold_left].
    assert (Hstep : unknownStep st arg = st).
    { unfold unknownStep, flushPrevious.
      rewrite (Hall arg (or_introl eq_refl)), Hprev. cbn.
      rewrite Bool.andb_false_r. cbn. now rewrite Hprev. }
    rewrite Hstep. apply IH; [exact Hprev|].
    intros a Ha. apply Hall. now right. }
  intros Hall. now apply H.
Qed.

(** *** How an unknown long flag is defined *)

Lemma longFlag_prefix (name : string) : HasPrefix (longFlag name) "--" = true.
Proof. unfold longFlag. cbn. now destruct name. Qed.

Lemma longFlag_Contains (name : string) :
  Contains (longFlag name) "=" = Contains name "=".
Proof. unfold longFlag. cbn [String.append]. now rewrite !Contains_cons. Qed.

Lemma unknownStep_longFlag (flags : FlagSet) (hasUnknown : bool) (name : string) :
  name <> "" -> Contains name "=" = false -> Lookup flags name = None ->
  unknownStep (mkUnknown flags "" hasUnknown) (longFlag name)
  = mkUnknown flags name hasUnknown.
Proof.
  intros Hname Heq Hlookup. unfold unknownStep, flushPrevious.
  rewrite longFlag_prefix, longFlag_Contains, Heq.
  cbn [prevArg flagSet hasUnknownFlags String.eqb negb andb].
  rewrite Bool.andb_false_r. cbn [flagSet prevArg hasUnknownFlags].
  change (sliceFrom 2 (longFlag name)) with name. rewrite Hlookup.
  destruct name; [congruence|reflexivity].
Qed.

(** An unknown long flag [--name] is defined by what follows it: as a
    string flag holding the next argument when that is no flag; as a
    boolean flag set to true when a flag follows, and the loop goes on
    from there; not at all when it is the last argument.  Written
    [--name=value] it is defined as a string flag holding [value]. *)
Theorem ParseUnknownFlags_long_flag (flags : FlagSet) (hasUnknown : bool)
    (name value next : string) :
  name <> "" -> Contains name "=" = false -> Lookup flags name = None ->
  (HasPrefix value "-" = false ->
   unknownLoop flags hasUnknown [longFlag name; value]
   = mkUnknown (SetValue (StringVar flags name) name value) "" true) /\
  (HasPrefix next "-" = true ->
   unknownLoop flags hasUnknown [longFlag name; next]
   = unknownLoop (SetValue (BoolVar flags name) name "true") true [next]) /\
  unknownLoop flags hasUnknown [longFlag name] = mkUnknown flags name hasUnknown /\
  unknownLoop flags hasUnknown [longFlag name ++ "=" ++ value]
  = mkUnknown (SetValue (StringVar flags name) name value) "" true.
Proof.
  intros Hname Heq Hlookup.
  assert (Hprev : String.eqb name "" = false) by now apply String.eqb_neq.
  unfold unknownLoop. cbn [fold_left]. repeat split.
  - intros Hvalue. rewrite unknownStep_longFlag by assumption.
    unfold unknownStep, flushPrevious.
    rewrite Hvalue, (HasPrefix_no_dash _ Hvalue).
    cbn [andb prevArg flagSet]. now rewrite Hprev.
  - intros Hnext. rewrite unknownStep_longFlag by assumption.
    unfold unknownStep, flushPrevious. rewrite Hnext.
    cbn [andb prevArg flagSet hasUnknownFlags String.eqb negb].
    rewrite Hprev. reflexivity.
  - now apply unknownStep_longFlag.
  - unfold unknownStep, flushPrevious, longFlag.
    cbn [prevArg flagSet hasUnknownFlags String.eqb negb andb].
    rewrite Bool.andb_false_r.
    change (("--" ++ name) ++ "=" ++ value) with ("--" ++ (name ++ "=" ++ value)).
    fold (longFlag (name ++ "=" ++ value)).
    rewrite longFlag_prefix, longFlag_Contains, Contains_separator.
    cbn [andb negb prevArg flagSet hasUnknownFlags String.eqb].
    change (sliceFrom 2 (longFlag (name ++ "=" ++ value))) with (name ++ "=" ++ value).
    now rewrite (SplitN_separator _ _ Heq), Hlookup.
Qed.

End ParseUnknownFlags.

(** [ParseUnknownFlags] defines a flag only under a name the flag set
    does not know at that moment: whatever [BoolVar] and [StringVar] do
    for a known name plays no part in the result. *)
Theorem ParseUnknownFlags_defines_unknown_only (FlagSet : Type)
    (Lookup : FlagSet -> string -> option Flag)
    (BoolVar BoolVar' StringVar StringVar' : FlagSet -> string -> FlagSet)
    (SetValue : FlagSet -> string -> string -> FlagSet)
    (Parse : FlagSet -> list string -> FlagSet * option error)
    (GetBool : FlagSet -> string -> result bool)
    (flags : FlagSet) (hasUnknown : bool) (argv : list string) :
  (forall fs name, Lookup fs name = None -> BoolVar fs name = BoolVar' fs name) ->
  (forall fs name, Lookup fs name = None -> StringVar fs name = StringVar' fs name) ->
  ParseUnknownFlags FlagSet Lookup BoolVar StringVar SetValue Parse GetBool
    flags hasUnknown argv
  = ParseUnknownFlags FlagSet Lookup BoolVar' StringVar' SetValue Parse GetBool
      flags hasUnknown argv.
Proof.
  intros Hbool Hstring.
  assert (Hstep : forall st arg, pendingUnknown FlagSet Lookup st ->
    unknownStep FlagSet Lookup BoolVar StringVar SetValue st arg
    = unknownStep FlagSet Lookup BoolVar' StringVar' SetValue st arg).
  { intros [fs prev has] arg Hpending. unfold pendingUnknown in Hpending.
    cbn [prevArg flagSet] in Hpending.
    unfold unknownStep, flushPrevious. cbn [prevArg flagSet hasUnknownFlags].
    destruct (String.eqb prev "") eqn:Hprev.
    - rewrite Bool.andb_false_r. cbn [prevArg flagSet hasUnknownFlags].
      rewrite Hprev. cbn [negb].
      destruct (HasPrefix arg "--" && negb (Contains arg "=")); [reflexivity|].
      destruct (HasPrefix arg "--" && Contains arg "="); [|reflexivity].
      destruct (SplitN_eq_2 _) as [|n [|v [|? ?]]]; try reflexivity.
      destruct (Lookup fs n) eqn:Hn; [reflexivity|]. now rewrite (Hstring _ _ Hn).
    - apply String.eqb_neq in Hprev as Hne.
      destruct Hpending as [?|Hpending]; [congruence|].
      rewrite <- (Hbool _ _ Hpending). rewrite Bool.andb_true_r.
      destruct (HasPrefix arg "-") eqn:H1.
      + cbn [prevArg flagSet hasUnknownFlags String.eqb negb].
        destruct (HasPrefix arg "--" && negb (Contains arg "=")); [reflexivity|].
        destruct (HasPrefix arg "--" && Contains arg "="); [|reflexivity].
        destruct (SplitN_eq_2 _) as [|n [|v [|? ?]]]; try reflexivity.
        destruct (Lookup _ n) eqn:Hn; [reflexivity|]. now rewrite (Hstring _ _ Hn).
      + rewrite (HasPrefix_no_dash _ H1). cbn [andb prevArg flagSet].
        rewrite Hprev. cbn [negb]. now rewrite (Hstring _ _ Hpending). }
  assert (Hloop : forall argv st, pendingUnknown FlagSet Lookup st ->
    fold_left (unknownStep FlagSet Lookup BoolVar StringVar SetValue) argv st
    = fold_left (unknownStep FlagSet Lookup BoolVar' StringVar' SetValue) argv st).
  { induction argv0 as [|arg argv0 IH]; intros st Hst; [reflexivity|].
    cbn [fold_left]. rewrite <- (Hstep st arg Hst). apply IH.
    apply unknownStep_pending. }
  unfold ParseUnknownFlags, unknownLoop. cbv zeta.
  rewrite Hloop; [reflexivity|]. now left.
Qed.

Lemma ParseUnknownFlags_defines_unknown_only_witness :
  ParseUnknownFlags ListFlagSet listLookup listBoolVar listStringVar listSetValue
    listParse listGetBool exampleFlags false ["--bogus"; "v"; "--yes"]
  = ParseUnknownFlags ListFlagSet listLookup guardedBoolVar guardedStringVar
      listSetValue listParse listGetBool exampleFlags false ["--bogus"; "v"; "--yes"].
Proof.
  apply ParseUnknownFlags_defines_unknown_only.
  - intros fs name H. unfold guardedBoolVar. now rewrite H.
  - intros fs name H. unfold guardedStringVar. now rewrite H.
Defined.

Lemma ParseUnknownFlags_no_long_flag_witness :
  unknownLoop ListFlagSet listLookup listBoolVar listStringVar listSetValue
    exampleFlags false ["-x"; "value"; "-y=1"]
  = mkUnknown ListFlagSet exampleFlags "" false.
Proof.
  apply ParseUnknownFlags_no_long_flag.
  intros arg [<-|[<-|[<-|[]]]]; reflexivity.
Defined.

Lemma ParseUnknownFlags_long_flag_witness :
  unknownLoop ListFlagSet listLookup listBoolVar listStringVar listSetValue
    exampleFlags false ["--bogus"; "v"]
  = mkUnknown ListFlagSet (exampleFlags ++ [mkFlag "bogus" "string"])%list "" true
  /\
  flagSet ListFlagSet
    (unknownLoop ListFlagSet listLookup listBoolVar listStringVar listSetValue
       exampleFlags false ["--bogus"])
  = exampleFlags.
Proof.
  destruct (ParseUnknownFlags_long_flag ListFlagSet listLookup listBoolVar
              listStringVar listSetValue exampleFlags false "bogus" "v" "-y")
    as (Hvalue & _ & Hlast & _);
    [discriminate | reflexivity | reflexivity |].
  split.
  - apply Hvalue. reflexivity.
  - exact (f_equal (flagSet ListFlagSet) Hlast).
Defined.

End Arguments.

(** * The generated machine-type client: responses *)

Module MachineType.

(** The outcome of a method call: the returned value, or the run-time
    panic of a [nil] pointer dereference. *)
Inductive go (A : Type) : Type :=
| Return (a : A)
| Panic.
Arguments Return {A} a.
Arguments Panic {A}.

Section Responses.

(** [http.Header], [errors.Error] and [MachineType]: the accessors only
    hand these values over. *)
Variables Header Error MachineType : Type.

(** [MachineTypeGetResponse]; [header] is a Go map and [err] and [body]
    are pointers, so each may be [nil]. *)
Record MachineTypeGetResponse : Type := mkGet {
  status : Z;
  header : option Header;
  err : option Error;
  body : option MachineType
}.

(** [MachineTypePollResponse]: a pointer to the response of the last
    [get]. *)
Record MachineTypePollResponse : Type := mkPoll {
  response : option MachineTypeGetResponse
}.

(** The methods of [*MachineTypeGetResponse]; the receiver is a pointer.
    Each tests [r == nil] before it reads a field. *)
Definition Get_Status (r : option MachineTypeGetResponse) : go Z :=
  match r with
  | None => Return 0%Z
  | Some x => Return (status x)
  end.

Definition Get_Header (r : option MachineTypeGetResponse) : go (option Header) :=
  match r with
  | None => Return None
  | Some x => Return (header x)
  end.

Definition Get_Error (r : option MachineTypeGetResponse) : go (option Error) :=
  match r with
  | None => Return None
  | Some x => Return (err x)
  end.

Definition Get_Body (r : option MachineTypeGetResponse) : go (option MachineType) :=
  match r with
  | None => Return None
  | Some x => Return (body x)
  end.

(** [ok = r != nil && r.body != nil; if ok { value = r.body }]. *)
Definition Get_GetBody (r : option MachineTypeGetResponse)
    : go (option MachineType * bool) :=
  match r with
  | None => Return (None, false)
  | Some x =>
      match body x with
      | None => Return (None, false)
      | Some b => Return (Some b, true)
      end
  end.

(** The methods of [*MachineTypePollResponse].  [Status], [Header] and
    [Error] test [r == nil]; [Body] and [GetBody] read [r.response]
    without a test, which panics on a [nil] receiver. *)
Definition Poll_Status (r : option MachineTypePollResponse) : go Z :=
  match r with
  | None => Return 0%Z
  | Some p => Get_Status (response p)
  end.

Definition Poll_Header (r : option MachineTypePollResponse) : go (option Header) :=
  match r with
  | None => Return None
  | Some p => Get_Header (response p)
  end.

Definition Poll_Error (r : option MachineTypePollResponse) : go (option Error) :=
  match r with
  | None => Return None
  | Some p => Get_Error (response p)
  end.

Definition Poll_Body (r : option MachineTypePollResponse) : go (option MachineType) :=
  match r with
  | None => Panic
  | Some p => Get_Body (response p)
  end.

Definition Poll_GetBody (r : option MachineTypePollResponse)
    : go (option MachineType * bool) :=
  match r with
  | None => Panic
  | Some p => Get_GetBody (response p)
  end.

(** The body a receiver holds, if any. *)
Definition bodyOf (r : option MachineTypeGetResponse) : option MachineType :=
  match r with
  | None => None
  | Some x => body x
  end.

(** *** The [get] response: every accessor is total *)

Lemma Get_accessors_nil :
  Get_Status None = Return 0%Z /\ Get_Header None = Return None /\
  Get_Error None = Return None /\ Get_Body None = Return None /\
  Get_GetBody None = Return (None, false).
Proof. repeat split. Qed.

Lemma Get_GetBody_total (r : option MachineTypeGetResponse) :
  exists value ok, Get_GetBody r = Return (value, ok) /\
    (ok = false <-> (r = None \/ bodyOf r = None)) /\
    (ok = true -> value = bodyOf r /\ value <> None).
Proof.
  destruct r as [x|]; cbn.
  - destruct (body x) as [b|] eqn:Hb.
    + exists (Some b), true. repeat split; try discriminate.
      intros [H|H]; discriminate.
    + exists None, false. repeat split; auto; discriminate.
  - exists None, false. repeat split; auto; discriminate.
Qed.

(** *** The [poll] response: guarded and unguarded accessors *)

Lemma Poll_guarded_accessors_nil :
  Poll_Status None = Return 0%Z /\ Poll_Header None = Return None /\
  Poll_Error None = Return None.
Proof. repeat split. Qed.

Lemma Poll_guarded_accessors_total (r : option MachineTypePollResponse) :
  Poll_Status r <> Panic /\ Poll_Header r <> Panic /\ Poll_Error r <> Panic.
Proof.
  destruct r as [[[x|]]|]; cbn; repeat split; discriminate.
Qed.

Lemma Poll_GetBody_nonnil (p : MachineTypePollResponse) :
  Poll_GetBody (Some p) = Get_GetBody (response p).
Proof. reflexivity. Qed.

(** C9, at the failing input.  On a [nil] [*MachineTypePollResponse]
    the accessors [GetBody] and [Body] dereference the receiver: they
    panic instead of returning [ok = false] and [nil]. *)
Theorem Poll_GetBody_nil_panics :
  Poll_GetBody None = Panic /\ Poll_Body None = Panic.
Proof. split; reflexivity. Qed.

End Responses.

(** ** Requests *)

Section Requests.

Variables Header Error MachineType : Type.

(** [url.Values], the body of an HTTP response and [context.Context];
    the helpers that copy and encode a query and copy a header. *)
Variables Query Body Context : Type.
Variable CopyQuery : Query -> Query.
Variable CopyHeader : option Header -> option Header.
Variable Encode : Query -> string.
Variable Background : Context.

(** [http.Request], as far as [SendContext] fills it in; [reqContext] is
    the context attached by [WithContext], if any. *)
Record HttpRequest : Type := mkHttpRequest {
  reqMethod : string;
  reqPath : string;
  reqRawQuery : string;
  reqHeader : option Header;
  reqContext : option Context
}.

Record HttpResponse : Type := mkHttpResponse {
  StatusCode : Z;
  respHeader : option Header;
  respBody : Body
}.

(** What [reader.Peek(1)] says about the body. *)
Inductive PeekResult : Type :=
| PeekByte
| PeekEOF
| PeekFailed (e : error).

(** The transport and the readers of a body.
    [readMachineTypeGetResponse] fills in the body of the result. *)
Variable RoundTrip : HttpRequest -> result HttpResponse.
Variable Peek : Body -> PeekResult.
Variable UnmarshalErrorStatus : Body -> Z -> option Error * option error.
Variable readMachineTypeGetResponse : Body -> option MachineType * option error.

(** The [error] a send returns: an error of the transport or of a
    reader, or the service's error object of the response.  The second
    is never a [nil] error, whatever the pointer it wraps. *)
Inductive SendError : Type :=
| OtherError (e : error)
| ResponseError (e : option Error).

(** [MachineTypeGetRequest]; its transport is [RoundTrip]. *)
Record MachineTypeGetRequest : Type := mkGetRequest {
  path : string;
  query : Query;
  reqHeaders : option Header
}.

Definition Response : Type := MachineTypeGetResponse Header Error MachineType.

(** [MachineTypePollRequest]. *)
Record MachineTypePollRequest : Type := mkPollRequest {
  request : MachineTypeGetRequest;
  interval : Z;
  statuses : list Z;
  predicates : list (option Response -> bool)
}.

(** [helpers.PollContext]: the polling loop, which runs the task it is
    given.  Its result is [nil] or a response a task returned. *)
Variable PollContext :
  option Context -> Z -> list Z -> list (option Response -> bool) ->
  (option Context -> Z * option Response * option SendError) ->
  option Response * option SendError.

(** The HTTP request [SendContext] builds. *)
Definition httpRequest (r : MachineTypeGetRequest) (ctx : option Context)
    : HttpRequest :=
  let query := CopyQuery (query r) in
  let header := CopyHeader (reqHeaders r) in
  mkHttpRequest "GET" (path r) (Encode query) header ctx.

(** [SendContext]: the named results [result] and [err]. *)
Definition SendContext (r : MachineTypeGetRequest) (ctx : option Context)
    : option Response * option SendError :=
  match RoundTrip (httpRequest r ctx) with
  | Err e => (None, Some (OtherError e))
  | Ok response =>
      let status := StatusCode response in
      let header := respHeader response in
      let reader := respBody response in
      match Peek reader with
      | PeekEOF => (Some (mkGet _ _ _ status header None None), None)
      | _ =>
          if (400 <=? status)%Z then
            let '(respErr, err) := UnmarshalErrorStatus reader status in
            match err with
            | Some e => (Some (mkGet _ _ _ status header respErr None),
                         Some (OtherError e))
            | None => (Some (mkGet _ _ _ status header respErr None),
                       Some (ResponseError respErr))
            end
          else
            let '(body, err) := readMachineTypeGetResponse reader in
            (Some (mkGet _ _ _ status header None body),
             match err with
             | Some e => Some (OtherError e)
             | None => None
             end)
      end
  end.

(** [Send]. *)
Definition Send (r : MachineTypeGetRequest) : option Response * option SendError :=
  SendContext r (Some Background).

(** [task]: the status, the result and the error handed to the polling
    helper. *)
Definition task (r : MachineTypePollRequest) (ctx : option Context)
    : Z * option Response * option SendError :=
  let '(response, err) := SendContext (request r) ctx in
  match response with
  | Some x => (status _ _ _ x, Some x, err)
  | None => (0%Z, None, err)
  end.

(** [StartContext]: the response wraps the result of the polling loop,
    and is [nil] when there is none. *)
Definition StartContext (r : MachineTypePollRequest) (ctx : option Context)
    : option (MachineTypePollResponse Header Error MachineType) * option SendError :=
  let '(result, err) :=
    PollContext ctx (interval r) (statuses r) (predicates r) (task r) in
  (match result with
   | Some x => Some (mkPoll _ _ _ (Some x))
   | None => None
   end, err).

(** *** What a send returns *)

(** [SendContext] returns no response exactly when the transport fails,
    and then the transport's error; every response it returns, with an
    error or without, carries the status code and the header the
    transport answered, and [task] reports that status, or 0 without a
    response. *)
Theorem SendContext_response (r : MachineTypePollRequest) (ctx : option Context) :
  match RoundTrip (httpRequest (request r) ctx) with
  | Err e =>
      SendContext (request r) ctx = (None, Some (OtherError e)) /\
      task r ctx = (0%Z, None, Some (OtherError e))
  | Ok response =>
      exists x,
        fst (SendContext (request r) ctx) = Some x /\
        status _ _ _ x = StatusCode response /\
        header _ _ _ x = respHeader response /\
        fst (task r ctx) = (StatusCode response, Some x)
  end.
Proof.
  unfold task, SendContext.
  destruct (RoundTrip _) as [response|e]; [|split; reflexivity].
  destruct (Peek _); [| eexists; repeat split |];
    (destruct (400 <=? _)%Z;
     [ destruct (UnmarshalErrorStatus _ _) as [respErr [e'|]]
     | destruct (readMachineTypeGetResponse _) as [body [e'|]] ];
     eexists; repeat split).
Qed.

(** Once the transport has answered, [SendContext] returns no error in
    two cases only: the body of the answer is empty, whatever the status
    code, also 400 and above; or the status code is below 400 and the
    body could be read.  A response returned without error holds no
    service error, and holds a body only with a status code below 400. *)
Theorem SendContext_no_error (r : MachineTypeGetRequest) (ctx : option Context)
    (response : HttpResponse) :
  RoundTrip (httpRequest r ctx) = Ok response ->
  (snd (SendContext r ctx) = None <->
   Peek (respBody response) = PeekEOF \/
   ((StatusCode response < 400)%Z /\
    snd (readMachineTypeGetResponse (respBody response)) = None)) /\
  (snd (SendContext r ctx) = None ->
   exists x, fst (SendContext r ctx) = Some x /\ err _ _ _ x = None /\
             (body _ _ _ x <> None -> (status _ _ _ x < 400)%Z)).
Proof.
  intros Hsend. unfold SendContext. rewrite Hsend.
  destruct (Z.leb_spec 400 (StatusCode response)) as [Hge|Hlt].
  - destruct (Peek _) eqn:Hpeek;
      try (destruct (UnmarshalErrorStatus _ _) as [respErr [e'|]]);
      cbn [fst snd]; (split; [split|]);
      try discriminate; try (intros [?|[? _]]; (discriminate || lia));
      try (intros _; eexists; repeat split; cbn; congruence); auto.
  - destruct (Peek _) eqn:Hpeek;
      try (destruct (readMachineTypeGetResponse _) as [b [e'|]]);
      cbn [fst snd]; (split; [split|]);
      try discriminate; try (intros [?|[_ ?]]; discriminate);
      try (intros _; eexists; repeat split; cbn; (congruence || (intros; lia)));
      auto.
Qed.

(** *** The response of a poll *)

(** [StartContext] returns a [nil] response exactly when the polling
    loop gives no result (it timed out or failed before a response
    came), and on that response [GetBody] and [Body] panic, while
    [Status], [Header] and [Error] still answer; on every other
    response of [StartContext] the five accessors answer what the
    accessors of the polled response answer. *)
Theorem StartContext_response (r : MachineTypePollRequest) (ctx : option Context) :
  let polled :=
    fst (PollContext ctx (interval r) (statuses r) (predicates r) (task r)) in
  let response := fst (StartContext r ctx) in
  (response = None <-> polled = None) /\
  (Poll_GetBody _ _ _ response = Panic <-> polled = None) /\
  (Poll_Body _ _ _ response = Panic <-> polled = None) /\
  Poll_Status _ _ _ response = Get_Status _ _ _ polled /\
  Poll_Header _ _ _ response = Get_Header _ _ _ polled /\
  Poll_Error _ _ _ response = Get_Error _ _ _ polled /\
  (polled <> None ->
   Poll_GetBody _ _ _ response = Get_GetBody _ _ _ polled /\
   Poll_Body _ _ _ response = Get_Body _ _ _ polled).
Proof.
  unfold StartContext.
  destruct (PollContext _ _ _ _ _) as [[x|] err]; cbn.
  - repeat split; try discriminate; try congruence.
    destruct (body _ _ _ x); discriminate.
  - repeat split; congruence.
Qed.

End Requests.

(** A transport that answers 404 with an empty body, and readers of a
    body held as a string. *)
Definition exampleRoundTrip (request : HttpRequest unit unit)
    : result (HttpResponse unit string) :=
  Ok (mkHttpResponse unit string 404 None "").

Definition examplePeek (b : string) : PeekResult :=
  match b with
  | EmptyString => PeekEOF
  | _ => PeekByte
  end.

Definition exampleUnmarshal (b : string) (status : Z) : option string * option error :=
  (Some b, None).

Definition exampleRead (b : string) : option string * option error :=
  (Some b, None).

Definition exampleEncode (q : list (string * string)) : string :=
  match q with
  | [] => ""
  | _ => "?"
  end.

Definition exampleRequest : MachineTypeGetRequest unit (list (string * string)) :=
  mkGetRequest _ _ "/api/clusters_mgmt/v1/machine_types/m5.xlarge" [] None.

Lemma SendContext_no_error_witness :
  snd (SendContext unit string string (list (string * string)) string unit
         (fun q => q) (fun h => h) exampleEncode exampleRoundTrip examplePeek
         exampleUnmarshal exampleRead exampleRequest None) = None.
Proof.
  apply (proj1 (SendContext_no_error unit string string (list (string * string))
                  string unit (fun q => q) (fun h => h) exampleEncode
                  exampleRoundTrip examplePeek exampleUnmarshal exampleRead
                  exampleRequest None (mkHttpResponse unit string 404 None "")
                  eq_refl)).
  left. reflexivity.
Defined.

End MachineType.

(** * The [logs] resource of the SDK

    [LogsListRequest.SendContext] and the accessors of
    [LogsListResponse]. *)

Module Logs.

Import MachineType.

Section List.

Variables Header Error LogList : Type.
Variables Query Body Context : Type.
Variable CopyQuery : Query -> Query.
Variable CopyHeader : option Header -> option Header.
Variable AddValue : Query -> string -> Z -> Query.
Variable Encode : Query -> string.
Variable Background : Context.

Variable RoundTrip : HttpRequest Header Context -> result (HttpResponse Header Body).
Variable Peek : Body -> PeekResult.
Variable UnmarshalErrorStatus : Body -> Z -> option Error * option error.

(** [LogsListRequest]; [page] and [size] are pointers. *)
Record LogsListRequest : Type := mkListRequest {
  path : string;
  query : Query;
  header : option Header;
  page : option Z;
  size : option Z
}.

(** [LogsListResponse]. *)
Record LogsListResponse : Type := mkListResponse {
  status : Z;
  respHeaders : option Header;
  err : option Error;
  items : option LogList;
  respPage : option Z;
  respSize : option Z;
  total : option Z
}.

(** [readLogsListResponse] fills in the items, the page, the size and
    the total of the result, as far as it gets. *)
Variable readLogsListResponse :
  Body -> (option LogList * option Z * option Z * option Z) * option error.

(** [Page] and [Size] of the request. *)
Definition Request_Page (value : Z) (r : LogsListRequest) : LogsListRequest :=
  mkListRequest (path r) (query r) (header r) (Some value) (size r).

Definition Request_Size (value : Z) (r : LogsListRequest) : LogsListRequest :=
  mkListRequest (path r) (query r) (header r) (page r) (Some value).

(** The query and the HTTP request [SendContext] builds. *)
Definition sentQuery (r : LogsListRequest) : Query :=
  let query := CopyQuery (query r) in
  let query :=
    match page r with
    | Some p => AddValue query "page" p
    | None => query
    end in
  match size r with
  | Some s => AddValue query "size" s
  | None => query
  end.

Definition listRequest (r : LogsListRequest) (ctx : option Context)
    : HttpRequest Header Context :=
  let query := sentQuery r in
  let header := CopyHeader (header r) in
  mkHttpRequest _ _ "GET" (path r) (Encode query) header ctx.

(** [SendContext]. *)
Definition SendContext (r : LogsListRequest) (ctx : option Context)
    : option LogsListResponse * option (SendError Error) :=
  match RoundTrip (listRequest r ctx) with
  | Err e => (None, Some (OtherError _ e))
  | Ok response =>
      let status := StatusCode _ _ response in
      let header := respHeader _ _ response in
      let reader := respBody _ _ response in
      match Peek reader with
      | PeekEOF =>
          (Some (mkListResponse status header None None None None None), None)
      | _ =>
          if (400 <=? status)%Z then
            let '(respErr, err) := UnmarshalErrorStatus reader status in
            match err with
            | Some e =>
                (Some (mkListResponse status header respErr None None None None),
                 Some (OtherError _ e))
            | None =>
                (Some (mkListResponse status header respErr None None None None),
                 Some (ResponseError _ respErr))
            end
          else
            let '(items, page, size, total, err) := readLogsListResponse reader in
            (Some (mkListResponse status header None items page size total),
             match err with
             | Some e => Some (OtherError _ e)
             | None => None
             end)
      end
  end.

Definition Send (r : LogsListRequest) : option LogsListResponse * option (SendError Error) :=
  SendContext r (Some Background).

(** The accessors of [*LogsListResponse]; each tests [r == nil], and the
    pointer it reads, before it reads. *)
Definition Response_Status (r : option LogsListResponse) : Z :=
  match r with
  | None => 0%Z
  | Some x => status x
  end.

Definition Response_Header (r : option LogsListResponse) : option Header :=
  match r with
  | None => None
  | Some x => respHeaders x
  end.

Definition Response_Error (r : option LogsListResponse) : option Error :=
  match r with
  | None => None
  | Some x => err x
  end.

Definition Response_Items (r : option LogsListResponse) : option LogList :=
  match r with
  | None => None
  | Some x => items x
  end.

Definition Response_GetItems (r : option LogsListResponse) : option LogList * bool :=
  match r with
  | Some x =>
      match items x with
      | Some l => (Some l, true)
      | None => (None, false)
      end
  | None => (None, false)
  end.

(** [if r != nil && r.f != nil { return *r.f }; return 0]. *)
Definition intOr0 (f : LogsListResponse -> option Z) (r : option LogsListResponse) : Z :=
  match r with
  | Some x =>
      match f x with
      | Some v => v
      | None => 0%Z
      end
  | None => 0%Z
  end.

(** [ok = r != nil && r.f != nil; if ok { value = *r.f }]. *)
Definition getInt (f : LogsListResponse -> option Z) (r : option LogsListResponse)
    : Z * bool :=
  match r with
  | Some x =>
      match f x with
      | Some v => (v, true)
      | None => (0%Z, false)
      end
  | None => (0%Z, false)
  end.

Definition Response_GetPage := getInt respPage.
Definition Response_GetSize := getInt respSize.
Definition Response_GetTotal := getInt total.
Definition Response_Page := intOr0 respPage.
Definition Response_Size := intOr0 respSize.
Definition Response_Total := intOr0 total.

(** *** The accessors *)

Lemma intOr0_getInt f r :
  intOr0 f r = fst (getInt f r) /\ (snd (getInt f r) = false -> intOr0 f r = 0%Z).
Proof.
  destruct r as [x|]; cbn; [destruct (f x)|]; cbn; split; auto; discriminate.
Qed.

(** On every receiver, [nil] too, [Page], [Size], [Total] and [Items]
    return the value of [GetPage], [GetSize], [GetTotal] and [GetItems],
    which is the zero value whenever the flag is false. *)
Theorem LogsListResponse_accessors (r : option LogsListResponse) :
  (Response_Page r = fst (Response_GetPage r) /\
   (snd (Response_GetPage r) = false -> Response_Page r = 0%Z)) /\
  (Response_Size r = fst (Response_GetSize r) /\
   (snd (Response_GetSize r) = false -> Response_Size r = 0%Z)) /\
  (Response_Total r = fst (Response_GetTotal r) /\
   (snd (Response_GetTotal r) = false -> Response_Total r = 0%Z)) /\
  (Response_Items r = fst (Response_GetItems r) /\
   (snd (Response_GetItems r) = false <-> Response_Items r = None)).
Proof.
  repeat split; try apply intOr0_getInt.
  - destruct r as [x|]; cbn; [destruct (items x)|]; reflexivity.
  - destruct r as [x|]; cbn; [destruct (items x)|]; auto; discriminate.
  - destruct r as [x|]; cbn; [destruct (items x)|]; auto; discriminate.
Qed.

(** *** What a send returns *)

(** Once the transport has answered, [SendContext] returns no error in
    two cases only: the body of the answer is empty, whatever the status
    code; or the status code is below 400 and the list could be read. *)
Theorem LogsList_SendContext_no_error (r : LogsListRequest) (ctx : option Context)
    (response : HttpResponse Header Body) :
  RoundTrip (listRequest r ctx) = Ok response ->
  (snd (SendContext r ctx) = None <->
   Peek (respBody _ _ response) = PeekEOF \/
   ((StatusCode _ _ response < 400)%Z /\
    snd (readLogsListResponse (respBody _ _ response)) = None)).
Proof.
  intros Hsend. unfold SendContext. rewrite Hsend.
  destruct (Z.leb_spec 400 (StatusCode _ _ response)) as [Hge|Hlt].
  - destruct (Peek _) eqn:Hpeek;
      try (destruct (UnmarshalErrorStatus _ _) as [respErr [e'|]]);
      cbn [fst snd]; split;
      try discriminate; try (intros [?|[? _]]; (discriminate || lia)); auto.
  - destruct (Peek _) eqn:Hpeek;
      try (destruct (readLogsListResponse _) as [[[[i p] s] t] [e'|]]);
      cbn [fst snd]; split;
      try discriminate; try (intros [?|[_ ?]]; discriminate); auto.
Qed.

(** An answer with an empty body, or with a status code of 400 or
    above, gives a response without items, page, size and total: the
    accessors return [nil] and 0 with a false flag, and the status code
    of the answer. *)
Theorem LogsList_SendContext_no_list (r : LogsListRequest) (ctx : option Context)
    (response : HttpResponse Header Body) :
  RoundTrip (listRequest r ctx) = Ok response ->
  Peek (respBody _ _ response) = PeekEOF \/ (400 <= StatusCode _ _ response)%Z ->
  exists x,
    fst (SendContext r ctx) = Some x /\
    Response_Status (Some x) = StatusCode _ _ response /\
    Response_GetItems (Some x) = (None, false) /\
    Response_GetPage (Some x) = (0%Z, false) /\
    Response_GetSize (Some x) = (0%Z, false) /\
    Response_GetTotal (Some x) = (0%Z, false).
Proof.
  intros Hsend Hcase. unfold SendContext. rewrite Hsend.
  destruct (Peek _) eqn:Hpeek.
  2: eexists; repeat split.
  all: destruct Hcase as [Hcase|Hcase]; [discriminate|].
  all: apply Z.leb_le in Hcase; rewrite Hcase.
  all: destruct (UnmarshalErrorStatus _ _) as [respErr [e'|]].
  all: eexists; repeat split.
Qed.

End List.

(** A transport that answers 500 with a body, and one that answers 200
    without. *)
Definition failingRoundTrip (request : HttpRequest unit unit)
    : result (HttpResponse unit string) :=
  Ok (mkHttpResponse unit string 500 None "{}").

Definition emptyRoundTrip (request : HttpRequest unit unit)
    : result (HttpResponse unit string) :=
  Ok (mkHttpResponse unit string 200 None "").

Definition exampleAddValue (q : list (string * Z)) (name : string) (value : Z)
    : list (string * Z) :=
  (q ++ [(name, value)])%list.

Definition exampleEncode (q : list (string * Z)) : string :=
  String.concat "&" (map fst q).

Definition exampleUnmarshal (b : string) (status : Z) : option string * option error :=
  (Some b, None).

Definition exampleRead (b : string)
    : (option (list string) * option Z * option Z * option Z) * option error :=
  (Some [b], Some 1%Z, Some 1%Z, Some 1%Z, None).

Definition exampleRequest : LogsListRequest unit (list (string * Z)) :=
  Request_Size _ _ 10 (Request_Page _ _ 1
    (mkListRequest _ _ "/api/clusters_mgmt/v1/clusters/c1/logs" [] None None None)).

Lemma LogsList_SendContext_no_error_witness :
  snd (SendContext unit string (list string) (list (string * Z)) string unit
         (fun q => q) (fun h => h) exampleAddValue exampleEncode emptyRoundTrip
         examplePeek exampleUnmarshal exampleRead exampleRequest None) = None.
Proof.
  apply (LogsList_SendContext_no_error unit string (list string)
           (list (string * Z)) string unit (fun q => q) (fun h => h)
           exampleAddValue exampleEncode emptyRoundTrip examplePeek
           exampleUnmarshal exampleRead exampleRequest None
           (mkHttpResponse unit string 200 None "") eq_refl).
  left. reflexivity.
Defined.

Lemma LogsList_SendContext_no_list_witness :
  exists x,
    fst (SendContext unit string (list string) (list (string * Z)) string unit
           (fun q => q) (fun h => h) exampleAddValue exampleEncode
           failingRoundTrip examplePeek exampleUnmarshal exampleRead
           exampleRequest None) = Some x /\
    Response_Status _ _ _ (Some x) = 500%Z /\
    Response_GetItems _ _ _ (Some x) = (None, false) /\
    Response_GetPage _ _ _ (Some x) = (0%Z, false) /\
    Response_GetSize _ _ _ (Some x) = (0%Z, false) /\
    Response_GetTotal _ _ _ (Some x) = (0%Z, false).
Proof.
  apply (LogsList_SendContext_no_list unit string (list string)
           (list (string * Z)) string unit (fun q => q) (fun h => h)
           exampleAddValue exampleEncode failingRoundTrip examplePeek
           exampleUnmarshal exampleRead exampleRequest None
           (mkHttpResponse unit string 500 None "{}") eq_refl).
  right. cbn. lia.
Defined.

End Logs.

(** * Node pools: [rosa create machinepool] and [rosa edit machinepool]
      on a hosted cluster *)

Module NodePool.

Local Open Scope Z_scope.

(** ** The cluster-service SDK values the commands build *)

(** [cmv1.NodePoolAutoscaling] and its builder: each bound is set or
    left out of the request. *)
Record NodePoolAutoscaling : Type := mkAutoscaling {
  asMinReplica : option Z;
  asMaxReplica : option Z
}.

(** [cmv1.NodePool] and its builder. *)
Record NodePoolT : Type := mkNodePool {
  npID : option string;
  npAutoscaling : option NodePoolAutoscaling;
  npReplicas : option Z
}.

Definition NewNodePoolAutoscaling : NodePoolAutoscaling := mkAutoscaling None None.
Definition MinReplica (v : Z) (b : NodePoolAutoscaling) : NodePoolAutoscaling :=
  mkAutoscaling (Some v) (asMaxReplica b).
Definition MaxReplica (v : Z) (b : NodePoolAutoscaling) : NodePoolAutoscaling :=
  mkAutoscaling (asMinReplica b) (Some v).

Definition NewNodePool : NodePoolT := mkNodePool None None None.
Definition ID (v : string) (b : NodePoolT) : NodePoolT :=
  mkNodePool (Some v) (npAutoscaling b) (npReplicas b).
Definition Autoscaling (v : NodePoolAutoscaling) (b : NodePoolT) : NodePoolT :=
  mkNodePool (npID b) (Some v) (npReplicas b).
Definition Replicas (v : Z) (b : NodePoolT) : NodePoolT :=
  mkNodePool (npID b) (npAutoscaling b) (Some v).

(** The getters of the SDK objects: the zero value when the field is not
    set, also on a [nil] receiver. *)
Definition getID (np : NodePoolT) : string :=
  match npID np with Some v => v | None => "" end.
Definition getReplicas (np : NodePoolT) : Z :=
  match npReplicas np with Some v => v | None => 0 end.
Definition getMinReplica (a : option NodePoolAutoscaling) : Z :=
  match a with
  | Some x => match asMinReplica x with Some v => v | None => 0 end
  | None => 0
  end.
Definition getMaxReplica (a : option NodePoolAutoscaling) : Z :=
  match a with
  | Some x => match asMaxReplica x with Some v => v | None => 0 end
  | None => 0
  end.

(** ** The command's surroundings *)

(** The [args] variable of the command: the values bound to the flags.
    The flags are declared in the command's own file; a flag that was
    not given leaves its variable at the declared default. *)
Record Args : Type := mkArgs {
  replicas : Z;
  autoscalingEnabled : bool;
  minReplicas : Z;
  maxReplicas : Z
}.

(** What one run reads from outside: the flags, the prompter's answers
    and the cluster service's responses. *)
Record Env : Type := mkEnv {
  args : Args;
  Changed : string -> bool;
  interactiveEnabled : bool;
  GetBool : string -> bool -> result bool;
  GetInt : string -> Z -> bool -> result Z;
  clusterKey : string;
  clusterID : string;
  BuildErr : NodePoolT -> option error;
  CreateNodePool : string -> NodePoolT -> result NodePoolT;
  GetNodePool : string -> string -> result NodePoolT;
  UpdateNodePool : string -> NodePoolT -> result NodePoolT
}.

(** What a run does that can be observed: reporter lines, prompts, the
    SDK's [Build] and the calls to the cluster service. *)
Inductive Event : Type :=
| Errorf (msg : string)
| Infof (msg : string)
| Debugf (msg : string)
| AskBool (question : string) (default : bool)
| AskInt (question : string) (default : Z) (required : bool)
| CallBuild (np : NodePoolT)
| CallCreateNodePool (cluster : string) (np : NodePoolT)
| CallGetNodePool (cluster : string) (id : string)
| CallUpdateNodePool (cluster : string) (np : NodePoolT).

(** How a command ends: it returns, or [os.Exit(code)] stops the
    process. *)
Inductive Outcome (A : Type) : Type :=
| Done (a : A)
| Exited (code : Z).
Arguments Done {A} a.
Arguments Exited {A} code.

(** A command: the events in order, and the end. *)
Definition M (A : Type) : Type := list Event * Outcome A.

Definition ret {A : Type} (a : A) : M A := ([], Done a).

Definition bind {A B : Type} (m : M A) (f : A -> M B) : M B :=
  match m with
  | (t, Done a) => let (t', o) := f a in ((t ++ t')%list, o)
  | (t, Exited c) => (t, Exited c)
  end.

Definition emit (e : Event) : M unit := ([e], Done tt).

Definition osExit {A : Type} (code : Z) : M A := ([], Exited code).

Notation "x <- m ;; k" := (bind m (fun x => k))
  (at level 61, m at next level, right associativity).
Notation "' pat <- m ;; k" := (bind m (fun x => match x with pat => k end))
  (at level 61, pat pattern, m at next level, right associativity).
Notation "m ;; k" := (bind m (fun _ => k))
  (at level 61, right associativity).

(** [if cond { body }]. *)
Definition when (cond : bool) (body : M unit) : M unit :=
  if cond then body else ret tt.

(** [if err != nil { r.Reporter.Errorf(...); os.Exit(1) }]. *)
Definition orExit {A : Type} (r : result A) (msg : error -> string) : M A :=
  match r with
  | Ok a => ret a
  | Err e => emit (Errorf (msg e)) ;; osExit 1
  end.

(** [npBuilder.Build()]: the object holds what the builder was given;
    the error is the builder's own. *)
Definition Build (env : Env) (b : NodePoolT) : result NodePoolT :=
  match BuildErr env b with
  | None => Ok b
  | Some e => Err e
  end.

Definition interactiveGetBool (env : Env) (question : string) (default : bool)
    : M (result bool) :=
  emit (AskBool question default) ;; ret (GetBool env question default).

Definition interactiveGetInt (env : Env) (question : string) (default : Z)
    (required : bool) : M (result Z) :=
  emit (AskInt question default required) ;;
  ret (GetInt env question default required).

(** ** [addNodePool] *)

Definition addNodePool (env : Env) : M unit :=
  when (Changed env "multi-availability-zone")
    (emit (Errorf "Setting the `multi-availability-zone` flag is not yet supported for hosted clusters") ;;
     osExit 1) ;;
  when (Changed env "availability-zone")
    (emit (Errorf "Setting the `availability-zone` flag is not yet supported for hosted clusters") ;;
     osExit 1) ;;
  when (Changed env "subnet")
    (emit (Errorf "Setting the `subnet` flag is not yet supported for hosted clusters") ;;
     osExit 1) ;;
  when (Changed env "name")
    (emit (Errorf "Setting the `name` is not supported for hosted clusters") ;;
     osExit 1) ;;
  let isMinReplicasSet := Changed env "min-replicas" in
  let isMaxReplicasSet := Changed env "max-replicas" in
  let isAutoscalingSet := Changed env "enable-autoscaling" in
  let isReplicasSet := Changed env "replicas" in
  let minReplicas0 := minReplicas (args env) in
  let maxReplicas0 := maxReplicas (args env) in
  let autoscaling0 := autoscalingEnabled (args env) in
  let replicas0 := replicas (args env) in
  autoscaling <-
    (if negb isReplicasSet && negb autoscaling0 && negb isAutoscalingSet
        && interactiveEnabled env
     then r <- interactiveGetBool env "Enable autoscaling" autoscaling0 ;;
          orExit r (fun e => "Expected a valid value for enable-autoscaling: " ++ e)
     else ret autoscaling0) ;;
  '(minReplicas1, maxReplicas1, replicas1) <-
    (if autoscaling : bool then
       when isReplicasSet
         (emit (Errorf "Replicas can't be set when autoscaling is enabled") ;;
          osExit 1) ;;
       minReplicas1 <-
         (if interactiveEnabled env || negb isMinReplicasSet
          then r <- interactiveGetInt env "Min replicas" minReplicas0 true ;;
               orExit r (fun e => "Expected a valid number of min replicas: " ++ e)
          else ret minReplicas0) ;;
       maxReplicas1 <-
         (if interactiveEnabled env || negb isMaxReplicasSet
          then r <- interactiveGetInt env "Max replicas" maxReplicas0 true ;;
               orExit r (fun e => "Expected a valid number of max replicas: " ++ e)
          else ret maxReplicas0) ;;
       ret (minReplicas1, maxReplicas1, replicas0)
     else
       when (isMinReplicasSet || isMaxReplicasSet)
         (emit (Errorf "Autoscaling must be enabled in order to set min and max replicas") ;;
          osExit 1) ;;
       replicas1 <-
         (if interactiveEnabled env || negb isReplicasSet
          then r <- interactiveGetInt env "Replicas" replicas0 true ;;
               orExit r (fun e => "Expected a valid number of replicas: " ++ e)
          else ret replicas0) ;;
       ret (minReplicas0, maxReplicas0, replicas1)) ;;
  let npBuilder :=
    if autoscaling : bool
    then Autoscaling
           (MaxReplica maxReplicas1 (MinReplica minReplicas1 NewNodePoolAutoscaling))
           NewNodePool
    else Replicas replicas1 NewNodePool in
  emit (CallBuild npBuilder) ;;
  nodePool <- orExit (Build env npBuilder)
    (fun e => "Failed to create machine pool for hosted cluster '"
              ++ clusterKey env ++ "': " ++ e) ;;
  emit (CallCreateNodePool (clusterID env) nodePool) ;;
  createdNodePool <- orExit (CreateNodePool env (clusterID env) nodePool)
    (fun e => "Failed to add machine pool to hosted cluster '"
              ++ clusterKey env ++ "': " ++ e) ;;
  emit (Infof ("Machine pool '" ++ getID createdNodePool
               ++ "' created successfully on hosted cluster '"
               ++ clusterKey env ++ "'")) ;;
  emit (Infof ("To view all machine pools, run 'rosa list machinepools -c "
               ++ clusterKey env ++ "'")).

(** ** [getNodePoolReplicas] and [editNodePool] *)

(** The four named results: [autoscaling], [replicas], [minReplicas] and
    [maxReplicas]. *)
Definition getNodePoolReplicas (env : Env) (nodePoolID : string)
    (existingReplicas : Z) (existingAutoscaling : option NodePoolAutoscaling)
    : M (bool * Z * Z * Z) :=
  let isMinReplicasSet := Changed env "min-replicas" in
  let isMaxReplicasSet := Changed env "max-replicas" in
  let isReplicasSet := Changed env "replicas" in
  let isAutoscalingSet := Changed env "enable-autoscaling" in
  let replicas0 := replicas (args env) in
  let minReplicas0 := minReplicas (args env) in
  let maxReplicas0 := maxReplicas (args env) in
  let autoscaling0 := autoscalingEnabled (args env) in
  let existingIsNil :=
    match existingAutoscaling with None => true | Some _ => false end in
  let replicasRequired := existingIsNil in
  when ((isMinReplicasSet || isMaxReplicasSet) && negb autoscaling0 && existingIsNil)
    (emit (Errorf ("Autoscaling is not enabled on machine pool '" ++ nodePoolID
                   ++ "'. can't set min or max replicas")) ;;
     osExit 1) ;;
  autoscaling <-
    (if negb isAutoscalingSet then
       let autoscaling1 := negb existingIsNil in
       if interactiveEnabled env
       then r <- interactiveGetBool env "Enable autoscaling" autoscaling1 ;;
            orExit r (fun e => "Expected a valid value for enable-autoscaling: " ++ e)
       else ret autoscaling1
     else ret autoscaling0) ;;
  if autoscaling : bool then
    minReplicas1 <-
      (if negb isMinReplicasSet && (interactiveEnabled env || negb isMaxReplicasSet)
       then r <- interactiveGetInt env "Min replicas"
                   (getMinReplica existingAutoscaling) replicasRequired ;;
            orExit r (fun e => "Expected a valid number of min replicas: " ++ e)
       else ret minReplicas0) ;;
    maxReplicas1 <-
      (if negb isMaxReplicasSet && (interactiveEnabled env || negb isMinReplicasSet)
       then r <- interactiveGetInt env "Max replicas"
                   (getMaxReplica existingAutoscaling) replicasRequired ;;
            orExit r (fun e => "Expected a valid number of max replicas: " ++ e)
       else ret maxReplicas0) ;;
    ret (autoscaling, replicas0, minReplicas1, maxReplicas1)
  else if interactiveEnabled env || negb isReplicasSet then
    let replicas1 := if negb isReplicasSet then existingReplicas else replicas0 in
    r <- interactiveGetInt env "Replicas" replicas1 true ;;
    replicas2 <- orExit r (fun e => "Expected a valid number of replicas: " ++ e) ;;
    ret (autoscaling, replicas2, minReplicas0, maxReplicas0)
  else ret (autoscaling, replicas0, minReplicas0, maxReplicas0).

Definition editNodePool (env : Env) (nodePoolID : string) : M unit :=
  emit (Debugf ("Loading machine pool for hosted cluster '" ++ clusterKey env ++ "'")) ;;
  emit (CallGetNodePool (clusterID env) nodePoolID) ;;
  nodePool <- orExit (GetNodePool env (clusterID env) nodePoolID)
    (fun e => "Failed to get machine pools for hosted cluster '"
              ++ clusterKey env ++ "': " ++ e) ;;
  '(autoscaling, replicas1, minReplicas1, maxReplicas1) <-
    getNodePoolReplicas env nodePoolID (getReplicas nodePool) (npAutoscaling nodePool) ;;
  when ((negb autoscaling && (replicas1 <? 0))
        || (autoscaling && Changed env "min-replicas" && (minReplicas1 <? 0)))
    (emit (Errorf "The number of machine pool replicas needs to be a non-negative integer") ;;
     osExit 1) ;;
  let npBuilder0 := ID (getID nodePool) NewNodePool in
  let npBuilder :=
    if autoscaling : bool then
      let asBuilder0 := NewNodePoolAutoscaling in
      let asBuilder1 :=
        if 0 <? minReplicas1 then MinReplica minReplicas1 asBuilder0 else asBuilder0 in
      let asBuilder2 :=
        if 0 <? maxReplicas1 then MaxReplica maxReplicas1 asBuilder1 else asBuilder1 in
      Autoscaling asBuilder2 npBuilder0
    else Replicas replicas1 npBuilder0 in
  emit (CallBuild npBuilder) ;;
  nodePool' <- orExit (Build env npBuilder)
    (fun e => "Failed to create machine pool for hosted cluster '"
              ++ clusterKey env ++ "': " ++ e) ;;
  emit (Debugf ("Updating machine pool '" ++ getID nodePool'
                ++ "' on hosted cluster '" ++ clusterKey env ++ "'")) ;;
  emit (CallUpdateNodePool (clusterID env) nodePool') ;;
  _ <- orExit (UpdateNodePool env (clusterID env) nodePool')
    (fun e => "Failed to update machine pool '" ++ getID nodePool'
              ++ "' on hosted cluster '" ++ clusterKey env ++ "': " ++ e) ;;
  emit (Infof ("Updated machine pool '" ++ getID nodePool'
               ++ "' on hosted cluster '" ++ clusterKey env ++ "'")).

(** ** Reading a run *)

Definition trace {A : Type} (m : M A) : list Event := fst m.
Definition outcome {A : Type} (m : M A) : Outcome A := snd m.

(** The exit code of the process: 0 when the command returns. *)
Definition exitCode (m : M unit) : Z :=
  match outcome m with
  | Done _ => 0
  | Exited c => c
  end.

(** A [Build] of a request or a call that sends one to the cluster
    service. *)
Definition isBuildOrSend (e : Event) : bool :=
  match e with
  | CallBuild _ | CallCreateNodePool _ _ | CallUpdateNodePool _ _ => true
  | _ => false
  end.

(** The last reporter line of a rejected command is an error. *)
Definition endsWithError (t : list Event) : Prop :=
  exists evs msg, t = (evs ++ [Errorf msg])%list.

(** The requests a run sent as updates, and the questions it asked. *)
Definition updatesSent (t : list Event) : list NodePoolT :=
  flat_map (fun e => match e with
                     | CallUpdateNodePool _ np => [np]
                     | _ => []
                     end) t.

Definition questions (t : list Event) : list string :=
  flat_map (fun e => match e with
                     | AskBool q _ | AskInt q _ _ => [q]
                     | _ => []
                     end) t.

Definition minBound (np : NodePoolT) : option Z :=
  match npAutoscaling np with Some b => asMinReplica b | None => None end.

Definition maxBound (np : NodePoolT) : option Z :=
  match npAutoscaling np with Some b => asMaxReplica b | None => None end.

(** *** Concrete runs *)

(** A cluster service that accepts every request, a prompter that
    answers with the given numbers, and a builder that never fails. *)
Definition flagsOf (set : list string) (name : string) : bool :=
  existsb (String.eqb name) set.

Definition exampleEnv (a : Args) (set : list string) (interactive : bool)
    (answers : string -> Z) (existing : NodePoolT) : Env :=
  {| args := a;
     Changed := flagsOf set;
     interactiveEnabled := interactive;
     GetBool := fun _ d => Ok d;
     GetInt := fun q _ _ => Ok (answers q);
     clusterKey := "c1";
     clusterID := "id1";
     BuildErr := fun _ => None;
     CreateNodePool := fun _ np => Ok (ID "workers-1" np);
     GetNodePool := fun _ _ => Ok existing;
     UpdateNodePool := fun _ np => Ok np |}.

(** The flags [addNodePool] refuses on a hosted cluster are absent. *)
Definition noUnsupportedFlag (env : Env) : Prop :=
  Changed env "multi-availability-zone" = false /\
  Changed env "availability-zone" = false /\
  Changed env "subnet" = false /\
  Changed env "name" = false.

(** The request [addNodePool] builds for an autoscaled pool. *)
Definition createRequest (minR maxR : Z) : NodePoolT :=
  Autoscaling (MaxReplica maxR (MinReplica minR NewNodePoolAutoscaling)) NewNodePool.

(** The request [editNodePool] builds for an autoscaled pool: a bound is
    part of it only when it is positive. *)
Definition editRequest (id : string) (minR maxR : Z) : NodePoolT :=
  Autoscaling
    (mkAutoscaling (if 0 <? minR then Some minR else None)
                   (if 0 <? maxR then Some maxR else None))
    (ID id NewNodePool).

(** Autoscaling stays or becomes enabled on edit without a prompt: the
    flag asks for it, or the flag is absent and the pool has it. *)
Definition editAutoscaling (env : Env) (pool : NodePoolT) : Prop :=
  (Changed env "enable-autoscaling" = true /\ autoscalingEnabled (args env) = true)
  \/ (Changed env "enable-autoscaling" = false /\ npAutoscaling pool <> None).

(** The requests a run sent to the cluster service, in order. *)
Definition sends (t : list Event) : list Event :=
  filter (fun e => match e with
                   | CallCreateNodePool _ _ | CallUpdateNodePool _ _ => true
                   | _ => false
                   end) t.

(** A request for a pool of fixed size, or for an autoscaled pool. *)
Definition fixedSize (np : NodePoolT) : Prop :=
  npAutoscaling np = None /\ exists n, npReplicas np = Some n.

Definition autoscaled (np : NodePoolT) : Prop :=
  npReplicas np = None /\ npAutoscaling np <> None.

(** A run that stops does so with exit code 1, right after an error
    line, and has sent nothing. *)
Definition rejected (m : M unit) : Prop :=
  outcome m = Exited 1 /\ endsWithError (trace m) /\ sends (trace m) = [].

(** The questions [getNodePoolReplicas] and the commands ask. *)
Definition asksNothing {A : Type} (m : M A) : Prop :=
  questions (trace m) = [].

(** The flags [addNodePool] refuses on a hosted cluster. *)
Definition unsupportedFlags : list string :=
  ["multi-availability-zone"; "availability-zone"; "subnet"; "name"].

(** Whether the pool is autoscaled after the command, when nothing is
    asked: on create the value of the flag; on edit the value of the
    flag when it is given, and else what the pool has. *)
Definition editAutoscalingValue (env : Env) (existing : option NodePoolAutoscaling)
    : bool :=
  if Changed env "enable-autoscaling" then autoscalingEnabled (args env)
  else match existing with Some _ => true | None => false end.

(** The flags give the size: on create both bounds of an autoscaled
    pool or the replicas of a fixed one; on edit one bound or the
    replicas. *)
Definition createFlagsSuffice (env : Env) : Prop :=
  if autoscalingEnabled (args env)
  then Changed env "min-replicas" = true /\ Changed env "max-replicas" = true
  else Changed env "replicas" = true.

Definition editFlagsSuffice (env : Env) (existing : option NodePoolAutoscaling) : Prop :=
  if editAutoscalingValue env existing
  then Changed env "min-replicas" = true \/ Changed env "max-replicas" = true
  else Changed env "replicas" = true.

(** One step of a symbolic run: evaluate, then split on the next answer
    of the surroundings. *)
Ltac eval_run := cbn -[String.append Z.ltb].

Ltac split_oracle :=
  match goal with
  | |- context [GetInt ?env ?q ?d ?r] => destruct (GetInt env q d r) eqn:?
  | |- context [BuildErr ?env ?b] => destruct (BuildErr env b) eqn:?
  | |- context [UpdateNodePool ?env ?c ?b] => destruct (UpdateNodePool env c b) eqn:?
  | |- context [when ?b _] => destruct b eqn:?
  | |- context [if ?b then _ else _] =>
      lazymatch b with
      | Z.ltb _ _ => destruct b eqn:?
      end
  end; eval_run.

(** ** Replicas together with autoscaling *)

(** The create flow refuses [replicas] together with autoscaling: the
    command ends with an error line and exit code 1, and no request is
    built or sent. *)
Lemma addNodePool_rejects_replicas_with_autoscaling (env : Env) :
  Changed env "replicas" = true ->
  autoscalingEnabled (args env) = true ->
  outcome (addNodePool env) = Exited 1 /\
  endsWithError (trace (addNodePool env)) /\
  Forall (fun e => isBuildOrSend e = false) (trace (addNodePool env)).
Proof.
  intros Hrep Hauto. unfold addNodePool.
  destruct (Changed env "multi-availability-zone");
    [cbn; repeat split; [eexists [], _; reflexivity | repeat constructor]|].
  destruct (Changed env "availability-zone");
    [cbn; repeat split; [eexists [], _; reflexivity | repeat constructor]|].
  destruct (Changed env "subnet");
    [cbn; repeat split; [eexists [], _; reflexivity | repeat constructor]|].
  destruct (Changed env "name");
    [cbn; repeat split; [eexists [], _; reflexivity | repeat constructor]|].
  rewrite Hrep, Hauto. cbn.
  repeat split; [eexists [], _; reflexivity | repeat constructor].
Qed.

(** C2, at the failing input.  The edit flow has no such test: with
    [--replicas 3 --enable-autoscaling --min-replicas 1 --max-replicas 3]
    on a pool of two fixed replicas it builds the autoscaling request,
    sends it, and the command ends with exit code 0; the replica count
    is dropped without a word. *)
Theorem editNodePool_replicas_with_autoscaling_not_rejected :
  let env := exampleEnv (mkArgs 3 true 1 3)
               ["replicas"; "enable-autoscaling"; "min-replicas"; "max-replicas"]
               false (fun _ => 0) (Replicas 2 (ID "workers" NewNodePool)) in
  Changed env "replicas" = true /\
  autoscalingEnabled (args env) = true /\
  exitCode (editNodePool env "workers") = 0 /\
  In (CallUpdateNodePool "id1" (editRequest "workers" 1 3))
     (trace (editNodePool env "workers")).
Proof. cbn. repeat split. right; right; right; right; left. reflexivity. Qed.

(** ** Bounds given by flag are not compared *)

(** C3 as stated fails.  In both flows [--min-replicas 5 --max-replicas 2]
    with autoscaling enabled is built and sent as it is, and the command
    ends with exit code 0. *)
Lemma min_above_max_not_rejected :
  let create := exampleEnv (mkArgs 0 true 5 2)
                  ["enable-autoscaling"; "min-replicas"; "max-replicas"]
                  false (fun _ => 0) NewNodePool in
  let edit := exampleEnv (mkArgs 0 true 5 2)
                ["enable-autoscaling"; "min-replicas"; "max-replicas"]
                false (fun _ => 0) (Replicas 2 (ID "workers" NewNodePool)) in
  (Changed create "min-replicas" = true /\ Changed create "max-replicas" = true /\
   maxReplicas (args create) < minReplicas (args create)) /\
  (exitCode (addNodePool create) = 0 /\
   In (CallCreateNodePool "id1" (createRequest 5 2)) (trace (addNodePool create))) /\
  (exitCode (editNodePool edit "workers") = 0 /\
   In (CallUpdateNodePool "id1" (editRequest "workers" 5 2))
      (trace (editNodePool edit "workers"))).
Proof.
  cbn. repeat split.
  - right; left. reflexivity.
  - right; right; right; right; left. reflexivity.
Qed.

(** C3, amended.  In non-interactive mode, with both [min-replicas] and
    [max-replicas] given by flag and autoscaling enabled, neither flow
    compares the two bounds.  The create flow (no refused flag, no
    [replicas]) builds the request with exactly the given bounds and
    sends it; the edit flow (pool found, minimum not negative) builds the
    request with each bound that is positive and sends it.  Nothing in
    this depends on the order of the two bounds. *)
Theorem min_max_bounds_sent_unchecked (env : Env) (id : string) (pool : NodePoolT) :
  interactiveEnabled env = false ->
  Changed env "min-replicas" = true ->
  Changed env "max-replicas" = true ->
  let minR := minReplicas (args env) in
  let maxR := maxReplicas (args env) in
  (noUnsupportedFlag env ->
   autoscalingEnabled (args env) = true ->
   Changed env "replicas" = false ->
   BuildErr env (createRequest minR maxR) = None ->
   exists rest,
     trace (addNodePool env) =
       CallBuild (createRequest minR maxR)
       :: CallCreateNodePool (clusterID env) (createRequest minR maxR) :: rest)
  /\
  (GetNodePool env (clusterID env) id = Ok pool ->
   editAutoscaling env pool ->
   0 <= minR ->
   BuildErr env (editRequest (getID pool) minR maxR) = None ->
   exists d1 d2 rest,
     trace (editNodePool env id) =
       Debugf d1 :: CallGetNodePool (clusterID env) id
       :: CallBuild (editRequest (getID pool) minR maxR)
       :: Debugf d2
       :: CallUpdateNodePool (clusterID env) (editRequest (getID pool) minR maxR)
       :: rest).
Proof.
  intros Hni Hmin Hmax minR maxR. split.
  - intros (Hmaz & Haz & Hsub & Hname) Hauto Hrep Hbuild.
    unfold addNodePool, Build.
    rewrite Hmaz, Haz, Hsub, Hname, Hrep, Hauto, Hni, Hmin, Hmax.
    cbn -[String.append]. fold minR maxR. fold (createRequest minR maxR).
    rewrite Hbuild. cbn -[String.append].
    destruct (CreateNodePool env (clusterID env) _); cbn -[String.append]; eauto.
  - intros Hget Hauto Hnonneg Hbuild.
    assert (Hneg : (minR <? 0) = false) by (apply Z.ltb_ge; exact Hnonneg).
    unfold editNodePool, getNodePoolReplicas, Build.
    rewrite Hget, Hni, Hmin, Hmax. cbn -[String.append].
    assert (Hreq :
      Autoscaling
        (if 0 <? maxR
         then MaxReplica maxR
                (if 0 <? minR then MinReplica minR NewNodePoolAutoscaling
                 else NewNodePoolAutoscaling)
         else if 0 <? minR then MinReplica minR NewNodePoolAutoscaling
              else NewNodePoolAutoscaling)
        (ID (getID pool) NewNodePool)
      = editRequest (getID pool) minR maxR).
    { unfold editRequest. destruct (0 <? maxR), (0 <? minR); reflexivity. }
    destruct Hauto as [[Hset Hon] | [Hset Hex]].
    + rewrite Hset, Hon. cbn -[String.append]. fold minR maxR. rewrite Hneg.
      cbn -[String.append]. rewrite Hreq, Hbuild. cbn -[String.append].
      destruct (UpdateNodePool env (clusterID env) _); cbn -[String.append]; eauto.
    + rewrite Hset. destruct (npAutoscaling pool) as [a|]; [|congruence].
      cbn -[String.append]. rewrite Bool.andb_false_r.
      cbn -[String.append]. fold minR maxR. rewrite Hneg.
      cbn -[String.append]. rewrite Hreq, Hbuild. cbn -[String.append].
      destruct (UpdateNodePool env (clusterID env) _); cbn -[String.append]; eauto.
Qed.

Lemma min_max_bounds_sent_unchecked_witness :
  let env := exampleEnv (mkArgs 0 true 5 2)
               ["enable-autoscaling"; "min-replicas"; "max-replicas"]
               false (fun _ => 0) (Replicas 2 (ID "workers" NewNodePool)) in
  (exists rest,
     trace (addNodePool env) =
       CallBuild (createRequest 5 2)
       :: CallCreateNodePool "id1" (createRequest 5 2) :: rest) /\
  (exists d1 d2 rest,
     trace (editNodePool env "workers") =
       Debugf d1 :: CallGetNodePool "id1" "workers"
       :: CallBuild (editRequest "workers" 5 2)
       :: Debugf d2
       :: CallUpdateNodePool "id1" (editRequest "workers" 5 2)
       :: rest).
Proof.
  intro env.
  destruct (min_max_bounds_sent_unchecked env "workers"
              (Replicas 2 (ID "workers" NewNodePool))
              eq_refl eq_refl eq_refl) as [Hcreate Hedit].
  split.
  - apply Hcreate; try reflexivity. repeat split.
  - apply Hedit; try reflexivity.
    + left. split; reflexivity.
    + cbn. lia.
Defined.

(** ** Bounds that no flag gives, on edit *)

(** C8 as stated fails.  Editing an autoscaled pool (2 to 5 replicas)
    without any flag, in non-interactive mode, asks for both bounds; the
    answers 3 and 6 are sent, so the bounds no flag touched are neither
    left out of the request nor kept. *)
Lemma edit_unset_bounds_prompted_and_sent :
  let pool := Autoscaling (mkAutoscaling (Some 2) (Some 5)) (ID "workers" NewNodePool) in
  let answers := fun q => if String.eqb q "Min replicas" then 3 else 6 in
  let env := exampleEnv (mkArgs 0 false 0 0) [] false answers pool in
  interactiveEnabled env = false /\
  Changed env "min-replicas" = false /\ Changed env "max-replicas" = false /\
  questions (trace (editNodePool env "workers")) = ["Min replicas"; "Max replicas"] /\
  updatesSent (trace (editNodePool env "workers")) = [editRequest "workers" 3 6] /\
  minBound (editRequest "workers" 3 6) = Some 3 /\
  maxBound (editRequest "workers" 3 6) = Some 6.
Proof. cbn. repeat split. Qed.

(** C8, amended.  On edit of an autoscaled pool in non-interactive mode,
    with autoscaling left enabled: when exactly one of [min-replicas] and
    [max-replicas] is given by flag and the variable of the other holds a
    default that is not positive, nothing is asked and every update sent
    leaves the other bound out; when neither is given, both bounds are
    asked for, the pool's values being the defaults, and an update sent
    carries the answers (each when positive). *)
Theorem editNodePool_unset_bound (env : Env) (id : string) (pool : NodePoolT)
    (a : NodePoolAutoscaling) :
  GetNodePool env (clusterID env) id = Ok pool ->
  npAutoscaling pool = Some a ->
  interactiveEnabled env = false ->
  (Changed env "enable-autoscaling" = false \/ autoscalingEnabled (args env) = true) ->
  let t := trace (editNodePool env id) in
  (Changed env "min-replicas" = true -> Changed env "max-replicas" = false ->
   maxReplicas (args env) <= 0 ->
   questions t = [] /\ forall np, In np (updatesSent t) -> maxBound np = None)
  /\
  (Changed env "min-replicas" = false -> Changed env "max-replicas" = true ->
   minReplicas (args env) <= 0 ->
   questions t = [] /\ forall np, In np (updatesSent t) -> minBound np = None)
  /\
  (Changed env "min-replicas" = false -> Changed env "max-replicas" = false ->
   (exists d rest,
      t = Debugf d :: CallGetNodePool (clusterID env) id
          :: AskInt "Min replicas" (getMinReplica (Some a)) false :: rest) /\
   forall minR maxR,
     GetInt env "Min replicas" (getMinReplica (Some a)) false = Ok minR ->
     GetInt env "Max replicas" (getMaxReplica (Some a)) false = Ok maxR ->
     questions t = ["Min replicas"; "Max replicas"] /\
     forall np, In np (updatesSent t) -> np = editRequest (getID pool) minR maxR).
Proof.
  intros Hget Hpool Hni Hauto t.
  assert (Hea : Changed env "enable-autoscaling" = false \/
                (Changed env "enable-autoscaling" = true /\
                 autoscalingEnabled (args env) = true)).
  { destruct (Changed env "enable-autoscaling"); [right|left]; intuition congruence. }
  clear Hauto.
  subst t. unfold editNodePool, getNodePoolReplicas, Build.
  rewrite Hget. eval_run. rewrite Hpool, Hni. eval_run.
  rewrite !Bool.andb_false_r. eval_run.
  split; [|split].
  - intros Hmin Hmax Hdef. rewrite Hmin, Hmax.
    apply Z.ltb_ge in Hdef.
    destruct Hea as [-> | [-> ->]]; eval_run; rewrite Hdef;
      repeat split_oracle; (split; [reflexivity|]);
      intros np Hin; cbn in Hin; intuition (subst; reflexivity).
  - intros Hmin Hmax Hdef. rewrite Hmin, Hmax.
    apply Z.ltb_ge in Hdef.
    destruct Hea as [-> | [-> ->]]; eval_run; rewrite Hdef;
      repeat split_oracle; (split; [reflexivity|]);
      intros np Hin; cbn in Hin; intuition (subst; reflexivity).
  - intros Hmin Hmax. rewrite Hmin, Hmax. split.
    + destruct Hea as [-> | [-> ->]]; eval_run; repeat split_oracle; eauto.
    + intros minR maxR Hgmin Hgmax. cbn [getMinReplica getMaxReplica] in Hgmin, Hgmax.
      destruct Hea as [-> | [-> ->]]; eval_run; rewrite Hgmin; eval_run;
        rewrite Hgmax; eval_run; unfold editRequest;
        repeat split_oracle; (split; [reflexivity|]);
        intros np Hin; cbn in Hin; intuition (subst; reflexivity).
Qed.


Lemma editNodePool_unset_bound_witness :
  let pool := Autoscaling (mkAutoscaling (Some 2) (Some 5)) (ID "workers" NewNodePool) in
  let env := exampleEnv (mkArgs 0 false 4 0) ["min-replicas"] false (fun _ => 0) pool in
  questions (trace (editNodePool env "workers")) = [] /\
  updatesSent (trace (editNodePool env "workers")) = [editRequest "workers" 4 0] /\
  maxBound (editRequest "workers" 4 0) = None.
Proof.
  intros pool env.
  destruct (proj1 (editNodePool_unset_bound env "workers" pool
                     (mkAutoscaling (Some 2) (Some 5))
                     eq_refl eq_refl eq_refl (or_introl eq_refl)))
    as [Hq Hsent]; [reflexivity | reflexivity | cbn; lia |].
  split; [exact Hq | split; [reflexivity|]].
  apply Hsent. left. reflexivity.
Defined.

(** ** How the commands end *)

Lemma endsWithError_cons (e : Event) (t : list Event) :
  endsWithError t -> endsWithError (e :: t).
Proof. intros (evs & msg & ->). exists (e :: evs), msg. reflexivity. Qed.

Lemma endsWithError_one (msg : string) : endsWithError [Errorf msg].
Proof. exists [], msg. reflexivity. Qed.

Lemma endsWithError_app (t t' : list Event) :
  endsWithError t' -> endsWithError (t ++ t').
Proof.
  intros (evs & msg & ->). exists (t ++ evs)%list, msg.
  now rewrite app_assoc.
Qed.

Lemma sends_app (t t' : list Event) : sends (t ++ t') = (sends t ++ sends t')%list.
Proof. apply filter_app. Qed.

Lemma questions_app (t t' : list Event) :
  questions (t ++ t') = (questions t ++ questions t')%list.
Proof. apply flat_map_app. Qed.

Ltac ends_with_error :=
  first [apply endsWithError_one | apply endsWithError_cons; ends_with_error].

(** What [bind] does to the trace and the outcome. *)
Lemma bind_Done {A B : Type} (m : M A) (f : A -> M B) (a : A) :
  outcome m = Done a ->
  trace (bind m f) = (trace m ++ trace (f a))%list /\
  outcome (bind m f) = outcome (f a).
Proof.
  destruct m as [t o]; cbn. intros ->. destruct (f a); split; reflexivity.
Qed.

Lemma bind_Exited {A B : Type} (m : M A) (f : A -> M B) (c : Z) :
  outcome m = Exited c ->
  trace (bind m f) = trace m /\ outcome (bind m f) = Exited c.
Proof. destruct m as [t o]; cbn. intros ->. split; reflexivity. Qed.

Lemma bind_ret {A B : Type} (a : A) (f : A -> M B) : bind (ret a) f = f a.
Proof. unfold bind, ret. destruct (f a). reflexivity. Qed.

Lemma orExit_Done {A : Type} (r : result A) (msg : error -> string) (a : A) :
  outcome (orExit r msg) = Done a -> r = Ok a.
Proof. destruct r; cbn; congruence. Qed.

Lemma when_Done (cond : bool) (msg : string) (c : Z) (u : unit) :
  outcome (when cond (emit (Errorf msg) ;; osExit c)) = Done u -> cond = false.
Proof. destruct cond; cbn; congruence. Qed.

(** A part of a command that prepares the request: it sends nothing,
    and if it stops, then with exit code 1 right after an error line. *)
Definition prepares {A : Type} (m : M A) : Prop :=
  sends (trace m) = [] /\
  match outcome m with
  | Done _ => True
  | Exited c => c = 1 /\ endsWithError (trace m)
  end.

Lemma prepares_ret {A : Type} (a : A) : prepares (ret a).
Proof. split; constructor. Qed.

Lemma prepares_emit (e : Event) : sends [e] = [] -> prepares (emit e).
Proof. intros H. split; [exact H | constructor]. Qed.

Lemma prepares_fail {A : Type} (msg : string) :
  prepares (emit (Errorf msg) ;; @osExit A 1).
Proof. split; [reflexivity | split; [reflexivity | apply endsWithError_one]]. Qed.

Lemma prepares_orExit {A : Type} (r : result A) (msg : error -> string) :
  prepares (orExit r msg).
Proof. destruct r; [apply prepares_ret | apply prepares_fail]. Qed.

Lemma prepares_when (cond : bool) (msg : string) :
  prepares (when cond (emit (Errorf msg) ;; osExit 1)).
Proof. destruct cond; [apply prepares_fail | apply prepares_ret]. Qed.

Lemma prepares_bind {A B : Type} (m : M A) (f : A -> M B) :
  prepares m -> (forall a, prepares (f a)) -> prepares (bind m f).
Proof.
  intros [Hs Ho] Hf. unfold prepares. destruct (outcome m) as [a|c] eqn:Hm.
  - destruct (bind_Done m f a Hm) as [-> ->]. destruct (Hf a) as [Hs' Ho'].
    split; [now rewrite sends_app, Hs, Hs'|].
    destruct (outcome (f a)); [exact I|].
    destruct Ho' as [-> He]. split; [reflexivity | now apply endsWithError_app].
  - destruct (bind_Exited m f c Hm) as [-> ->]. split; assumption.
Qed.

Ltac prepares_run :=
  repeat (cbv beta zeta;
    lazymatch goal with
    | |- prepares (bind _ _) => apply prepares_bind; [|intros ?]
    | |- prepares (when _ _) => apply prepares_when
    | |- prepares (orExit _ _) => apply prepares_orExit
    | |- prepares (emit _) => apply prepares_emit; reflexivity
    | |- prepares (ret _) => apply prepares_ret
    | |- prepares (interactiveGetBool _ _ _) => unfold interactiveGetBool
    | |- prepares (interactiveGetInt _ _ _ _) => unfold interactiveGetInt
    | |- prepares (if ?b then _ else _) => destruct b
    | |- prepares (match ?x with _ => _ end) => destruct x
    end).

(** A command that, unless it stops before, sends one request [mk np]
    with [R np] and ends as the answer [call np] says. *)
Definition sendsOne (mk : NodePoolT -> Event) (R : NodePoolT -> Prop)
    (call : NodePoolT -> result NodePoolT) (m : M unit) : Prop :=
  rejected m \/
  exists np,
    sends (trace m) = [mk np] /\ R np /\
    match call np with
    | Ok _ => outcome m = Done tt
    | Err _ => outcome m = Exited 1 /\ endsWithError (trace m)
    end.

Lemma sendsOne_bind {A : Type} mk R call (m : M A) (f : A -> M unit) :
  prepares m ->
  (forall a, outcome m = Done a -> sendsOne mk R call (f a)) ->
  sendsOne mk R call (bind m f).
Proof.
  intros [Hs Ho] Hf. destruct (outcome m) as [a|c] eqn:Hm.
  - destruct (bind_Done m f a Hm) as [Ht Hout].
    destruct (Hf a eq_refl) as [(Hx & He & Hn) | (np & Hn & Hr & Hend)].
    + left. unfold rejected. rewrite Ht, Hout, sends_app, Hs, Hn.
      split; [assumption | split; [now apply endsWithError_app | reflexivity]].
    + right. exists np. rewrite Ht, Hout, sends_app, Hs, Hn.
      split; [reflexivity | split; [assumption|]].
      destruct (call np); [assumption|].
      destruct Hend as [-> He]. split; [reflexivity | now apply endsWithError_app].
  - destruct (bind_Exited m f c Hm) as [Ht Hout]. destruct Ho as [-> He].
    left. unfold rejected. rewrite Ht, Hout. repeat split; assumption.
Qed.

Lemma Build_Ok (env : Env) (b np : NodePoolT) :
  Build env b = Ok np -> BuildErr env b = None /\ np = b.
Proof. unfold Build. destruct (BuildErr env b); [discriminate|]. now intros [= ->]. Qed.

(** The end of both commands: send, report. *)
Lemma sendsOne_send mk (R : NodePoolT -> Prop) call (np : NodePoolT)
    (refused : error -> string) (after : NodePoolT -> M unit) :
  sends [mk np] = [mk np] ->
  (forall sent, prepares (after sent)) ->
  (forall sent, outcome (after sent) = Done tt) ->
  R np ->
  sendsOne mk R call
    (emit (mk np) ;; sent <- orExit (call np) refused ;; after sent).
Proof.
  intros Hmk Hafter Hdone HR. right. exists np.
  assert (Hemit : outcome (emit (mk np)) = Done tt) by reflexivity.
  destruct (bind_Done (emit (mk np))
              (fun _ => sent <- orExit (call np) refused ;; after sent) tt Hemit)
    as [-> ->].
  cbv beta. change (trace (emit (mk np))) with [mk np]. rewrite sends_app, Hmk.
  destruct (call np) as [sent|e].
  - assert (Hok : outcome (orExit (Ok sent) refused) = Done sent) by reflexivity.
    destruct (bind_Done _ (fun s => after s) sent Hok) as [-> ->].
    change (trace (orExit (Ok sent) refused)) with (@nil Event). cbn [app].
    destruct (Hafter sent) as [-> _].
    split; [reflexivity | split; [assumption | apply Hdone]].
  - cbn. split; [reflexivity | split; [assumption|]].
    split; [reflexivity | apply endsWithError_cons, endsWithError_one].
Qed.

(** [addNodePool] either stops with exit code 1 right after an error
    line, having sent nothing; or it sends exactly one create request,
    to the cluster of the command, which the builder accepted, without
    an ID, and for a pool of fixed size or an autoscaled pool with both
    bounds.  It returns exactly when the cluster service accepts that
    request, and otherwise exits with code 1 after an error line. *)
Theorem addNodePool_outcome (env : Env) :
  let m := addNodePool env in
  rejected m \/
  exists np,
    sends (trace m) = [CallCreateNodePool (clusterID env) np] /\
    (BuildErr env np = None /\
     npID np = None /\
     (fixedSize np \/
      (npReplicas np = None /\
       exists lo hi, npAutoscaling np = Some (mkAutoscaling (Some lo) (Some hi))))) /\
    match CreateNodePool env (clusterID env) np with
    | Ok _ => outcome m = Done tt
    | Err _ => outcome m = Exited 1 /\ endsWithError (trace m)
    end.
Proof.
  cbv zeta.
  change (sendsOne (CallCreateNodePool (clusterID env))
            (fun np => BuildErr env np = None /\ npID np = None /\
               (fixedSize np \/
                (npReplicas np = None /\
                 exists lo hi,
                   npAutoscaling np = Some (mkAutoscaling (Some lo) (Some hi)))))
            (CreateNodePool env (clusterID env)) (addNodePool env)).
  unfold addNodePool.
  do 4 (apply sendsOne_bind; [prepares_run | intros _ _]).
  cbv zeta.
  apply sendsOne_bind; [prepares_run | intros autoscaling _].
  apply sendsOne_bind; [prepares_run | intros [[minR maxR] n] _].
  apply sendsOne_bind; [prepares_run | intros _ _].
  apply sendsOne_bind; [prepares_run | intros np Hnp].
  apply orExit_Done, Build_Ok in Hnp. destruct Hnp as [Hbuild ->].
  apply sendsOne_send.
  - reflexivity.
  - intros sent. prepares_run.
  - reflexivity.
  - split; [assumption|].
    destruct autoscaling; (split; [reflexivity|]).
    + right. split; [reflexivity | eexists _, _; reflexivity].
    + left. split; [reflexivity | eexists; reflexivity].
Qed.

(** [editNodePool] either stops with exit code 1 right after an error
    line, having sent nothing; or it has found the pool and sends
    exactly one update request, to the cluster of the command, which
    the builder accepted and which carries the ID of the pool found.
    The request is for a fixed number of replicas that is not negative,
    or for autoscaling with each bound it carries positive.  The command
    returns exactly when the cluster service accepts that request, and
    otherwise exits with code 1 after an error line. *)
Theorem editNodePool_outcome (env : Env) (id : string) :
  let m := editNodePool env id in
  rejected m \/
  exists np,
    sends (trace m) = [CallUpdateNodePool (clusterID env) np] /\
    (exists pool,
       GetNodePool env (clusterID env) id = Ok pool /\
       BuildErr env np = None /\
       npID np = Some (getID pool) /\
       ((npAutoscaling np = None /\ exists n, npReplicas np = Some n /\ 0 <= n) \/
        (npReplicas np = None /\
         exists a, npAutoscaling np = Some a /\
                   (forall v, asMinReplica a = Some v -> 0 < v) /\
                   (forall v, asMaxReplica a = Some v -> 0 < v)))) /\
    match UpdateNodePool env (clusterID env) np with
    | Ok _ => outcome m = Done tt
    | Err _ => outcome m = Exited 1 /\ endsWithError (trace m)
    end.
Proof.
  cbv zeta.
  change (sendsOne (CallUpdateNodePool (clusterID env))
            (fun np => exists pool,
               GetNodePool env (clusterID env) id = Ok pool /\
               BuildErr env np = None /\
               npID np = Some (getID pool) /\
               ((npAutoscaling np = None /\
                 exists n, npReplicas np = Some n /\ 0 <= n) \/
                (npReplicas np = None /\
                 exists a, npAutoscaling np = Some a /\
                           (forall v, asMinReplica a = Some v -> 0 < v) /\
                           (forall v, asMaxReplica a = Some v -> 0 < v))))
            (UpdateNodePool env (clusterID env)) (editNodePool env id)).
  unfold editNodePool.
  do 2 (apply sendsOne_bind; [prepares_run | intros _ _]).
  apply sendsOne_bind; [prepares_run | intros pool Hpool].
  apply orExit_Done in Hpool.
  apply sendsOne_bind;
    [unfold getNodePoolReplicas; prepares_run
    | intros [[[autoscaling n] minR] maxR] _].
  apply sendsOne_bind; [prepares_run | intros u Hguard].
  apply when_Done in Hguard. cbv zeta.
  apply sendsOne_bind; [prepares_run | intros _ _].
  apply sendsOne_bind; [prepares_run | intros np Hnp].
  apply orExit_Done, Build_Ok in Hnp. destruct Hnp as [Hbuild ->].
  apply sendsOne_bind; [prepares_run | intros _ _].
  apply sendsOne_send.
  - reflexivity.
  - intros sent. prepares_run.
  - reflexivity.
  - exists pool. split; [assumption | split; [assumption|]].
    destruct autoscaling.
    + split; [reflexivity|]. right. split; [reflexivity|].
      eexists. split; [reflexivity|].
      destruct (0 <? minR) eqn:Hmin, (0 <? maxR) eqn:Hmax; cbn;
        split; intros v Hv; try discriminate; injection Hv as <-;
        now apply Z.ltb_lt.
    + split; [reflexivity|]. left. split; [reflexivity|].
      exists n. split; [reflexivity|].
      cbn in Hguard. rewrite Bool.orb_false_r in Hguard.
      now apply Z.ltb_ge.
Qed.

(** ** What the commands refuse *)

(** On a hosted cluster, any of the flags [multi-availability-zone],
    [availability-zone], [subnet] and [name] makes [addNodePool] stop at
    once: the whole run is one error line and exit code 1; nothing is
    asked, built or sent. *)
Theorem addNodePool_unsupported_flag (env : Env) (flag : string) :
  In flag unsupportedFlags ->
  Changed env flag = true ->
  exists msg, addNodePool env = ([Errorf msg], Exited 1).
Proof.
  intros Hin Hset. unfold addNodePool.
  destruct (Changed env "multi-availability-zone") eqn:H1; [eexists; reflexivity|].
  destruct (Changed env "availability-zone") eqn:H2; [eexists; reflexivity|].
  destruct (Changed env "subnet") eqn:H3; [eexists; reflexivity|].
  destruct (Changed env "name") eqn:H4; [eexists; reflexivity|].
  cbn in Hin. intuition (subst; congruence).
Qed.

(** A bound given by flag without autoscaling is refused.  On create,
    when autoscaling is off and is not asked for (a [replicas] or
    [enable-autoscaling] flag is given, or the mode is not interactive),
    the run is one error line and exit code 1.  On edit of a pool that
    has no autoscaling, with the [enable-autoscaling] variable off, the
    command stops right after loading the pool, before it asks anything,
    also in interactive mode. *)
Theorem bounds_without_autoscaling_refused (env : Env) :
  Changed env "min-replicas" = true \/ Changed env "max-replicas" = true ->
  autoscalingEnabled (args env) = false ->
  (noUnsupportedFlag env ->
   Changed env "replicas" = true \/ Changed env "enable-autoscaling" = true
     \/ interactiveEnabled env = false ->
   addNodePool env =
     ([Errorf "Autoscaling must be enabled in order to set min and max replicas"],
      Exited 1))
  /\
  (forall id pool,
     GetNodePool env (clusterID env) id = Ok pool ->
     npAutoscaling pool = None ->
     exists d,
       editNodePool env id =
         ([Debugf d; CallGetNodePool (clusterID env) id;
           Errorf ("Autoscaling is not enabled on machine pool '" ++ id
                   ++ "'. can't set min or max replicas")],
          Exited 1)).
Proof.
  intros Hbound Hauto. split.
  - intros (Hmaz & Haz & Hsub & Hname) Hno.
    unfold addNodePool. rewrite Hmaz, Haz, Hsub, Hname, Hauto.
    assert (Hask : negb (Changed env "replicas") && negb false
                   && negb (Changed env "enable-autoscaling")
                   && interactiveEnabled env = false).
    { destruct Hno as [-> | [-> | ->]]; cbn;
        rewrite ?Bool.andb_false_r; reflexivity. }
    cbv zeta. rewrite Hask.
    assert (Hor : Changed env "min-replicas" || Changed env "max-replicas" = true).
    { destruct Hbound as [-> | ->]; [reflexivity | apply Bool.orb_true_r]. }
    rewrite Hor. reflexivity.
  - intros id pool Hget Hnil.
    assert (Hor : Changed env "min-replicas" || Changed env "max-replicas" = true).
    { destruct Hbound as [-> | ->]; [reflexivity | apply Bool.orb_true_r]. }
    unfold editNodePool, getNodePoolReplicas. rewrite Hget. eval_run.
    rewrite Hnil, Hauto, Hor. eval_run. eexists. reflexivity.
Qed.

(** ** When nothing is asked *)

Lemma asksNothing_bind {A B : Type} (m : M A) (f : A -> M B) :
  asksNothing m -> (forall a, asksNothing (f a)) -> asksNothing (bind m f).
Proof.
  unfold asksNothing. intros Hm Hf. destruct (outcome m) as [a|c] eqn:Ho.
  - destruct (bind_Done m f a Ho) as [-> _]. now rewrite questions_app, Hm, Hf.
  - destruct (bind_Exited m f c Ho) as [-> _]. assumption.
Qed.

Lemma asksNothing_orExit {A : Type} (r : result A) (msg : error -> string) :
  asksNothing (orExit r msg).
Proof. destruct r; reflexivity. Qed.

Lemma asksNothing_when (cond : bool) (msg : string) (c : Z) :
  asksNothing (when cond (emit (Errorf msg) ;; osExit c)).
Proof. destruct cond; reflexivity. Qed.

Ltac asks_run :=
  repeat (cbv beta zeta; cbn [negb orb andb];
    lazymatch goal with
    | |- asksNothing (bind _ _) => apply asksNothing_bind; [|intros ?]
    | |- asksNothing (when _ _) => apply asksNothing_when
    | |- asksNothing (orExit _ _) => apply asksNothing_orExit
    | |- asksNothing (emit _) => reflexivity
    | |- asksNothing (ret _) => reflexivity
    | |- asksNothing (if ?b then _ else _) => destruct b
    | |- asksNothing (match ?x with _ => _ end) => destruct x
    end).

Lemma getNodePoolReplicas_asksNothing (env : Env) (id : string) (n : Z)
    (existing : option NodePoolAutoscaling) :
  interactiveEnabled env = false ->
  editFlagsSuffice env existing ->
  asksNothing (getNodePoolReplicas env id n existing).
Proof.
  unfold editFlagsSuffice, editAutoscalingValue, getNodePoolReplicas.
  intros -> Hflags.
  destruct (Changed env "enable-autoscaling"), (autoscalingEnabled (args env)),
    existing as [a|];
    cbn in Hflags |- *;
    try (destruct Hflags as [-> | ->]);
    try rewrite Hflags;
    destruct (Changed env "min-replicas"), (Changed env "max-replicas");
    reflexivity.
Qed.

(** With interactive mode off, neither command asks anything when the
    flags give the size: on create, both bounds for an autoscaled pool
    and the replicas for a fixed one; on edit, at least one bound when
    the pool is autoscaled afterwards and the replicas when it is not. *)
Theorem no_question_when_flags_suffice (env : Env) (id : string) :
  interactiveEnabled env = false ->
  (createFlagsSuffice env -> asksNothing (addNodePool env)) /\
  ((forall pool, GetNodePool env (clusterID env) id = Ok pool ->
                 editFlagsSuffice env (npAutoscaling pool)) ->
   asksNothing (editNodePool env id)).
Proof.
  intros Hni. split.
  - unfold createFlagsSuffice, addNodePool. intros Hflags. rewrite Hni.
    do 4 (apply asksNothing_bind; [asks_run | intros _]). cbv zeta.
    rewrite !Bool.andb_false_r. cbv iota. rewrite bind_ret.
    destruct (autoscalingEnabled (args env)).
    + destruct Hflags as [-> ->]. asks_run.
    + rewrite Hflags. asks_run.
  - intros Hflags. unfold editNodePool.
    do 2 (apply asksNothing_bind; [asks_run | intros _]).
    destruct (GetNodePool env (clusterID env) id) as [pool|e] eqn:Hget;
      [|reflexivity].
    cbn [orExit]. rewrite bind_ret.
    apply asksNothing_bind;
      [apply getNodePoolReplicas_asksNothing; auto | intros ?].
    asks_run.
Qed.

(** *** The theorems at concrete runs *)

Lemma addNodePool_rejects_replicas_with_autoscaling_witness :
  let env := exampleEnv (mkArgs 3 true 1 3) ["replicas"; "enable-autoscaling"]
               false (fun _ => 0) NewNodePool in
  outcome (addNodePool env) = Exited 1 /\
  endsWithError (trace (addNodePool env)) /\
  Forall (fun e => isBuildOrSend e = false) (trace (addNodePool env)).
Proof.
  intro env.
  apply (addNodePool_rejects_replicas_with_autoscaling env); reflexivity.
Defined.

Lemma addNodePool_unsupported_flag_witness :
  exists msg,
    addNodePool (exampleEnv (mkArgs 2 false 0 0) ["subnet"; "replicas"]
                   false (fun _ => 0) NewNodePool)
    = ([Errorf msg], Exited 1).
Proof.
  apply (addNodePool_unsupported_flag _ "subnet").
  - right; right; left. reflexivity.
  - reflexivity.
Defined.

Lemma bounds_without_autoscaling_refused_witness :
  let env := exampleEnv (mkArgs 0 false 3 0) ["min-replicas"] false (fun _ => 0)
               (Replicas 2 (ID "workers" NewNodePool)) in
  addNodePool env =
    ([Errorf "Autoscaling must be enabled in order to set min and max replicas"],
     Exited 1) /\
  exists d,
    editNodePool env "workers" =
      ([Debugf d; CallGetNodePool "id1" "workers";
        Errorf "Autoscaling is not enabled on machine pool 'workers'. can't set min or max replicas"],
       Exited 1).
Proof.
  intro env.
  destruct (bounds_without_autoscaling_refused env (or_introl eq_refl) eq_refl)
    as [Hcreate Hedit].
  split.
  - apply Hcreate; [repeat split | right; right; reflexivity].
  - apply (Hedit "workers" (Replicas 2 (ID "workers" NewNodePool))); reflexivity.
Defined.

Lemma no_question_when_flags_suffice_witness :
  let env := exampleEnv (mkArgs 3 false 0 0) ["replicas"] false (fun _ => 0)
               (Replicas 2 (ID "workers" NewNodePool)) in
  asksNothing (addNodePool env) /\ asksNothing (editNodePool env "workers").
Proof.
  intro env.
  destruct (no_question_when_flags_suffice env "workers" eq_refl) as [Hcreate Hedit].
  split.
  - apply Hcreate. reflexivity.
  - apply Hedit. intros pool [= <-]. reflexivity.
Defined.

End NodePool.

(** * [rosa upgrade operator-roles] *)

Module OperatorRoles.
Import GoString.

Local Open Scope Z_scope.

(** ** Values *)

(** The two modes, [aws.ModeAuto] and [aws.ModeManual]: the tool applies
    the changes itself, or prints the commands for the operator to run. *)
Definition ModeAuto : string := "auto".
Definition ModeManual : string := "manual".
Definition Modes : string := "[auto manual]".

(** [cmv1.STSOperator]: an operator of the cluster that needs an IAM
    role. *)
Record STSOperator : Type := mkOperator {
  opName : string;
  opNamespace : string
}.

(** A Go [map[string]*cmv1.STSOperator] as [range] visits it: the
    entries in the order of the visit.  Go leaves that order open; every
    order of the entries is a possible run.  The loops below take the
    map they range over as such a list, so the lemmas about them hold
    for every order of every visit. *)
Definition OperatorMap : Type := list (string * STSOperator).

(** [map[string]string], for the policies and the tags. *)
Definition StringMap : Type := list (string * string).

(** ** The surroundings of a run *)

(** What one run reads from outside: flags, the cluster as fetched, and
    the answers of the cluster service, the cloud account and the
    terminal.  The functions of this record are the calls the command
    makes into packages that are not part of the modelled file. *)
Record Env : Type := mkEnv {
  upgradeVersion : string;
  modeChanged : bool;
  isTerminal : bool;
  accountID : string;
  clusterKey : string;
  clusterID : string;
  clusterVersionID : string;
  clusterRawID : string;
  clusterRoleARN : string;
  clusterHypershift : bool;
  GetOperatorIAMRoles : list string * bool;
  GetMode : result string;
  GetDefaultVersion : result string;
  GetAvailableUpgrades : string -> result (list string);
  GetPrefixFromInstallerAccountRole : string * option error;
  GetPathFromAccountRole : result string;
  IsUpgradedNeededForAccountRolePolicies : string -> string -> result bool;
  GetCredRequests : bool -> result OperatorMap;
  IsUpgradedNeededForOperatorRolePoliciesUsingPrefix :
    string -> string -> string -> OperatorMap -> string -> result bool;
  FindMissingOperatorRolesForUpgrade : string -> result OperatorMap;
  GetPolicies : string -> result StringMap;
  GetEnv : result string;
  GetOption : result string;
  confirmAnswer : nat -> bool;
  GetOperatorRoleName : STSOperator -> string;
  CheckRoleExistsErr : string -> option error;
  GeneratePolicyFiles : option error;
  BuildOperatorRoleCommands : string;
  BuildMissingOperatorRoleCommand : OperatorMap -> result string;
  UpgradeOperatorRolePolicies : option error;
  GetOperatorPolicyARN : string -> string -> string -> string -> string -> string;
  GenerateOperatorRolePolicyDoc : STSOperator -> result string;
  EnsureRole : string -> result string;
  AttachRolePolicy : string -> string -> option error
}.

(** What a run does that can be observed. *)
Inductive Event : Type :=
| Errorf (msg : string)
| Warnf (msg : string)
| Infof (msg : string)
| Debugf (msg : string)
| Println (text : string)
| ConfirmPrompt (question : string)
| AskMode
| Spinner (msg : string)
| CallGeneratePolicyFiles
| CallCheckRoleExists (roleName : string) (found : bool)
| CallLogEvent (key : string)
| CallUpgradeOperatorRolePolicies (prefix version : string)
| CallEnsureRole (roleName : string)
| CallAttachRolePolicy (roleName policyARN : string).

(** What changes while the command runs: the IAM roles of the cloud
    account, the number of confirmations asked so far, the interactive
    switch of the tool, and the events so far. *)
Record World : Type := mkWorld {
  roles : list string;
  asked : nat;
  interactive : bool;
  trace : list Event
}.

Inductive Outcome (A : Type) : Type :=
| Done (a : A)
| Exited (code : Z).
Arguments Done {A} a.
Arguments Exited {A} code.

(** A piece of the command: from a world to the world after it and the
    way it ended. *)
Definition M (A : Type) : Type := World -> World * Outcome A.

Definition ret {A : Type} (a : A) : M A := fun w => (w, Done a).

Definition bind {A B : Type} (m : M A) (f : A -> M B) : M B :=
  fun w => match m w with
           | (w', Done a) => f a w'
           | (w', Exited c) => (w', Exited c)
           end.

Definition emit (e : Event) : M unit :=
  fun w => (mkWorld (roles w) (asked w) (interactive w) (trace w ++ [e])%list,
            Done tt).

Definition osExit {A : Type} (code : Z) : M A := fun w => (w, Exited code).

Notation "x <- m ;; k" := (bind m (fun x => k))
  (at level 61, m at next level, right associativity).
Notation "' pat <- m ;; k" := (bind m (fun x => match x with pat => k end))
  (at level 61, pat pattern, m at next level, right associativity).
Notation "m ;; k" := (bind m (fun _ => k))
  (at level 61, right associativity).

Definition when (cond : bool) (body : M unit) : M unit :=
  if cond then body else ret tt.

(** [if err != nil { r.Reporter.Errorf(...); os.Exit(1) }]. *)
Definition orExit {A : Type} (r : result A) (msg : error -> string) : M A :=
  match r with
  | Ok a => ret a
  | Err e => emit (Errorf (msg e)) ;; osExit 1
  end.

(** [r.Reporter.Errorf] prints the message and returns it as an error. *)
Definition reporterErrorf (msg : string) : M (option error) :=
  emit (Errorf msg) ;; ret (Some msg).

Definition interactiveEnabled : M bool := fun w => (w, Done (interactive w)).

Definition interactiveEnable : M unit :=
  fun w => (mkWorld (roles w) (asked w) true (trace w), Done tt).

(** [confirm.Prompt(true, question)]: the next answer of the terminal. *)
Definition confirmPrompt (env : Env) (question : string) : M bool :=
  fun w => (mkWorld (roles w) (S (asked w)) (interactive w)
                    (trace w ++ [ConfirmPrompt question])%list,
            Done (confirmAnswer env (asked w))).

(** [r.AWSClient.CheckRoleExists(roleName)]: whether the account has the
    role, unless the call fails. *)
Definition CheckRoleExists (env : Env) (roleName : string) : M (result bool) :=
  fun w =>
    match CheckRoleExistsErr env roleName with
    | Some e => (w, Done (Err e))
    | None =>
        let found := existsb (String.eqb roleName) (roles w) in
        (mkWorld (roles w) (asked w) (interactive w)
                 (trace w ++ [CallCheckRoleExists roleName found])%list,
         Done (Ok found))
    end.

(** The roles of the account after [EnsureRole] has succeeded for
    [roleName]. *)
Definition withRole (roleName : string) (existing : list string) : list string :=
  if existsb (String.eqb roleName) existing then existing else roleName :: existing.

(** [r.AWSClient.EnsureRole(roleName, ...)]: on success the account has
    the role. *)
Definition callEnsureRole (env : Env) (roleName : string) : M (result string) :=
  fun w =>
    let t := (trace w ++ [CallEnsureRole roleName])%list in
    match EnsureRole env roleName with
    | Ok arn =>
        (mkWorld (withRole roleName (roles w)) (asked w) (interactive w) t,
         Done (Ok arn))
    | Err e => (mkWorld (roles w) (asked w) (interactive w) t, Done (Err e))
    end.

(** A line feed, for the messages that end with one. *)
Definition nl : string := String (Ascii.ascii_of_nat 10) EmptyString.

(** [m[key]] on a [map[string]string]: the empty string when the key is
    absent. *)
Fixpoint lookup (m : StringMap) (key : string) : string :=
  match m with
  | [] => ""
  | (k, v) :: rest => if String.eqb k key then v else lookup rest key
  end.

(** ** [handleModeFlag] *)

(** The call [aws.SetModeKey(mode)] before the return stores the mode in
    a variable of the aws package that nothing below reads; it is left
    out. *)
Definition handleModeFlag (env : Env) (mode : string) (err : option error)
    : M (string * option error) :=
  enabled <- interactiveEnabled ;;
  if enabled : bool then
    emit AskMode ;;
    mode' <- orExit (GetOption env)
      (fun e => "Expected a valid operator IAM role upgrade mode: " ++ e) ;;
    ret (mode', None)
  else ret (mode, err).

(** ** [upgradeOperatorPolicies] *)

Definition upgradeOperatorPolicies (env : Env) (mode prefix : string)
    (isAccountRoleUpgradeNeed : bool) (defaultPolicyVersion : string)
    : M (option error) :=
  if String.eqb mode ModeAuto then
    ok <- confirmPrompt env
      ("Upgrade the operator role policy to version " ++ defaultPolicyVersion ++ "?") ;;
    if negb ok then ret None
    else
      emit (CallUpgradeOperatorRolePolicies prefix defaultPolicyVersion) ;;
      match UpgradeOperatorRolePolicies env with
      | Some e =>
          when (Contains e "Throttling")
            (emit (CallLogEvent "ROSAUpgradeOperatorRolesModeAuto")) ;;
          reporterErrorf ("Error upgrading the operator policies: " ++ e)
      | None => ret None
      end
  else if String.eqb mode ModeManual then
    emit CallGeneratePolicyFiles ;;
    match GeneratePolicyFiles env with
    | Some e =>
        emit (Errorf ("There was an error generating the policy files: " ++ e)) ;;
        osExit 1
    | None => ret tt
    end ;;
    when (isTerminal env)
      (emit (Infof "All policy files saved to the current directory") ;;
       emit (Infof ("Run the following commands to upgrade the operator IAM policies:" ++ nl)) ;;
       when isAccountRoleUpgradeNeed
         (emit (Warnf ("Operator role policies MUST only be upgraded after "
                       ++ "Account Role policies upgrade has completed." ++ nl)))) ;;
    emit (Println (BuildOperatorRoleCommands env)) ;;
    ret None
  else reporterErrorf ("Invalid mode. Allowed values are " ++ Modes).

(** ** [upgradeMissingOperatorRole] *)

Fixpoint upgradeMissingOperatorRole (env : Env) (missingRoles : OperatorMap)
    (prefix : string) (policies : StringMap) (unifiedPath : string)
    : M (option error) :=
  match missingRoles with
  | [] => ret None
  | (_, operator) :: rest =>
      let roleName := GetOperatorRoleName env operator in
      ok <- confirmPrompt env ("Create the '" ++ roleName ++ "' role?") ;;
      if negb ok then
        upgradeMissingOperatorRole env rest prefix policies unifiedPath
      else
        let policyDetails := lookup policies "operator_iam_role_policy" in
        let policyARN :=
          GetOperatorPolicyARN env (accountID env) prefix
            (opNamespace operator) (opName operator) unifiedPath in
        match GenerateOperatorRolePolicyDoc env operator with
        | Err e => ret (Some e)
        | Ok policy =>
            emit (Debugf ("Creating role '" ++ roleName ++ "'")) ;;
            r <- callEnsureRole env roleName ;;
            match r with
            | Err e => ret (Some e)
            | Ok roleARN =>
                emit (Infof ("Created role '" ++ roleName ++ "' with ARN '"
                             ++ roleARN ++ "'")) ;;
                emit (Debugf ("Attaching permission policy '" ++ policyARN
                              ++ "' to role '" ++ roleName ++ "'")) ;;
                emit (CallAttachRolePolicy roleName policyARN) ;;
                match AttachRolePolicy env roleName policyARN with
                | Some e =>
                    ret (Some ("Failed to attach role policy. Check your prefix or run "
                               ++ "'rosa create account-roles' to create the necessary policies: "
                               ++ e))
                | None =>
                    upgradeMissingOperatorRole env rest prefix policies unifiedPath
                end
            end
        end
  end.

(** ** [createOperatorRole] *)

Definition createOperatorRole (env : Env) (mode prefix : string)
    (missingRoles : OperatorMap) (policies : StringMap) (unifiedPath : string)
    : M (option error) :=
  if String.eqb mode ModeAuto then
    err <- upgradeMissingOperatorRole env missingRoles prefix policies unifiedPath ;;
    match err with
    | Some e => ret (Some e)
    | None =>
        emit (Spinner "Waiting for operator roles to reconcile") ;;
        ret None
    end
  else if String.eqb mode ModeManual then
    match BuildMissingOperatorRoleCommand env missingRoles with
    | Err e => ret (Some e)
    | Ok commands =>
        when (isTerminal env)
          (emit (Infof ("Run the following commands to create the operator roles:" ++ nl))) ;;
        emit (Println commands) ;;
        ret None
    end
  else
    emit (Errorf ("Invalid mode. Allowed values are " ++ Modes)) ;;
    osExit 1.

(** ** [run] *)

(** The loop over the missing roles at the end of [run]:
    [createdMissingRoles] counts the iterations that called
    [createOperatorRole]; [Err] is the early [return] of the error of
    [CheckRoleExists]. *)
Fixpoint createMissingRoles (env : Env) (mode prefix : string)
    (missingRolesInCS : OperatorMap) (policies : StringMap) (unifiedPath : string)
    (todo : OperatorMap) (createdMissingRoles : nat) : M (result nat) :=
  match todo with
  | [] => ret (Ok createdMissingRoles)
  | (_, operator) :: rest =>
      let roleName := GetOperatorRoleName env operator in
      r <- CheckRoleExists env roleName ;;
      match r with
      | Err e =>
          err <- reporterErrorf
            ("Error when detecting checking missing operator IAM roles " ++ e) ;;
          ret (Err (match err with Some msg => msg | None => "" end))
      | Ok found =>
          if negb found then
            err <- createOperatorRole env mode prefix missingRolesInCS
                     policies unifiedPath ;;
            match err with
            | Some e => emit (Errorf e) ;; osExit 1
            | None =>
                createMissingRoles env mode prefix missingRolesInCS policies
                  unifiedPath rest (S createdMissingRoles)
            end
          else
            createMissingRoles env mode prefix missingRolesInCS policies
              unifiedPath rest createdMissingRoles
      end
  end.

(** The hint printed when the account roles are behind. *)
Definition accountRolesHint (prefix : string) : string :=
  "Account roles with prefix '" ++ prefix
  ++ "' need to be upgraded before operator roles. "
  ++ "Roles can be upgraded with the following command :"
  ++ nl ++ nl ++ String (Ascii.ascii_of_nat 9) "rosa upgrade account-roles --prefix "
  ++ prefix ++ nl.

(** [run]: the command, from the fetched cluster on.  The result is the
    error the function returns. *)
Definition run (env : Env) : M (option error) :=
  mode <- orExit (GetMode env) (fun e => e) ;;
  defaultPolicyVersion <- orExit (GetDefaultVersion env)
    (fun e => "Error getting latest default version: " ++ e) ;;
  (if negb (String.eqb (upgradeVersion env) "") then
     let version := upgradeVersion env in
     availableUpgrades <- orExit (GetAvailableUpgrades env (clusterVersionID env))
       (fun e => "Failed to find available upgrades: " ++ e) ;;
     when (Nat.eqb (List.length availableUpgrades) 0)
       (emit (Warnf "There are no available upgrades") ;; osExit 0) ;;
     let validVersion := existsb (fun v => String.eqb v version) availableUpgrades in
     when (negb validVersion)
       (emit (Errorf "Expected a valid version to upgrade the cluster") ;; osExit 1)
   else ret tt) ;;
  let '(operatorRoles, hasOperatorRoles) := GetOperatorIAMRoles env in
  when (negb hasOperatorRoles || Nat.eqb (List.length operatorRoles) 0)
    (emit (Errorf ("Cluster '" ++ clusterKey env
                   ++ "' doesnt have any operator roles associated with it"))) ;;
  let '(prefix, prefixErr) := GetPrefixFromInstallerAccountRole env in
  when (match prefixErr with Some _ => true | None => false end)
    (emit (Errorf ("Error getting account role prefix for the cluster '"
                   ++ clusterKey env ++ "'"))) ;;
  unifiedPath <- orExit (GetPathFromAccountRole env)
    (fun e => "Expected a valid path for '" ++ clusterRoleARN env ++ "': " ++ e) ;;
  isAccountRoleUpgradeNeed <-
    orExit (IsUpgradedNeededForAccountRolePolicies env prefix defaultPolicyVersion)
      (fun e => e) ;;
  when isAccountRoleUpgradeNeed
    (emit (Infof (accountRolesHint prefix)) ;; osExit 1) ;;
  credRequests <- orExit (GetCredRequests env (clusterHypershift env))
    (fun e => "Error getting operator credential request from OCM " ++ e) ;;
  isOperatorPolicyUpgradeNeeded <-
    orExit (IsUpgradedNeededForOperatorRolePoliciesUsingPrefix env prefix
              (accountID env) defaultPolicyVersion credRequests unifiedPath)
      (fun e => e) ;;
  let version :=
    if String.eqb (upgradeVersion env) "" then clusterRawID env
    else upgradeVersion env in
  match FindMissingOperatorRolesForUpgrade env version with
  | Err e => ret (Some e)
  | Ok missingRolesInCS =>
      if Nat.leb (List.length missingRolesInCS) 0 && negb isOperatorPolicyUpgradeNeeded
      then
        emit (Infof ("Operator roles associated with the cluster '" ++ clusterID env
                     ++ "' are already up-to-date.")) ;;
        ret None
      else
        when (Nat.ltb 0 (List.length missingRolesInCS) || isOperatorPolicyUpgradeNeeded)
          (emit (Infof "Starting to upgrade the operator IAM roles and policies")) ;;
        enabled <- interactiveEnabled ;;
        when (negb enabled && negb (modeChanged env)) interactiveEnable ;;
        policies <- orExit (GetPolicies env "OperatorRole")
          (fun e => "Expected a valid role creation mode: " ++ e) ;;
        ocmEnv <- orExit (GetEnv env)
          (fun e => "Failed to determine OCM environment: " ++ e) ;;
        '(mode', err) <- handleModeFlag env mode None ;;
        match err with
        | Some e => emit (Errorf e) ;; osExit 1
        | None => ret tt
        end ;;
        when isOperatorPolicyUpgradeNeeded
          (err <- upgradeOperatorPolicies env mode' prefix isAccountRoleUpgradeNeed
                    defaultPolicyVersion ;;
           match err with
           | Some e => emit (Errorf e) ;; osExit 1
           | None => ret tt
           end) ;;
        if Nat.ltb 0 (List.length missingRolesInCS) then
          r <- createMissingRoles env mode' prefix missingRolesInCS policies
                 unifiedPath missingRolesInCS 0 ;;
          match r with
          | Err e => ret (Some e)
          | Ok createdMissingRoles =>
              when (Nat.eqb createdMissingRoles 0)
                (emit (Infof ("Missing roles/policies have already been created. "
                              ++ "Please continue with cluster upgrade process."))) ;;
              ret None
          end
        else ret None
  end.

(** ** Reading a run *)

(** The world a command starts in: the roles of the account and the
    setting of the interactive flag. *)
Definition start (existing : list string) (interactiveFlag : bool) : World :=
  mkWorld existing 0 interactiveFlag [].

Definition events {A : Type} (r : World * Outcome A) : list Event := trace (fst r).

(** The exit code of the process: the code given to [os.Exit], or 0 when
    [run] returns no error and 1 when it returns one. *)
Definition exitCode (r : World * Outcome (option error)) : Z :=
  match snd r with
  | Exited c => c
  | Done None => 0
  | Done (Some _) => 1
  end.

(** The calls that change something outside the process: the IAM calls
    that upgrade policies, create a role or attach a policy, and the
    event sent to the cluster service. *)
Definition isMutation (e : Event) : bool :=
  match e with
  | CallUpgradeOperatorRolePolicies _ _ | CallEnsureRole _
  | CallAttachRolePolicy _ _ | CallLogEvent _ => true
  | _ => false
  end.

Definition mutations (t : list Event) : list Event := filter isMutation t.

(** *** Concrete runs *)

(** A cluster [c1] whose calls all succeed, except the creation of a
    role whose name contains [broken]; the mode is given by flag.
    What varies: the requested version and the upgrades on offer,
    whether the cluster has operator roles, whether account roles and
    operator policies are behind, the mode, the roles found missing and
    the answers at the terminal. *)
Definition exampleEnv (version : string) (upgrades : list string)
    (hasRoles accountBehind policyBehind : bool) (mode : string)
    (missing : OperatorMap) (answers : nat -> bool) : Env :=
  {| upgradeVersion := version;
     modeChanged := true;
     isTerminal := false;
     accountID := "123456789012";
     clusterKey := "c1";
     clusterID := "id1";
     clusterVersionID := "openshift-v4.11.0";
     clusterRawID := "4.11.0";
     clusterRoleARN := "arn:aws:iam::123456789012:role/Managed-Installer-Role";
     clusterHypershift := false;
     GetOperatorIAMRoles := if hasRoles then (["ingress"], true) else ([], false);
     GetMode := Ok mode;
     GetDefaultVersion := Ok "4.12";
     GetAvailableUpgrades := fun _ => Ok upgrades;
     GetPrefixFromInstallerAccountRole := ("Managed", None);
     GetPathFromAccountRole := Ok "/";
     IsUpgradedNeededForAccountRolePolicies := fun _ _ => Ok accountBehind;
     GetCredRequests := fun _ => Ok missing;
     IsUpgradedNeededForOperatorRolePoliciesUsingPrefix :=
       fun _ _ _ _ _ => Ok policyBehind;
     FindMissingOperatorRolesForUpgrade := fun _ => Ok missing;
     GetPolicies := fun _ => Ok [];
     GetEnv := Ok "production";
     GetOption := Ok mode;
     confirmAnswer := answers;
     GetOperatorRoleName := fun op => "c1-" ++ opNamespace op ++ "-" ++ opName op;
     CheckRoleExistsErr := fun _ => None;
     GeneratePolicyFiles := None;
     BuildOperatorRoleCommands := "aws iam create-policy-version ...";
     BuildMissingOperatorRoleCommand := fun _ => Ok "aws iam create-role ...";
     UpgradeOperatorRolePolicies := None;
     GetOperatorPolicyARN := fun _ _ ns name _ => "arn:policy/" ++ ns ++ "-" ++ name;
     GenerateOperatorRolePolicyDoc := fun _ => Ok "{}";
     EnsureRole := fun roleName =>
       if Contains roleName "broken" then Err "AccessDenied"
       else Ok ("arn:role/" ++ roleName);
     AttachRolePolicy := fun _ _ => None |}.

(** The surroundings [env] with another answer to [EnsureRole]. *)
Definition withEnsureRole (ensure : string -> result string) (env : Env) : Env :=
  {| upgradeVersion := upgradeVersion env;
     modeChanged := modeChanged env;
     isTerminal := isTerminal env;
     accountID := accountID env;
     clusterKey := clusterKey env;
     clusterID := clusterID env;
     clusterVersionID := clusterVersionID env;
     clusterRawID := clusterRawID env;
     clusterRoleARN := clusterRoleARN env;
     clusterHypershift := clusterHypershift env;
     GetOperatorIAMRoles := GetOperatorIAMRoles env;
     GetMode := GetMode env;
     GetDefaultVersion := GetDefaultVersion env;
     GetAvailableUpgrades := GetAvailableUpgrades env;
     GetPrefixFromInstallerAccountRole := GetPrefixFromInstallerAccountRole env;
     GetPathFromAccountRole := GetPathFromAccountRole env;
     IsUpgradedNeededForAccountRolePolicies := IsUpgradedNeededForAccountRolePolicies env;
     GetCredRequests := GetCredRequests env;
     IsUpgradedNeededForOperatorRolePoliciesUsingPrefix := IsUpgradedNeededForOperatorRolePoliciesUsingPrefix env;
     FindMissingOperatorRolesForUpgrade := FindMissingOperatorRolesForUpgrade env;
     GetPolicies := GetPolicies env;
     GetEnv := GetEnv env;
     GetOption := GetOption env;
     confirmAnswer := confirmAnswer env;
     GetOperatorRoleName := GetOperatorRoleName env;
     CheckRoleExistsErr := CheckRoleExistsErr env;
     GeneratePolicyFiles := GeneratePolicyFiles env;
     BuildOperatorRoleCommands := BuildOperatorRoleCommands env;
     BuildMissingOperatorRoleCommand := BuildMissingOperatorRoleCommand env;
     UpgradeOperatorRolePolicies := UpgradeOperatorRolePolicies env;
     GetOperatorPolicyARN := GetOperatorPolicyARN env;
     GenerateOperatorRolePolicyDoc := GenerateOperatorRolePolicyDoc env;
     EnsureRole := ensure;
     AttachRolePolicy := AttachRolePolicy env |}.

(** The surroundings [env] with other credential requests. *)
Definition withCredRequests (required : OperatorMap) (env : Env) : Env :=
  {| upgradeVersion := upgradeVersion env;
     modeChanged := modeChanged env;
     isTerminal := isTerminal env;
     accountID := accountID env;
     clusterKey := clusterKey env;
     clusterID := clusterID env;
     clusterVersionID := clusterVersionID env;
     clusterRawID := clusterRawID env;
     clusterRoleARN := clusterRoleARN env;
     clusterHypershift := clusterHypershift env;
     GetOperatorIAMRoles := GetOperatorIAMRoles env;
     GetMode := GetMode env;
     GetDefaultVersion := GetDefaultVersion env;
     GetAvailableUpgrades := GetAvailableUpgrades env;
     GetPrefixFromInstallerAccountRole := GetPrefixFromInstallerAccountRole env;
     GetPathFromAccountRole := GetPathFromAccountRole env;
     IsUpgradedNeededForAccountRolePolicies := IsUpgradedNeededForAccountRolePolicies env;
     GetCredRequests := (fun _ => Ok required);
     IsUpgradedNeededForOperatorRolePoliciesUsingPrefix := IsUpgradedNeededForOperatorRolePoliciesUsingPrefix env;
     FindMissingOperatorRolesForUpgrade := FindMissingOperatorRolesForUpgrade env;
     GetPolicies := GetPolicies env;
     GetEnv := GetEnv env;
     GetOption := GetOption env;
     confirmAnswer := confirmAnswer env;
     GetOperatorRoleName := GetOperatorRoleName env;
     CheckRoleExistsErr := CheckRoleExistsErr env;
     GeneratePolicyFiles := GeneratePolicyFiles env;
     BuildOperatorRoleCommands := BuildOperatorRoleCommands env;
     BuildMissingOperatorRoleCommand := BuildMissingOperatorRoleCommand env;
     UpgradeOperatorRolePolicies := UpgradeOperatorRolePolicies env;
     GetOperatorPolicyARN := GetOperatorPolicyARN env;
     GenerateOperatorRolePolicyDoc := GenerateOperatorRolePolicyDoc env;
     EnsureRole := EnsureRole env;
     AttachRolePolicy := AttachRolePolicy env |}.

(** The surroundings [env] with another answer to the existence check
    of a role. *)
Definition withCheckRoleExistsErr (check : string -> option error) (env : Env)
    : Env :=
  {| upgradeVersion := upgradeVersion env;
     modeChanged := modeChanged env;
     isTerminal := isTerminal env;
     accountID := accountID env;
     clusterKey := clusterKey env;
     clusterID := clusterID env;
     clusterVersionID := clusterVersionID env;
     clusterRawID := clusterRawID env;
     clusterRoleARN := clusterRoleARN env;
     clusterHypershift := clusterHypershift env;
     GetOperatorIAMRoles := GetOperatorIAMRoles env;
     GetMode := GetMode env;
     GetDefaultVersion := GetDefaultVersion env;
     GetAvailableUpgrades := GetAvailableUpgrades env;
     GetPrefixFromInstallerAccountRole := GetPrefixFromInstallerAccountRole env;
     GetPathFromAccountRole := GetPathFromAccountRole env;
     IsUpgradedNeededForAccountRolePolicies := IsUpgradedNeededForAccountRolePolicies env;
     GetCredRequests := GetCredRequests env;
     IsUpgradedNeededForOperatorRolePoliciesUsingPrefix := IsUpgradedNeededForOperatorRolePoliciesUsingPrefix env;
     FindMissingOperatorRolesForUpgrade := FindMissingOperatorRolesForUpgrade env;
     GetPolicies := GetPolicies env;
     GetEnv := GetEnv env;
     GetOption := GetOption env;
     confirmAnswer := confirmAnswer env;
     GetOperatorRoleName := GetOperatorRoleName env;
     CheckRoleExistsErr := check;
     GeneratePolicyFiles := GeneratePolicyFiles env;
     BuildOperatorRoleCommands := BuildOperatorRoleCommands env;
     BuildMissingOperatorRoleCommand := BuildMissingOperatorRoleCommand env;
     UpgradeOperatorRolePolicies := UpgradeOperatorRolePolicies env;
     GetOperatorPolicyARN := GetOperatorPolicyARN env;
     GenerateOperatorRolePolicyDoc := GenerateOperatorRolePolicyDoc env;
     EnsureRole := EnsureRole env;
     AttachRolePolicy := AttachRolePolicy env |}.

(** The mode the command works in: the answer to the question about the
    mode when the tool is interactive at that point (the flag
    [--interactive] was given, or [--mode] was not), and the value of
    [--mode] otherwise. *)
Definition selectedMode (env : Env) (w : World) : result string :=
  if interactive w || negb (modeChanged env) then GetOption env else GetMode env.

Definition opA : STSOperator := mkOperator "a" "ns".
Definition opB : STSOperator := mkOperator "b" "ns".
Definition opC : STSOperator := mkOperator "c" "ns".
Definition opBroken : STSOperator := mkOperator "broken" "ns".
Definition twoMissing : OperatorMap := [("ka", opA); ("kb", opB)].

(** ** What the theorems speak about *)

(** The mode the run will select, seen from the interactive switch
    before and after [run] has settled it. *)
Definition manualSelected (env : Env) (i : bool) : Prop :=
  (if i || negb (modeChanged env) then GetOption env else GetMode env)
  = Ok ModeManual.

Definition manualAtPrompt (env : Env) (i : bool) : Prop :=
  (if i then GetOption env else GetMode env) = Ok ModeManual.

(** [quietly P m Q]: started in a world whose interactive switch
    satisfies [P], the piece [m] adds no mutation to the trace, and when
    it returns [a] the switch satisfies [Q a]. *)
Definition quietly {A : Type} (P : bool -> Prop) (m : M A)
    (Q : A -> bool -> Prop) : Prop :=
  forall w, P (interactive w) ->
    mutations (trace (fst (m w))) = mutations (trace w) /\
    match snd (m w) with
    | Done a => Q a (interactive (fst (m w)))
    | Exited _ => True
    end.

(** The version check lets the run pass: no version was asked for, or
    the one asked for is among the upgrades on offer. *)
Definition versionAccepted (env : Env) : Prop :=
  upgradeVersion env = "" \/
  exists upgrades,
    GetAvailableUpgrades env (clusterVersionID env) = Ok upgrades /\
    In (upgradeVersion env) upgrades.

(** The two error lines that do not stop the run. *)
Definition operatorRolesComplaint (env : Env) : list Event :=
  let '(operatorRoles, hasOperatorRoles) := GetOperatorIAMRoles env in
  if negb hasOperatorRoles || Nat.eqb (List.length operatorRoles) 0
  then [Errorf ("Cluster '" ++ clusterKey env
                ++ "' doesnt have any operator roles associated with it")]
  else [].

Definition prefixComplaint (env : Env) : list Event :=
  match snd (GetPrefixFromInstallerAccountRole env) with
  | Some _ => [Errorf ("Error getting account role prefix for the cluster '"
                       ++ clusterKey env ++ "'")]
  | None => []
  end.

(** The world in which the check of the account roles is made: the two
    complaints, if any, are on the trace. *)
Definition afterComplaints (env : Env) (w : World) : World :=
  mkWorld (roles w) (asked w) (interactive w)
          (trace w ++ operatorRolesComplaint env ++ prefixComplaint env)%list.

(** The roles for which [EnsureRole] was called, in order. *)
Definition ensureCalls (t : list Event) : list string :=
  flat_map (fun e => match e with
                     | CallEnsureRole roleName => [roleName]
                     | _ => []
                     end) t.

(** The operator confirms every prompt and every call of a creation
    succeeds. *)
Definition allConfirmedAndCreated (env : Env) : Prop :=
  (forall n, confirmAnswer env n = true) /\
  (forall operator, exists policy, GenerateOperatorRolePolicyDoc env operator = Ok policy) /\
  (forall roleName, exists arn, EnsureRole env roleName = Ok arn) /\
  (forall roleName policyARN, AttachRolePolicy env roleName policyARN = None).

(** Modelled from the spec: [FindMissingOperatorRolesForUpgrade] belongs
    to the cluster-service client package, whose code is not among the
    modelled files.  Of the operator roles that the credential requests
    require at the target version ([required]) it returns those the
    cluster does not have yet ([clusterHas] tells which it has). *)
Definition findMissingOperatorRoles (required : OperatorMap)
    (clusterHas : STSOperator -> bool) : OperatorMap :=
  filter (fun kv => negb (clusterHas (snd kv))) required.

(** The roles whose existence check in the loop answered that the role
    does not exist: the roles the loop acts on. *)
Definition detectedMissing (t : list Event) : list string :=
  flat_map (fun e => match e with
                     | CallCheckRoleExists roleName false => [roleName]
                     | _ => []
                     end) t.

(** The roles of [todo] that the account does not have. *)
Definition absentRoles (env : Env) (existing : list string) (todo : OperatorMap)
    : list string :=
  filter (fun roleName => negb (existsb (String.eqb roleName) existing))
         (map (fun kv => GetOperatorRoleName env (snd kv)) todo).

(** Every confirmation asked at the terminal is declined. *)
Definition allDeclined (env : Env) : Prop :=
  forall n, confirmAnswer env n = false.

(** A mode in which the run changes nothing: it is not the automatic
    one, or every confirmation is declined. *)
Definition harmless (env : Env) (mode : string) : Prop :=
  allDeclined env \/ String.eqb mode ModeAuto = false.

(** The same, for the mode the run will select, seen from the
    interactive switch before and after [run] has settled it. *)
Definition harmlessSelected (env : Env) (i : bool) : Prop :=
  allDeclined env \/
  (if i || negb (modeChanged env) then GetOption env else GetMode env)
  <> Ok ModeAuto.

Definition harmlessAtPrompt (env : Env) (i : bool) : Prop :=
  allDeclined env \/ (if i then GetOption env else GetMode env) <> Ok ModeAuto.

(** The world after some more events. *)
Definition withEvents (w : World) (evs : list Event) : World :=
  mkWorld (roles w) (asked w) (interactive w) (trace w ++ evs)%list.

(** The version the missing roles are looked up for. *)
Definition targetVersion (env : Env) : string :=
  if String.eqb (upgradeVersion env) "" then clusterRawID env
  else upgradeVersion env.

(** The existence checks of a loop over roles that all exist. *)
Definition checksFound (env : Env) (todo : OperatorMap) : list Event :=
  map (fun kv => CallCheckRoleExists (GetOperatorRoleName env (snd kv)) true) todo.

(** What the detection of missing roles depends on: the roles of the
    account, the interactive switch, and the roles found missing so
    far. *)
Record View : Type := mkView {
  vRoles : list string;
  vInteractive : bool;
  vDetected : list string
}.

Definition view (w : World) : View :=
  mkView (roles w) (interactive w) (detectedMissing (trace w)).

(** [triple P m Q]: started in a world whose view satisfies [P], the
    piece [m], when it returns [a], leaves a world whose view satisfies
    [Q a]. *)
Definition triple {A : Type} (P : View -> Prop) (m : M A)
    (Q : A -> View -> Prop) : Prop :=
  forall w, P (view w) ->
    match snd (m w) with
    | Done a => Q a (view (fst (m w)))
    | Exited _ => True
    end.

(** The account has the roles [existing] and the roles [detected] were
    found missing. *)
Definition unchanged (existing detected : list string) (v : View) : Prop :=
  vRoles v = existing /\ vDetected v = detected.

(** The required roles that exist neither on the cluster nor in the
    account. *)
Definition requiredAndAbsent (env : Env) (required : OperatorMap)
    (clusterHas : STSOperator -> bool) (existing : list string)
    (roleName : string) : Prop :=
  (exists kv, In kv required /\ clusterHas (snd kv) = false /\
              GetOperatorRoleName env (snd kv) = roleName)
  /\ ~ In roleName existing.

(** ** Manual mode changes nothing outside the process *)

Lemma mutations_snoc (t : list Event) (e : Event) :
  mutations (t ++ [e]) = (mutations t ++ (if isMutation e then [e] else []))%list.
Proof. unfold mutations. rewrite filter_app. cbn. now destruct (isMutation e). Qed.

(** *** A small program logic for runs without mutation *)

Section Quietly.

Context {A B : Type}.
Implicit Types (P : bool -> Prop).

Lemma q_ret P (a : A) (Q : A -> bool -> Prop) :
  (forall i, P i -> Q a i) -> quietly P (ret a) Q.
Proof. intros H w Hw. split; [reflexivity | apply H, Hw]. Qed.

Lemma q_exit P (code : Z) (Q : A -> bool -> Prop) :
  quietly P (osExit code) Q.
Proof. intros w Hw. split; [reflexivity | exact I]. Qed.

Lemma q_bind P (m : M A) (f : A -> M B) (Q : A -> bool -> Prop)
    (R : B -> bool -> Prop) :
  quietly P m Q -> (forall a, quietly (Q a) (f a) R) -> quietly P (bind m f) R.
Proof.
  intros Hm Hf w Hw. unfold bind.
  destruct (Hm w Hw) as [Ht Hq].
  destruct (m w) as [w' [a|code]]; cbn in *.
  - destruct (Hf a w' Hq) as [Ht' Hr]. split; [congruence | exact Hr].
  - split; [exact Ht | exact I].
Qed.

Lemma q_conseq (P P' : bool -> Prop) (m : M A) (Q Q' : A -> bool -> Prop) :
  quietly P m Q -> (forall i, P' i -> P i) -> (forall a i, Q a i -> Q' a i) ->
  quietly P' m Q'.
Proof.
  intros Hm HP HQ w Hw. destruct (Hm w (HP _ Hw)) as [Ht Hq].
  split; [exact Ht|]. destruct (snd (m w)); [apply HQ, Hq | exact I].
Qed.

Lemma q_intro P (F : Prop) (m : M A) (Q : A -> bool -> Prop) :
  (F -> quietly P m Q) -> quietly (fun i => P i /\ F) m Q.
Proof. intros H w [Hw HF]. exact (H HF w Hw). Qed.

Lemma q_pure (F : Prop) (m : M A) (Q : A -> bool -> Prop) :
  (F -> quietly (fun _ => True) m Q) -> quietly (fun _ => F) m Q.
Proof. intros H w HF. exact (H HF w I). Qed.

Lemma q_orExit P (r : result A) (msg : error -> string) :
  quietly P (orExit r msg) (fun a i => P i /\ r = Ok a).
Proof.
  intros w Hw. destruct r as [a|e]; cbn.
  - split; [reflexivity | split; [exact Hw | reflexivity]].
  - split; [|exact I]. rewrite mutations_snoc. cbn. apply app_nil_r.
Qed.

End Quietly.

Lemma q_emit (P : bool -> Prop) (e : Event) :
  isMutation e = false -> quietly P (emit e) (fun _ i => P i).
Proof.
  intros He w Hw. cbn. rewrite mutations_snoc, He.
  split; [apply app_nil_r | exact Hw].
Qed.

Lemma q_when (P : bool -> Prop) (cond : bool) (body : M unit) :
  quietly P body (fun _ i => P i) -> quietly P (when cond body) (fun _ i => P i).
Proof. intros H. destruct cond; [exact H | now apply q_ret]. Qed.

Lemma q_interactiveEnabled (P : bool -> Prop) :
  quietly P interactiveEnabled (fun b i => P i /\ i = b).
Proof. intros w Hw. cbn. auto. Qed.

Lemma q_CheckRoleExists (P : bool -> Prop) (env : Env) (roleName : string) :
  quietly P (CheckRoleExists env roleName) (fun _ i => P i).
Proof.
  intros w Hw. unfold CheckRoleExists.
  destruct (CheckRoleExistsErr env roleName); cbn; [auto|].
  rewrite mutations_snoc. cbn. split; [apply app_nil_r | exact Hw].
Qed.

Lemma q_reporterErrorf (P : bool -> Prop) (msg : string) :
  quietly P (reporterErrorf msg) (fun _ i => P i).
Proof.
  intros w Hw. cbn. rewrite mutations_snoc. cbn.
  split; [apply app_nil_r | exact Hw].
Qed.

(** A step of a run: split a [bind], settle its first piece by one of the
    rules, and name what the rule says about the value. *)
Ltac q_first :=
  first [ apply q_orExit
        | apply q_emit; reflexivity
        | apply q_exit
        | apply q_interactiveEnabled
        | apply q_CheckRoleExists
        | apply q_reporterErrorf ].

Ltac q_step :=
  eapply q_bind; [q_first | intros ?; cbv beta; try (apply q_intro; intros ?)].

Ltac q_fail := eapply q_bind; [apply q_emit; reflexivity | intros ?; apply q_exit].

(** The manual branch of [upgradeOperatorPolicies] writes the policy
    files and prints. *)
Lemma q_upgradeOperatorPolicies_manual (P : bool -> Prop) (env : Env)
    (prefix : string) (isAccountRoleUpgradeNeed : bool) (version : string) :
  quietly P
    (upgradeOperatorPolicies env ModeManual prefix isAccountRoleUpgradeNeed version)
    (fun _ i => P i).
Proof.
  unfold upgradeOperatorPolicies.
  change (String.eqb ModeManual ModeAuto) with false.
  change (String.eqb ModeManual ModeManual) with true. cbv iota.
  q_step.
  eapply q_bind with (Q := fun _ i => P i).
  { destruct (GeneratePolicyFiles env); [q_fail | now apply q_ret]. }
  intros ?; cbv beta. eapply q_bind with (Q := fun _ i => P i).
  { apply q_when. q_step. q_step. apply q_when. apply q_emit. reflexivity. }
  intros ?; cbv beta. q_step. now apply q_ret.
Qed.

(** The manual branch of [createOperatorRole] builds the text of the
    commands and prints it. *)
Lemma q_createOperatorRole_manual (P : bool -> Prop) (env : Env)
    (prefix : string) (missingRoles : OperatorMap) (policies : StringMap)
    (unifiedPath : string) :
  quietly P
    (createOperatorRole env ModeManual prefix missingRoles policies unifiedPath)
    (fun _ i => P i).
Proof.
  unfold createOperatorRole.
  change (String.eqb ModeManual ModeAuto) with false.
  change (String.eqb ModeManual ModeManual) with true. cbv iota.
  destruct (BuildMissingOperatorRoleCommand env missingRoles) as [commands|e];
    [|now apply q_ret].
  eapply q_bind with (Q := fun _ i => P i).
  { apply q_when. apply q_emit. reflexivity. }
  intros ?; cbv beta. q_step. now apply q_ret.
Qed.

Lemma q_createMissingRoles_manual (P : bool -> Prop) (env : Env)
    (prefix : string) (missingRolesInCS : OperatorMap) (policies : StringMap)
    (unifiedPath : string) (todo : OperatorMap) :
  forall created : nat,
  quietly P
    (createMissingRoles env ModeManual prefix missingRolesInCS policies
       unifiedPath todo created)
    (fun _ i => P i).
Proof.
  induction todo as [|[key operator] rest IH]; intros created; cbn [createMissingRoles].
  - now apply q_ret.
  - q_step. destruct a as [found|e].
    + destruct (negb found); [|apply IH].
      eapply q_bind; [apply q_createOperatorRole_manual|].
      intros [e|]; cbv beta; [q_fail | apply IH].
    + q_step. now apply q_ret.
Qed.

Lemma q_settle_interactive (env : Env) (enabled : bool) :
  quietly (fun i => manualSelected env i /\ i = enabled)
    (when (negb enabled && negb (modeChanged env)) interactiveEnable)
    (fun _ i => manualAtPrompt env i).
Proof.
  intros w [Hsel Hi]. unfold manualSelected, manualAtPrompt in *.
  rewrite Hi in Hsel.
  destruct enabled, (modeChanged env); cbn in *; rewrite ?Hi; auto.
Qed.

Lemma q_handleModeFlag (env : Env) (mode : string) :
  GetMode env = Ok mode ->
  quietly (manualAtPrompt env) (handleModeFlag env mode None)
    (fun r _ => fst r = ModeManual /\ snd r = None).
Proof.
  intros Hmode. unfold handleModeFlag.
  eapply q_bind; [apply q_interactiveEnabled|].
  intros enabled. apply q_conseq with
    (P := fun i => manualAtPrompt env enabled)
    (Q := fun r _ => fst r = ModeManual /\ snd r = None); auto.
  2:{ intros i [H ->]. exact H. }
  unfold manualAtPrompt. destruct enabled.
  - q_step. q_step. apply q_ret. intros i Hp. cbn in *. split; congruence.
  - apply q_ret. intros i Hp. cbn in *. split; congruence.
Qed.

Lemma q_run_manual (env : Env) :
  quietly (manualSelected env) (run env) (fun _ _ => True).
Proof.
  unfold run.
  q_step. q_step.
  eapply q_bind with (Q := fun _ i => manualSelected env i).
  { destruct (negb _); [|now apply q_ret].
    q_step. eapply q_bind with (Q := fun _ i => manualSelected env i).
    { apply q_when. q_fail. }
    intros ?; cbv beta. apply q_when. q_fail. }
  intros ?; cbv beta.
  destruct (GetOperatorIAMRoles env) as [operatorRoles hasOperatorRoles].
  eapply q_bind with (Q := fun _ i => manualSelected env i).
  { apply q_when, q_emit. reflexivity. }
  intros ?; cbv beta.
  destruct (GetPrefixFromInstallerAccountRole env) as [prefix prefixErr].
  eapply q_bind with (Q := fun _ i => manualSelected env i).
  { apply q_when, q_emit. reflexivity. }
  intros ?; cbv beta.
  q_step. q_step.
  eapply q_bind with (Q := fun _ i => manualSelected env i).
  { apply q_when. q_fail. }
  intros ?; cbv beta.
  q_step. q_step.
  destruct (FindMissingOperatorRolesForUpgrade env _) as [missingRolesInCS|e];
    [|now apply q_ret].
  destruct (_ && _).
  { q_step. now apply q_ret. }
  eapply q_bind with (Q := fun _ i => manualSelected env i).
  { apply q_when, q_emit. reflexivity. }
  intros ?; cbv beta.
  eapply q_bind; [apply q_interactiveEnabled|]. intros enabled.
  eapply q_bind; [apply q_settle_interactive|]. intros ?; cbv beta.
  q_step. q_step.
  eapply q_bind; [apply (q_handleModeFlag env a H)|].
  intros [mode' err]. apply q_pure. cbn [fst snd]. intros [-> ->].
  eapply q_bind with (Q := fun _ _ => True); [now apply q_ret|].
  intros ?; cbv beta.
  eapply q_bind with (Q := fun _ _ => True).
  { apply q_when. eapply q_bind; [apply q_upgradeOperatorPolicies_manual|].
    intros [e|]; cbv beta; [q_fail | now apply q_ret]. }
  intros ?; cbv beta.
  destruct (Nat.ltb _ _); [|now apply q_ret].
  eapply q_bind; [apply q_createMissingRoles_manual|].
  intros [created|e]; cbv beta; [|now apply q_ret].
  eapply q_bind with (Q := fun _ _ => True).
  { apply q_when, q_emit. reflexivity. }
  intros ?; cbv beta. now apply q_ret.
Qed.

(** C1.  In every run whose selected mode is manual, whatever the
    surroundings answer, no call that changes the cloud account or the
    cluster service is issued: the mutations of the trace after [run] are
    those before it.  The same holds for the manual branches of
    [upgradeOperatorPolicies] and [createOperatorRole] on their own,
    which write the policy files locally and print the commands. *)
Theorem manual_mode_issues_no_mutation (env : Env) (w : World) :
  selectedMode env w = Ok ModeManual ->
  mutations (events (run env w)) = mutations (trace w) /\
  (forall prefix need version w',
     mutations (events (upgradeOperatorPolicies env ModeManual prefix need
                          version w'))
     = mutations (trace w')) /\
  (forall prefix missingRoles policies unifiedPath w',
     mutations (events (createOperatorRole env ModeManual prefix missingRoles
                          policies unifiedPath w'))
     = mutations (trace w')).
Proof.
  intros Hsel. repeat split.
  - exact (proj1 (q_run_manual env w Hsel)).
  - intros prefix need version w'.
    exact (proj1 (q_upgradeOperatorPolicies_manual (fun _ => True) env prefix
                    need version w' I)).
  - intros prefix missingRoles policies unifiedPath w'.
    exact (proj1 (q_createOperatorRole_manual (fun _ => True) env prefix
                    missingRoles policies unifiedPath w' I)).
Qed.

Lemma manual_mode_issues_no_mutation_witness :
  let env := exampleEnv "" [] true false true ModeManual twoMissing (fun _ => true) in
  selectedMode env (start [] false) = Ok ModeManual /\
  mutations (events (run env (start [] false))) = [].
Proof.
  intro env. split; [reflexivity|].
  exact (proj1 (manual_mode_issues_no_mutation env (start [] false) eq_refl)).
Defined.

(** ** Account roles that are behind *)

Lemma bind_val {A B : Type} (m : M A) (k : A -> M B) (w w' : World) (a : A) :
  m w = (w', Done a) -> bind m k w = k a w'.
Proof. unfold bind. now intros ->. Qed.

Lemma versionAccepted_passes (env : Env) (w : World) :
  versionAccepted env ->
  (if negb (String.eqb (upgradeVersion env) "") then
     let version := upgradeVersion env in
     availableUpgrades <- orExit (GetAvailableUpgrades env (clusterVersionID env))
       (fun e => "Failed to find available upgrades: " ++ e) ;;
     when (Nat.eqb (List.length availableUpgrades) 0)
       (emit (Warnf "There are no available upgrades") ;; osExit 0) ;;
     let validVersion := existsb (fun v => String.eqb v version) availableUpgrades in
     when (negb validVersion)
       (emit (Errorf "Expected a valid version to upgrade the cluster") ;; osExit 1)
   else ret tt) w = (w, Done tt).
Proof.
  intros [-> | (upgrades & Hup & Hin)]; [reflexivity|].
  destruct (negb _); [|reflexivity].
  unfold bind. rewrite Hup. cbn.
  assert (Hvalid : existsb (fun v => String.eqb v (upgradeVersion env)) upgrades = true).
  { apply existsb_exists. exists (upgradeVersion env).
    split; [exact Hin | apply String.eqb_refl]. }
  rewrite Hvalid. destruct upgrades; [contradiction|reflexivity].
Qed.

Lemma run_stale_account_roles (env : Env) (w : World)
    (mode version unifiedPath : string) :
  GetMode env = Ok mode ->
  GetDefaultVersion env = Ok version ->
  versionAccepted env ->
  GetPathFromAccountRole env = Ok unifiedPath ->
  IsUpgradedNeededForAccountRolePolicies env
    (fst (GetPrefixFromInstallerAccountRole env)) version = Ok true ->
  run env w =
    (mkWorld (roles w) (asked w) (interactive w)
       (trace (afterComplaints env w)
        ++ [Infof (accountRolesHint (fst (GetPrefixFromInstallerAccountRole env)))])%list,
     Exited 1).
Proof.
  intros Hmode Hversion Hacc Hpath Hneed. unfold run.
  rewrite (bind_val _ _ w w mode) by (now rewrite Hmode).
  rewrite (bind_val _ _ w w version) by (now rewrite Hversion).
  rewrite (bind_val _ _ w w tt) by (now apply versionAccepted_passes).
  unfold afterComplaints, operatorRolesComplaint, prefixComplaint.
  destruct (GetOperatorIAMRoles env) as [operatorRoles hasOperatorRoles].
  destruct (GetPrefixFromInstallerAccountRole env) as [prefix prefixErr].
  cbn [fst snd] in *.
  unfold bind. rewrite Hpath, Hneed.
  destruct (negb hasOperatorRoles || _), prefixErr;
    cbn -[String.append accountRolesHint];
    rewrite ?app_nil_r, <- ?app_assoc; reflexivity.
Qed.

(** C5, amended.  When the run reaches the check of the account roles
    (the mode and the default version are read, the version asked for, if
    any, is on offer, the path of the installer role is valid) and the
    check says the account-role policies are behind the default version,
    the command prints the hint with [rosa upgrade account-roles --prefix]
    as its last line and exits with code 1; before that it printed at most
    the two complaints that do not stop it, and it issued no mutation. *)
Theorem stale_account_roles_stop_the_run (env : Env) (w : World)
    (mode version unifiedPath : string) :
  GetMode env = Ok mode ->
  GetDefaultVersion env = Ok version ->
  versionAccepted env ->
  GetPathFromAccountRole env = Ok unifiedPath ->
  IsUpgradedNeededForAccountRolePolicies env
    (fst (GetPrefixFromInstallerAccountRole env)) version = Ok true ->
  snd (run env w) = Exited 1 /\
  events (run env w) =
    (trace w ++ operatorRolesComplaint env ++ prefixComplaint env
     ++ [Infof (accountRolesHint (fst (GetPrefixFromInstallerAccountRole env)))])%list /\
  mutations (events (run env w)) = mutations (trace w).
Proof.
  intros Hmode Hversion Hacc Hpath Hneed.
  rewrite (run_stale_account_roles env w mode version unifiedPath) by assumption.
  unfold events, afterComplaints. cbn [fst snd trace].
  split; [reflexivity|]. split; [now rewrite <- !app_assoc|].
  unfold mutations, operatorRolesComplaint, prefixComplaint.
  rewrite !filter_app.
  destruct (GetOperatorIAMRoles env) as [operatorRoles hasOperatorRoles].
  destruct (negb hasOperatorRoles || _),
    (snd (GetPrefixFromInstallerAccountRole env));
    cbn; now rewrite ?app_nil_r.
Qed.

Lemma stale_account_roles_stop_the_run_witness :
  let env := exampleEnv "" [] true true false ModeAuto twoMissing (fun _ => true) in
  snd (run env (start [] false)) = Exited 1 /\
  events (run env (start [] false)) = [Infof (accountRolesHint "Managed")] /\
  mutations (events (run env (start [] false))) = [].
Proof.
  intro env.
  exact (stale_account_roles_stop_the_run env (start [] false)
           ModeAuto "4.12" "/" eq_refl eq_refl (or_introl eq_refl) eq_refl eq_refl).
Defined.

(** C5 as stated fails.  With [--version 4.12.3] and no upgrade on offer
    the command warns and exits with code 0 before it looks at the
    account roles, although their policies are behind the default
    version: no hint is printed. *)
Lemma stale_account_roles_exit_zero :
  let env := exampleEnv "4.12.3" [] true true false ModeAuto [] (fun _ => true) in
  GetDefaultVersion env = Ok "4.12" /\
  IsUpgradedNeededForAccountRolePolicies env
    (fst (GetPrefixFromInstallerAccountRole env)) "4.12" = Ok true /\
  events (run env (start [] false)) = [Warnf "There are no available upgrades"] /\
  exitCode (run env (start [] false)) = 0.
Proof. vm_compute. repeat split. Qed.

(** ** Errors that do not stop the run *)

(** C6, at the failing input.  For a cluster without operator roles
    (every other call succeeds, nothing is missing or behind) the command
    reports the error, goes on, finds nothing to do and ends with exit
    code 0. *)
Theorem no_operator_roles_run_continues :
  let env := exampleEnv "" [] false false false ModeAuto [] (fun _ => true) in
  GetOperatorIAMRoles env = ([], false) /\
  events (run env (start [] false)) =
    [Errorf "Cluster 'c1' doesnt have any operator roles associated with it";
     Infof "Operator roles associated with the cluster 'id1' are already up-to-date."] /\
  exitCode (run env (start [] false)) = 0.
Proof. vm_compute. repeat split. Qed.

(** ** The loop over the missing roles *)

Lemma ensureCalls_app (t u : list Event) :
  ensureCalls (t ++ u) = (ensureCalls t ++ ensureCalls u)%list.
Proof. apply flat_map_app. Qed.

Lemma upgradeMissingOperatorRole_turn (env : Env) (key : string)
    (operator : STSOperator) (rest : OperatorMap) (prefix : string)
    (policies : StringMap) (unifiedPath : string) (w : World) :
  allConfirmedAndCreated env ->
  let roleName := GetOperatorRoleName env operator in
  exists evs,
    ensureCalls evs = [roleName] /\
    upgradeMissingOperatorRole env ((key, operator) :: rest) prefix policies
      unifiedPath w
    = upgradeMissingOperatorRole env rest prefix policies unifiedPath
        (mkWorld (withRole roleName (roles w)) (S (asked w)) (interactive w)
                 (trace w ++ evs)%list).
Proof.
  intros (Hyes & Hdoc & Hensure & Hattach) roleName.
  cbn [upgradeMissingOperatorRole]. fold roleName.
  unfold bind at 1. unfold confirmPrompt. rewrite Hyes. cbn [negb].
  destruct (Hdoc operator) as [policy ->].
  unfold bind at 1. unfold emit at 1.
  unfold bind at 1. unfold callEnsureRole.
  destruct (Hensure roleName) as [arn ->]. cbn [roles asked interactive trace].
  unfold bind at 1. unfold emit at 1.
  unfold bind at 1. unfold emit at 1.
  unfold bind at 1. unfold emit at 1.
  rewrite Hattach. cbn [roles asked interactive trace].
  eexists. split; [|rewrite <- !app_assoc; cbn [app]; reflexivity].
  reflexivity.
Qed.

(** One pass of [upgradeMissingOperatorRole] in which everything is
    confirmed and succeeds creates every role of the map once, in the
    order of the visit. *)
Lemma upgradeMissingOperatorRole_pass (env : Env) (prefix : string)
    (policies : StringMap) (unifiedPath : string) :
  allConfirmedAndCreated env ->
  forall (missingRoles : OperatorMap) (w : World),
  let r := upgradeMissingOperatorRole env missingRoles prefix policies unifiedPath w in
  snd r = Done None /\
  ensureCalls (trace (fst r)) =
    (ensureCalls (trace w)
     ++ map (fun kv => GetOperatorRoleName env (snd kv)) missingRoles)%list.
Proof.
  intros Hall. induction missingRoles as [|[key operator] rest IH]; intros w r; subst r.
  - cbn. now rewrite app_nil_r.
  - destruct (upgradeMissingOperatorRole_turn env key operator rest prefix policies
                unifiedPath w Hall) as (evs & Hevs & ->).
    match goal with |- context [upgradeMissingOperatorRole _ rest _ _ _ ?w0] =>
      destruct (IH w0) as (Ho & Ht) end.
    rewrite Ho, Ht. cbn [trace map snd]. rewrite ensureCalls_app, Hevs, <- app_assoc.
    split; reflexivity.
Qed.

(** Two runs in automatic mode with everything confirmed.  When all
    calls succeed, each of the two missing roles is created once; when
    the creation of the second role fails, the run reports the error and
    exits with code 1, and the first role stays. *)
Example all_confirmed_creates_each_role_once :
  let env := exampleEnv "" [] true false false ModeAuto twoMissing (fun _ => true) in
  let r := run env (start [] false) in
  ensureCalls (events r) = ["c1-ns-a"; "c1-ns-b"] /\
  roles (fst r) = ["c1-ns-b"; "c1-ns-a"] /\
  exitCode r = 0.
Proof. vm_compute. repeat split. Qed.

Example creation_failure_exits_without_rollback :
  let env := exampleEnv "" [] true false false ModeAuto
               [("ka", opA); ("kx", opBroken)] (fun _ => true) in
  let r := run env (start [] false) in
  ensureCalls (events r) = ["c1-ns-a"; "c1-ns-broken"] /\
  last (events r) AskMode = Errorf "AccessDenied" /\
  roles (fst r) = ["c1-ns-a"] /\
  snd r = Exited 1.
Proof. vm_compute. repeat split. Qed.

(** C7, at the failing input.  Two roles are missing and neither exists;
    the operator confirms the first and declines the second.  The pass
    for the first role creates it and skips the second; the existence
    check of the second role then starts a new pass over all missing
    roles, which asks about the first role again and creates it a second
    time. *)
Theorem declined_role_repeats_creation :
  let env := exampleEnv "" [] true false false ModeAuto twoMissing Nat.even in
  let r := run env (start [] false) in
  ensureCalls (events r) = ["c1-ns-a"; "c1-ns-a"] /\
  roles (fst r) = ["c1-ns-a"] /\
  exitCode r = 0.
Proof. vm_compute. repeat split. Qed.

(** ** Which roles the loop finds missing *)

Lemma detectedMissing_app (t u : list Event) :
  detectedMissing (t ++ u) = (detectedMissing t ++ detectedMissing u)%list.
Proof. apply flat_map_app. Qed.

Lemma createOperatorRole_manual_run (env : Env) (prefix : string)
    (missingRoles : OperatorMap) (policies : StringMap) (unifiedPath : string)
    (commands : string) (w : World) :
  BuildMissingOperatorRoleCommand env missingRoles = Ok commands ->
  exists printed,
    createOperatorRole env ModeManual prefix missingRoles policies unifiedPath w
    = (mkWorld (roles w) (asked w) (interactive w) (trace w ++ printed)%list,
       Done None)
    /\ detectedMissing printed = [].
Proof.
  intros Hbuild. unfold createOperatorRole.
  change (String.eqb ModeManual ModeAuto) with false.
  change (String.eqb ModeManual ModeManual) with true. cbv iota.
  rewrite Hbuild. destruct (isTerminal env); cbn -[String.append].
  - eexists [_; _]. rewrite <- app_assoc. split; reflexivity.
  - eexists [_]. split; reflexivity.
Qed.

(** One turn of the loop in manual mode, when the existence check and
    the building of the commands succeed. *)
Lemma createMissingRoles_manual_turn (env : Env) (prefix : string)
    (missingRolesInCS : OperatorMap) (policies : StringMap) (unifiedPath : string)
    (commands key : string) (operator : STSOperator) (rest : OperatorMap)
    (created : nat) (w : World) :
  CheckRoleExistsErr env (GetOperatorRoleName env operator) = None ->
  BuildMissingOperatorRoleCommand env missingRolesInCS = Ok commands ->
  let roleName := GetOperatorRoleName env operator in
  let found := existsb (String.eqb roleName) (roles w) in
  exists printed,
    detectedMissing printed = [] /\
    createMissingRoles env ModeManual prefix missingRolesInCS policies
      unifiedPath ((key, operator) :: rest) created w
    = createMissingRoles env ModeManual prefix missingRolesInCS policies
        unifiedPath rest (if found then created else S created)
        (mkWorld (roles w) (asked w) (interactive w)
           (trace w ++ CallCheckRoleExists roleName found :: printed)%list).
Proof.
  intros Hcheck Hbuild roleName found.
  cbn [createMissingRoles]. unfold bind at 1. unfold CheckRoleExists.
  rewrite Hcheck. fold roleName found. cbv beta iota zeta.
  destruct found; cbn [negb].
  - exists []. split; reflexivity.
  - unfold bind at 1.
    match goal with |- context [createOperatorRole _ _ _ _ _ _ ?w0] =>
      destruct (createOperatorRole_manual_run env prefix missingRolesInCS
                  policies unifiedPath commands w0 Hbuild)
        as (printed & -> & Hprinted) end.
    exists printed. split; [exact Hprinted|].
    cbn [roles asked interactive trace]. now rewrite <- app_assoc.
Qed.

Lemma createMissingRoles_manual_run (env : Env) (prefix : string)
    (missingRolesInCS : OperatorMap) (policies : StringMap) (unifiedPath : string)
    (commands : string) :
  (forall roleName, CheckRoleExistsErr env roleName = None) ->
  BuildMissingOperatorRoleCommand env missingRolesInCS = Ok commands ->
  forall (todo : OperatorMap) (created : nat) (w : World),
  let r := createMissingRoles env ModeManual prefix missingRolesInCS policies
             unifiedPath todo created w in
  roles (fst r) = roles w /\
  detectedMissing (trace (fst r)) =
    (detectedMissing (trace w) ++ absentRoles env (roles w) todo)%list /\
  snd r = Done (Ok (created + List.length (absentRoles env (roles w) todo))%nat).
Proof.
  intros Hcheck Hbuild.
  induction todo as [|[key operator] rest IH]; intros created w r; subst r.
  - cbn. rewrite app_nil_r, Nat.add_0_r. auto.
  - destruct (createMissingRoles_manual_turn env prefix missingRolesInCS policies
                unifiedPath commands key operator rest created w
                (Hcheck _) Hbuild) as (printed & Hprinted & ->).
    match goal with |- context [createMissingRoles _ _ _ _ _ _ rest ?c ?w0] =>
      destruct (IH c w0) as (Hr & Hd & Ho) end.
    cbn [roles trace] in *. rewrite Hr, Hd, Ho.
    change (?t ++ ?e :: printed)%list with (t ++ [e] ++ printed)%list.
    rewrite !detectedMissing_app, Hprinted.
    unfold absentRoles. cbn [map filter snd].
    destruct (existsb _ (roles w)); cbn [negb detectedMissing flat_map List.length];
      rewrite ?app_nil_r, <- ?app_assoc; repeat split.
    f_equal. f_equal. cbn. lia.
Qed.

(** ** Only the automatic mode, with consent, changes anything *)

Lemma q_confirmPrompt (P : bool -> Prop) (env : Env) (question : string) :
  quietly P (confirmPrompt env question)
    (fun ok i => P i /\ (allDeclined env -> ok = false)).
Proof.
  intros w Hw. cbn. rewrite mutations_snoc. cbn.
  split; [apply app_nil_r | split; [exact Hw | intros H; apply H]].
Qed.

Lemma q_upgradeOperatorPolicies_harmless (P : bool -> Prop) (env : Env)
    (mode prefix : string) (isAccountRoleUpgradeNeed : bool) (version : string) :
  harmless env mode ->
  quietly P
    (upgradeOperatorPolicies env mode prefix isAccountRoleUpgradeNeed version)
    (fun _ i => P i).
Proof.
  intros Hsafe. unfold upgradeOperatorPolicies.
  destruct (String.eqb mode ModeAuto) eqn:Hauto.
  - destruct Hsafe as [Hno | Hmode]; [|congruence].
    eapply q_bind; [apply q_confirmPrompt|].
    intros ok. apply q_intro. intros Hok. rewrite (Hok Hno). cbn [negb].
    now apply q_ret.
  - destruct (String.eqb_spec mode ModeManual) as [-> | _].
    + pose proof (q_upgradeOperatorPolicies_manual P env prefix
                    isAccountRoleUpgradeNeed version) as H.
      unfold upgradeOperatorPolicies in H.
      change (String.eqb ModeManual ModeAuto) with false in H.
      change (String.eqb ModeManual ModeManual) with true in H.
      exact H.
    + apply q_reporterErrorf.
Qed.

Lemma q_upgradeMissingOperatorRole_declined (P : bool -> Prop) (env : Env)
    (prefix : string) (policies : StringMap) (unifiedPath : string) :
  allDeclined env ->
  forall missingRoles : OperatorMap,
  quietly P
    (upgradeMissingOperatorRole env missingRoles prefix policies unifiedPath)
    (fun _ i => P i).
Proof.
  intros Hno. induction missingRoles as [|[key operator] rest IH];
    cbn [upgradeMissingOperatorRole].
  - now apply q_ret.
  - eapply q_bind; [apply q_confirmPrompt|].
    intros ok. apply q_intro. intros Hok. rewrite (Hok Hno). cbn [negb].
    exact IH.
Qed.

Lemma q_createOperatorRole_harmless (P : bool -> Prop) (env : Env)
    (mode prefix : string) (missingRoles : OperatorMap) (policies : StringMap)
    (unifiedPath : string) :
  harmless env mode ->
  quietly P
    (createOperatorRole env mode prefix missingRoles policies unifiedPath)
    (fun _ i => P i).
Proof.
  intros Hsafe. unfold createOperatorRole.
  destruct (String.eqb mode ModeAuto) eqn:Hauto.
  - destruct Hsafe as [Hno | Hmode]; [|congruence].
    eapply q_bind; [now apply q_upgradeMissingOperatorRole_declined|].
    intros [e|]; cbv beta; [now apply q_ret|].
    q_step. now apply q_ret.
  - destruct (String.eqb_spec mode ModeManual) as [-> | _].
    + pose proof (q_createOperatorRole_manual P env prefix missingRoles
                    policies unifiedPath) as H.
      unfold createOperatorRole in H.
      change (String.eqb ModeManual ModeAuto) with false in H.
      change (String.eqb ModeManual ModeManual) with true in H.
      exact H.
    + q_fail.
Qed.

Lemma q_createMissingRoles_harmless (P : bool -> Prop) (env : Env)
    (mode prefix : string) (missingRolesInCS : OperatorMap) (policies : StringMap)
    (unifiedPath : string) (todo : OperatorMap) :
  harmless env mode ->
  forall created : nat,
  quietly P
    (createMissingRoles env mode prefix missingRolesInCS policies
       unifiedPath todo created)
    (fun _ i => P i).
Proof.
  intros Hsafe.
  induction todo as [|[key operator] rest IH]; intros created; cbn [createMissingRoles].
  - now apply q_ret.
  - q_step. destruct a as [found|e].
    + destruct (negb found); [|apply IH].
      eapply q_bind; [now apply q_createOperatorRole_harmless|].
      intros [e|]; cbv beta; [q_fail | apply IH].
    + q_step. now apply q_ret.
Qed.

Lemma q_settle_harmless (env : Env) (enabled : bool) :
  quietly (fun i => harmlessSelected env i /\ i = enabled)
    (when (negb enabled && negb (modeChanged env)) interactiveEnable)
    (fun _ i => harmlessAtPrompt env i).
Proof.
  intros w [Hsel Hi]. unfold harmlessSelected, harmlessAtPrompt in *.
  rewrite Hi in Hsel.
  destruct enabled, (modeChanged env); cbn in *; rewrite ?Hi; auto.
Qed.

Lemma q_handleModeFlag_harmless (env : Env) (mode : string) :
  GetMode env = Ok mode ->
  quietly (harmlessAtPrompt env) (handleModeFlag env mode None)
    (fun r _ => harmless env (fst r) /\ snd r = None).
Proof.
  intros Hmode. unfold handleModeFlag.
  eapply q_bind; [apply q_interactiveEnabled|].
  intros enabled. apply q_conseq with
    (P := fun i => harmlessAtPrompt env enabled)
    (Q := fun r _ => harmless env (fst r) /\ snd r = None); auto.
  2:{ intros i [H ->]. exact H. }
  assert (Hneq : forall r mode', r <> Ok ModeAuto -> r = Ok mode' ->
                   String.eqb mode' ModeAuto = false).
  { intros r mode' Hr ->. apply String.eqb_neq. congruence. }
  unfold harmlessAtPrompt, harmless. destruct enabled.
  - q_step. q_step. apply q_ret. intros i Hp. cbn [fst snd].
    split; [|reflexivity]. destruct Hp as [Hno | Hp]; [now left | right].
    cbv iota in Hp. eapply Hneq; eassumption.
  - apply q_ret. intros i Hp. cbn [fst snd].
    split; [|reflexivity]. destruct Hp as [Hno | Hp]; [now left | right].
    cbv iota in Hp. eapply Hneq; eassumption.
Qed.

Lemma q_run_harmless (env : Env) :
  quietly (harmlessSelected env) (run env) (fun _ _ => True).
Proof.
  unfold run.
  q_step. q_step.
  eapply q_bind with (Q := fun _ i => harmlessSelected env i).
  { destruct (negb _); [|now apply q_ret].
    q_step. eapply q_bind with (Q := fun _ i => harmlessSelected env i).
    { apply q_when. q_fail. }
    intros ?; cbv beta. apply q_when. q_fail. }
  intros ?; cbv beta.
  destruct (GetOperatorIAMRoles env) as [operatorRoles hasOperatorRoles].
  eapply q_bind with (Q := fun _ i => harmlessSelected env i).
  { apply q_when, q_emit. reflexivity. }
  intros ?; cbv beta.
  destruct (GetPrefixFromInstallerAccountRole env) as [prefix prefixErr].
  eapply q_bind with (Q := fun _ i => harmlessSelected env i).
  { apply q_when, q_emit. reflexivity. }
  intros ?; cbv beta.
  q_step. q_step.
  eapply q_bind with (Q := fun _ i => harmlessSelected env i).
  { apply q_when. q_fail. }
  intros ?; cbv beta.
  q_step. q_step.
  destruct (FindMissingOperatorRolesForUpgrade env _) as [missingRolesInCS|e];
    [|now apply q_ret].
  destruct (_ && _).
  { q_step. now apply q_ret. }
  eapply q_bind with (Q := fun _ i => harmlessSelected env i).
  { apply q_when, q_emit. reflexivity. }
  intros ?; cbv beta.
  eapply q_bind; [apply q_interactiveEnabled|]. intros enabled.
  eapply q_bind; [apply q_settle_harmless|]. intros ?; cbv beta.
  q_step. q_step.
  eapply q_bind; [apply (q_handleModeFlag_harmless env a H)|].
  intros [mode' err]. apply q_pure. cbn [fst snd]. intros [Hsafe ->].
  eapply q_bind with (Q := fun _ _ => True); [now apply q_ret|].
  intros ?; cbv beta.
  eapply q_bind with (Q := fun _ _ => True).
  { apply q_when. eapply q_bind; [now apply q_upgradeOperatorPolicies_harmless|].
    intros [e|]; cbv beta; [q_fail | now apply q_ret]. }
  intros ?; cbv beta.
  destruct (Nat.ltb _ _); [|now apply q_ret].
  eapply q_bind; [now apply q_createMissingRoles_harmless|].
  intros [created|e]; cbv beta; [|now apply q_ret].
  eapply q_bind with (Q := fun _ _ => True).
  { apply q_when, q_emit. reflexivity. }
  intros ?; cbv beta. now apply q_ret.
Qed.

(** A run issues a call that changes the cloud account or the cluster
    service only when the selected mode is the automatic one and some
    confirmation is given: when every confirmation is declined, or the
    selected mode is anything but [auto] (manual, or no valid mode at
    all), the mutations of the trace after [run] are those before it,
    whatever the surroundings answer. *)
Theorem mutation_needs_auto_mode_and_consent (env : Env) (w : World) :
  allDeclined env \/ selectedMode env w <> Ok ModeAuto ->
  mutations (events (run env w)) = mutations (trace w).
Proof. intros Hsafe. exact (proj1 (q_run_harmless env w Hsafe)). Qed.

Lemma mutation_needs_auto_mode_and_consent_witness :
  let env := exampleEnv "" [] true false true ModeAuto twoMissing (fun _ => false) in
  mutations (events (run env (start [] false))) = [].
Proof.
  intro env.
  apply (mutation_needs_auto_mode_and_consent env (start [] false)).
  left. intros n. reflexivity.
Defined.

(** ** The version asked for *)

Lemma bind_exit {A B : Type} (m : M A) (k : A -> M B) (w w' : World) (c : Z) :
  m w = (w', Exited c) -> bind m k w = (w', Exited c).
Proof. unfold bind. now intros ->. Qed.

(** With [--version] given (and the mode and the default version read),
    the run stops at the version check, before anything else is looked
    at: with exit code 1 when the upgrades cannot be listed, with a
    warning and exit code 0 when there is none, and with exit code 1
    when the version is not among them. *)
Theorem run_version_check (env : Env) (w : World) (mode version : string) :
  GetMode env = Ok mode ->
  GetDefaultVersion env = Ok version ->
  upgradeVersion env <> "" ->
  match GetAvailableUpgrades env (clusterVersionID env) with
  | Err e =>
      run env w =
        (withEvents w [Errorf ("Failed to find available upgrades: " ++ e)], Exited 1)
  | Ok [] =>
      run env w = (withEvents w [Warnf "There are no available upgrades"], Exited 0)
  | Ok upgrades =>
      ~ In (upgradeVersion env) upgrades ->
      run env w =
        (withEvents w [Errorf "Expected a valid version to upgrade the cluster"],
         Exited 1)
  end.
Proof.
  intros Hmode Hversion Hasked. unfold run.
  rewrite (bind_val _ _ w w mode) by (now rewrite Hmode).
  rewrite (bind_val _ _ w w version) by (now rewrite Hversion).
  apply String.eqb_neq in Hasked. rewrite Hasked. cbn [negb]. cbv iota zeta.
  destruct (GetAvailableUpgrades env (clusterVersionID env)) as [[|v upgrades]|e].
  - apply bind_exit. reflexivity.
  - intros Hnot. apply bind_exit.
    assert (Hvalid : existsb (fun x => String.eqb x (upgradeVersion env))
                       (v :: upgrades) = false).
    { destruct (existsb _ _) eqn:Hex; [|reflexivity].
      apply existsb_exists in Hex as (x & Hin & Heq).
      apply String.eqb_eq in Heq. subst x. contradiction. }
    unfold bind, orExit, ret. cbn [List.length Nat.eqb when].
    rewrite Hvalid. reflexivity.
  - apply bind_exit. reflexivity.
Qed.

Lemma run_version_check_witness :
  let env := exampleEnv "4.12.3" ["4.12.1"; "4.12.2"] true false true ModeAuto
               twoMissing (fun _ => true) in
  run env (start [] false) =
    (withEvents (start [] false)
       [Errorf "Expected a valid version to upgrade the cluster"],
     Exited 1).
Proof.
  intro env.
  apply (run_version_check env (start [] false) ModeAuto "4.12" eq_refl eq_refl).
  - discriminate.
  - cbn. intros [H|[H|[]]]; discriminate H.
Defined.

(** ** Nothing to do *)

(** When the run gets past the checks (the mode and the default version
    are read, the version asked for, if any, is on offer, the path of
    the installer role is valid, the account roles are up to date, the
    credential requests are read) and neither a role is missing nor the
    operator policies are behind, the command says that the operator
    roles are up to date and returns without error: after at most the
    two complaints that do not stop it there is that one line, nothing
    is asked, and the interactive switch and the roles of the account
    are as before. *)
Theorem run_nothing_to_do (env : Env) (w : World)
    (mode version unifiedPath : string) (credRequests : OperatorMap) :
  GetMode env = Ok mode ->
  GetDefaultVersion env = Ok version ->
  versionAccepted env ->
  GetPathFromAccountRole env = Ok unifiedPath ->
  IsUpgradedNeededForAccountRolePolicies env
    (fst (GetPrefixFromInstallerAccountRole env)) version = Ok false ->
  GetCredRequests env (clusterHypershift env) = Ok credRequests ->
  IsUpgradedNeededForOperatorRolePoliciesUsingPrefix env
    (fst (GetPrefixFromInstallerAccountRole env)) (accountID env) version
    credRequests unifiedPath = Ok false ->
  FindMissingOperatorRolesForUpgrade env (targetVersion env) = Ok [] ->
  run env w =
    (withEvents w
       (operatorRolesComplaint env ++ prefixComplaint env
        ++ [Infof ("Operator roles associated with the cluster '" ++ clusterID env
                   ++ "' are already up-to-date.")]),
     Done None).
Proof.
  intros Hmode Hversion Hacc Hpath Hneed Hcred Hop Hfind. unfold run.
  rewrite (bind_val _ _ w w mode) by (now rewrite Hmode).
  rewrite (bind_val _ _ w w version) by (now rewrite Hversion).
  rewrite (bind_val _ _ w w tt) by (now apply versionAccepted_passes).
  unfold withEvents, operatorRolesComplaint, prefixComplaint.
  unfold targetVersion in Hfind.
  destruct (GetOperatorIAMRoles env) as [operatorRoles hasOperatorRoles].
  destruct (GetPrefixFromInstallerAccountRole env) as [prefix prefixErr].
  cbn [fst snd] in *.
  destruct (negb hasOperatorRoles || _), prefixErr;
    unfold bind; cbn -[String.append];
    rewrite Hpath; cbn -[String.append];
    rewrite Hneed; cbn -[String.append];
    rewrite Hcred; cbn -[String.append];
    rewrite Hop; cbn -[String.append];
    rewrite Hfind; cbn -[String.append];
    rewrite ?app_nil_r, <- ?app_assoc; reflexivity.
Qed.

Lemma run_nothing_to_do_witness :
  let env := exampleEnv "" [] true false false ModeAuto [] (fun _ => true) in
  run env (start ["c1-ns-a"] false) =
    (withEvents (start ["c1-ns-a"] false)
       [Infof "Operator roles associated with the cluster 'id1' are already up-to-date."],
     Done None).
Proof.
  intro env.
  exact (run_nothing_to_do env (start ["c1-ns-a"] false) ModeAuto "4.12" "/" []
           eq_refl eq_refl (or_introl eq_refl) eq_refl eq_refl eq_refl eq_refl
           eq_refl).
Defined.

(** ** Roles that exist are not created again *)

(** When the account already has every role the loop of [run] visits,
    the loop only checks: in every mode it creates nothing, asks
    nothing, prints nothing, and leaves the count of created roles as it
    was, so that [run] then says that the missing roles have already
    been created. *)
Theorem createMissingRoles_existing (env : Env) (mode prefix : string)
    (missingRolesInCS : OperatorMap) (policies : StringMap) (unifiedPath : string) :
  (forall roleName, CheckRoleExistsErr env roleName = None) ->
  forall (todo : OperatorMap) (created : nat) (w : World),
  (forall kv, In kv todo ->
     existsb (String.eqb (GetOperatorRoleName env (snd kv))) (roles w) = true) ->
  createMissingRoles env mode prefix missingRolesInCS policies unifiedPath
    todo created w
  = (withEvents w (checksFound env todo), Done (Ok created)).
Proof.
  intros Hcheck. induction todo as [|[key operator] rest IH]; intros created w Hall.
  - cbn. unfold withEvents. cbn. rewrite app_nil_r. now destruct w.
  - cbn [createMissingRoles]. unfold bind at 1. unfold CheckRoleExists.
    rewrite Hcheck. cbv beta iota zeta.
    pose proof (Hall (key, operator) (or_introl eq_refl)) as Hfound.
    cbn [snd] in Hfound. rewrite Hfound. cbn [negb].
    rewrite IH by (intros kv Hin; apply (Hall kv); now right).
    unfold withEvents. cbn [roles asked interactive trace checksFound map snd].
    now rewrite <- app_assoc.
Qed.

Lemma createMissingRoles_existing_witness :
  let env := exampleEnv "" [] true false false ModeAuto twoMissing (fun _ => true) in
  createMissingRoles env ModeAuto "Managed" twoMissing [] "/" twoMissing 0
    (start ["c1-ns-a"; "c1-ns-b"] false)
  = (withEvents (start ["c1-ns-a"; "c1-ns-b"] false)
       [CallCheckRoleExists "c1-ns-a" true; CallCheckRoleExists "c1-ns-b" true],
     Done (Ok 0%nat)).
Proof.
  intro env.
  apply (createMissingRoles_existing env ModeAuto "Managed" twoMissing [] "/"
           (fun _ => eq_refl) twoMissing 0%nat (start ["c1-ns-a"; "c1-ns-b"] false)).
  intros kv [<- | [<- | []]]; reflexivity.
Defined.

Lemma upgradeMissingOperatorRole_pass_witness :
  let env := withEnsureRole (fun roleName => Ok ("arn:role/" ++ roleName))
               (exampleEnv "" [] true false false ModeAuto
                  [("ka", opA); ("kc", opC)] (fun _ => true)) in
  let r := upgradeMissingOperatorRole env [("ka", opA); ("kc", opC)] "Managed" [] "/"
             (start [] false) in
  snd r = Done None /\ ensureCalls (trace (fst r)) = ["c1-ns-a"; "c1-ns-c"].
Proof.
  intro env.
  apply (upgradeMissingOperatorRole_pass env "Managed" [] "/").
  repeat split.
  - intros operator. eexists. reflexivity.
  - intros roleName. eexists. reflexivity.
Defined.

(** ** The roles a run finds missing *)

Lemma view_emit (w : World) (e : Event) :
  detectedMissing [e] = [] -> view (fst (emit e w)) = view w.
Proof.
  intros He. unfold view. cbn [emit fst roles interactive trace].
  now rewrite detectedMissing_app, He, app_nil_r.
Qed.

(** The roles of a list of missing roles that the account lacks are the
    required roles that exist neither on the cluster nor in the
    account. *)
Lemma absentRoles_findMissing (env : Env) (required : OperatorMap)
    (clusterHas : STSOperator -> bool) (existing : list string)
    (roleName : string) :
  In roleName (absentRoles env existing (findMissingOperatorRoles required clusterHas))
  <-> requiredAndAbsent env required clusterHas existing roleName.
Proof.
  unfold requiredAndAbsent, absentRoles, findMissingOperatorRoles.
  rewrite filter_In, in_map_iff. split.
  - intros [[kv [Hname Hkv]] Habsent]. apply filter_In in Hkv as [Hin Hhas].
    split.
    + exists kv. repeat split; auto. now apply negb_true_iff.
    + intros Hexists. apply negb_true_iff in Habsent.
      assert (Hx : existsb (String.eqb roleName) existing = true).
      { apply existsb_exists. exists roleName. split; [exact Hexists|].
        apply String.eqb_refl. }
      congruence.
  - intros [[kv (Hin & Hhas & Hname)] Habsent]. split.
    + exists kv. split; [exact Hname|]. apply filter_In. split; [exact Hin|].
      now apply negb_true_iff.
    + apply negb_true_iff. destruct (existsb _ existing) eqn:Hx; [|reflexivity].
      apply existsb_exists in Hx as [x [Hx Heq]].
      apply String.eqb_eq in Heq. subst x. contradiction.
Qed.

(** *** A program logic for what a returning run leaves behind *)

Section Triples.

Context {A B : Type}.
Implicit Types (P : View -> Prop).

Lemma t_ret P (a : A) (Q : A -> View -> Prop) :
  (forall v, P v -> Q a v) -> triple P (ret a) Q.
Proof. intros H w Hw. apply H, Hw. Qed.

Lemma t_exit P (code : Z) (Q : A -> View -> Prop) :
  triple P (osExit code) Q.
Proof. intros w Hw. exact I. Qed.

Lemma t_bind P (m : M A) (f : A -> M B) (Q : A -> View -> Prop)
    (R : B -> View -> Prop) :
  triple P m Q -> (forall a, triple (Q a) (f a) R) -> triple P (bind m f) R.
Proof.
  intros Hm Hf w Hw. unfold bind. specialize (Hm w Hw).
  destruct (m w) as [w' [a|code]]; cbn in *.
  - exact (Hf a w' Hm).
  - exact I.
Qed.

Lemma t_conseq (P P' : View -> Prop) (m : M A) (Q Q' : A -> View -> Prop) :
  triple P m Q -> (forall v, P' v -> P v) -> (forall a v, Q a v -> Q' a v) ->
  triple P' m Q'.
Proof.
  intros Hm HP HQ w Hw. specialize (Hm w (HP _ Hw)).
  destruct (snd (m w)); [apply HQ, Hm | exact I].
Qed.

Lemma t_intro P (F : Prop) (m : M A) (Q : A -> View -> Prop) :
  (F -> triple P m Q) -> triple (fun v => P v /\ F) m Q.
Proof. intros H w [Hw HF]. exact (H HF w Hw). Qed.

Lemma t_orExit P (r : result A) (msg : error -> string) :
  triple P (orExit r msg) (fun a v => P v /\ r = Ok a).
Proof.
  intros w Hw. destruct r as [a|e]; cbn.
  - split; [exact Hw | reflexivity].
  - exact I.
Qed.

End Triples.

Lemma t_emit (P : View -> Prop) (e : Event) :
  detectedMissing [e] = [] -> triple P (emit e) (fun _ v => P v).
Proof.
  intros He w Hw. change (P (view (fst (emit e w)))).
  now rewrite view_emit.
Qed.

Lemma t_when (P : View -> Prop) (cond : bool) (body : M unit) :
  triple P body (fun _ v => P v) -> triple P (when cond body) (fun _ v => P v).
Proof. intros H. destruct cond; [exact H | now apply t_ret]. Qed.

Lemma t_interactiveEnabled (P : View -> Prop) :
  triple P interactiveEnabled (fun b v => P v /\ vInteractive v = b).
Proof. intros w Hw. cbn. auto. Qed.

Lemma t_reporterErrorf (P : View -> Prop) (msg : string) :
  triple P (reporterErrorf msg) (fun _ v => P v).
Proof.
  intros w Hw. change (P (view (fst (emit (Errorf msg) w)))).
  now rewrite view_emit.
Qed.

Lemma t_confirmPrompt (P : View -> Prop) (env : Env) (question : string) :
  triple P (confirmPrompt env question)
    (fun ok v => P v /\ (allDeclined env -> ok = false)).
Proof.
  intros w Hw. cbn [confirmPrompt snd fst]. split; [|intros H; apply H].
  unfold view in *. cbn [roles interactive trace].
  rewrite detectedMissing_app. cbn. now rewrite app_nil_r.
Qed.

(** The existence check of one role: the answer is what the account
    says, and a role that is not there is found missing. *)
Lemma t_CheckRoleExists (env : Env) (roleName : string)
    (existing detected : list string) :
  triple (unchanged existing detected) (CheckRoleExists env roleName)
    (fun r v =>
       match r with
       | Ok found =>
           unchanged existing
             (detected ++ if found then [] else [roleName])%list v /\
           found = existsb (String.eqb roleName) existing
       | Err _ => unchanged existing detected v
       end).
Proof.
  intros w [Hroles Hdet]. unfold CheckRoleExists.
  destruct (CheckRoleExistsErr env roleName); cbn [snd fst].
  - split; assumption.
  - unfold view, unchanged in *. cbn [vRoles vDetected roles interactive trace] in *.
    rewrite detectedMissing_app, Hdet, Hroles.
    split; [|reflexivity]. split; [reflexivity|].
    destruct (existsb _ existing); reflexivity.
Qed.

Lemma absentRoles_cons (env : Env) (existing : list string) (key : string)
    (operator : STSOperator) (rest : OperatorMap) :
  absentRoles env existing ((key, operator) :: rest)
  = ((if existsb (String.eqb (GetOperatorRoleName env operator)) existing
      then [] else [GetOperatorRoleName env operator])
     ++ absentRoles env existing rest)%list.
Proof.
  unfold absentRoles. cbn [map filter snd].
  destruct (existsb _ existing); reflexivity.
Qed.

Ltac t_first :=
  first [ apply t_orExit
        | apply t_emit; reflexivity
        | apply t_exit
        | apply t_interactiveEnabled
        | apply t_reporterErrorf ].

Ltac t_step :=
  eapply t_bind; [t_first | intros ?; cbv beta; try (apply t_intro; intros ?)].

Ltac t_fail := eapply t_bind; [apply t_emit; reflexivity | intros ?; apply t_exit].

(** *** The pieces of a run that creates no role *)

Lemma t_upgradeOperatorPolicies_harmless (P : View -> Prop) (env : Env)
    (mode prefix : string) (isAccountRoleUpgradeNeed : bool) (version : string) :
  harmless env mode ->
  triple P
    (upgradeOperatorPolicies env mode prefix isAccountRoleUpgradeNeed version)
    (fun _ v => P v).
Proof.
  intros Hsafe. unfold upgradeOperatorPolicies.
  destruct (String.eqb mode ModeAuto) eqn:Hauto.
  - destruct Hsafe as [Hno | Hmode]; [|congruence].
    eapply t_bind; [apply t_confirmPrompt|].
    intros ok. apply t_intro. intros Hok. rewrite (Hok Hno). cbn [negb].
    now apply t_ret.
  - destruct (String.eqb mode ModeManual).
    + t_step.
      eapply t_bind with (Q := fun _ v => P v).
      { destruct (GeneratePolicyFiles env); [t_fail | now apply t_ret]. }
      intros ?; cbv beta. eapply t_bind with (Q := fun _ v => P v).
      { apply t_when. t_step. t_step. apply t_when. apply t_emit. reflexivity. }
      intros ?; cbv beta. t_step. now apply t_ret.
    + apply t_reporterErrorf.
Qed.

Lemma t_upgradeMissingOperatorRole_declined (P : View -> Prop) (env : Env)
    (prefix : string) (policies : StringMap) (unifiedPath : string) :
  allDeclined env ->
  forall missingRoles : OperatorMap,
  triple P
    (upgradeMissingOperatorRole env missingRoles prefix policies unifiedPath)
    (fun _ v => P v).
Proof.
  intros Hno. induction missingRoles as [|[key operator] rest IH];
    cbn [upgradeMissingOperatorRole].
  - now apply t_ret.
  - eapply t_bind; [apply t_confirmPrompt|].
    intros ok. apply t_intro. intros Hok. rewrite (Hok Hno). cbn [negb].
    exact IH.
Qed.

Lemma t_createOperatorRole_harmless (P : View -> Prop) (env : Env)
    (mode prefix : string) (missingRoles : OperatorMap) (policies : StringMap)
    (unifiedPath : string) :
  harmless env mode ->
  triple P
    (createOperatorRole env mode prefix missingRoles policies unifiedPath)
    (fun _ v => P v).
Proof.
  intros Hsafe. unfold createOperatorRole.
  destruct (String.eqb mode ModeAuto) eqn:Hauto.
  - destruct Hsafe as [Hno | Hmode]; [|congruence].
    eapply t_bind; [now apply t_upgradeMissingOperatorRole_declined|].
    intros [e|]; cbv beta; [now apply t_ret|].
    t_step. now apply t_ret.
  - destruct (String.eqb mode ModeManual).
    + destruct (BuildMissingOperatorRoleCommand env missingRoles) as [commands|e];
        [|now apply t_ret].
      eapply t_bind with (Q := fun _ v => P v).
      { apply t_when. apply t_emit. reflexivity. }
      intros ?; cbv beta. t_step. now apply t_ret.
    + t_fail.
Qed.

(** The loop of [run], when no role is created meanwhile: if it comes
    to its end, the account is as before and the roles found missing
    are the roles of [todo] that the account lacks. *)
Lemma t_createMissingRoles (env : Env) (mode prefix : string)
    (missingRolesInCS : OperatorMap) (policies : StringMap)
    (unifiedPath : string) (existing : list string) :
  harmless env mode ->
  forall (todo : OperatorMap) (created : nat) (detected : list string),
  triple (unchanged existing detected)
    (createMissingRoles env mode prefix missingRolesInCS policies
       unifiedPath todo created)
    (fun r v =>
       forall n, r = Ok n ->
         unchanged existing (detected ++ absentRoles env existing todo)%list v).
Proof.
  intros Hsafe.
  induction todo as [|[key operator] rest IH]; intros created detected;
    cbn [createMissingRoles].
  - apply t_ret. intros v Hv n _. unfold absentRoles. cbn. now rewrite app_nil_r.
  - eapply t_bind; [apply t_CheckRoleExists|].
    intros [found|e]; cbv beta iota.
    + apply t_intro. intros Hfound.
      rewrite absentRoles_cons, <- Hfound, app_assoc.
      destruct found; cbn [negb].
      * apply IH.
      * eapply t_bind; [now apply t_createOperatorRole_harmless|].
        intros [e|]; cbv beta; [t_fail | apply IH].
    + eapply t_bind; [apply t_reporterErrorf|].
      intros err. apply t_ret. intros v Hv n Hn. discriminate Hn.
Qed.

Lemma t_settle (env : Env) (enabled : bool) (existing detected : list string) :
  triple (fun v => (unchanged existing detected v
                    /\ harmlessSelected env (vInteractive v))
                   /\ vInteractive v = enabled)
    (when (negb enabled && negb (modeChanged env)) interactiveEnable)
    (fun _ v => unchanged existing detected v
                /\ harmlessAtPrompt env (vInteractive v)).
Proof.
  intros w [[Hun Hsel] Hi]. unfold harmlessSelected, harmlessAtPrompt in *.
  cbn [view vInteractive] in *. rewrite Hi in Hsel.
  destruct enabled, (modeChanged env); cbn in *; rewrite ?Hi; auto.
Qed.

Lemma t_handleModeFlag (P : View -> Prop) (env : Env) (mode : string) :
  GetMode env = Ok mode ->
  triple (fun v => P v /\ harmlessAtPrompt env (vInteractive v))
    (handleModeFlag env mode None)
    (fun r v => P v /\ (harmless env (fst r) /\ snd r = None)).
Proof.
  intros Hmode. unfold handleModeFlag.
  eapply t_bind; [apply t_interactiveEnabled|].
  intros enabled. apply t_conseq with
    (P := fun v => P v /\ harmlessAtPrompt env enabled)
    (Q := fun r v => P v /\ (harmless env (fst r) /\ snd r = None)); auto.
  2:{ intros v [[HP H] <-]. split; assumption. }
  apply t_intro. intros Hp.
  assert (Hneq : forall r mode', r <> Ok ModeAuto -> r = Ok mode' ->
                   String.eqb mode' ModeAuto = false).
  { intros r mode' Hr ->. apply String.eqb_neq. congruence. }
  unfold harmlessAtPrompt, harmless in *. destruct enabled.
  - t_step. t_step. apply t_ret. intros v HP. cbn [fst snd].
    split; [exact HP|]. split; [|reflexivity].
    destruct Hp as [Hno | Hp]; [now left | right].
    cbv iota in Hp. eapply Hneq; eassumption.
  - apply t_ret. intros v HP. cbn [fst snd].
    split; [exact HP|]. split; [|reflexivity].
    destruct Hp as [Hno | Hp]; [now left | right].
    cbv iota in Hp. eapply Hneq; eassumption.
Qed.

Lemma length_0_nil {X : Type} (l : list X) : List.length l = 0%nat -> l = [].
Proof. destruct l; [reflexivity | discriminate]. Qed.

(** A run that creates no role and returns without error leaves the
    account as it was, and has found missing the roles of the list of
    [FindMissingOperatorRolesForUpgrade] that the account lacks. *)
Lemma t_run (env : Env) (existing : list string) :
  triple (fun v => unchanged existing [] v
                   /\ harmlessSelected env (vInteractive v))
    (run env)
    (fun r v =>
       r = None ->
       forall missing,
         FindMissingOperatorRolesForUpgrade env (targetVersion env) = Ok missing ->
         unchanged existing (absentRoles env existing missing) v).
Proof.
  set (I := fun v => unchanged existing [] v
                     /\ harmlessSelected env (vInteractive v)).
  unfold run.
  eapply t_bind; [apply t_orExit|]. intros mode. apply t_intro. intros Hmode.
  t_step.
  eapply t_bind with (Q := fun _ v => I v).
  { destruct (negb _); [|now apply t_ret].
    t_step. eapply t_bind with (Q := fun _ v => I v).
    { apply t_when. t_fail. }
    intros ?; cbv beta. apply t_when. t_fail. }
  intros ?; cbv beta.
  destruct (GetOperatorIAMRoles env) as [operatorRoles hasOperatorRoles].
  eapply t_bind with (Q := fun _ v => I v).
  { apply t_when, t_emit. reflexivity. }
  intros ?; cbv beta.
  destruct (GetPrefixFromInstallerAccountRole env) as [prefix prefixErr].
  eapply t_bind with (Q := fun _ v => I v).
  { apply t_when, t_emit. reflexivity. }
  intros ?; cbv beta.
  t_step. t_step.
  eapply t_bind with (Q := fun _ v => I v).
  { apply t_when. t_fail. }
  intros ?; cbv beta.
  t_step. t_step. cbv zeta. fold (targetVersion env).
  destruct (FindMissingOperatorRolesForUpgrade env (targetVersion env))
    as [missingRolesInCS|e] eqn:Hfind.
  2:{ apply t_ret. intros v Hv Hr. discriminate Hr. }
  assert (Hnone : forall v, I v -> missingRolesInCS = [] ->
            forall missing, Ok missingRolesInCS = Ok missing ->
              unchanged existing (absentRoles env existing missing) v).
  { intros v [Hv _] -> missing [= <-]. exact Hv. }
  destruct (_ && _) eqn:Hcond.
  { t_step. apply t_ret. intros v Hv _. apply Hnone; [exact Hv|].
    apply Bool.andb_true_iff in Hcond as [Hlen _].
    apply Nat.leb_le in Hlen. apply length_0_nil. lia. }
  eapply t_bind with (Q := fun _ v => I v).
  { apply t_when, t_emit. reflexivity. }
  intros ?; cbv beta.
  eapply t_bind; [apply t_interactiveEnabled|]. intros enabled.
  eapply t_bind; [apply t_settle|]. intros ?; cbv beta.
  t_step. t_step.
  eapply t_bind; [apply (t_handleModeFlag _ env mode Hmode)|].
  intros [mode' err]. apply t_intro. cbn [fst snd]. intros [Hsafe ->].
  eapply t_bind with (Q := fun _ v => unchanged existing [] v);
    [now apply t_ret|].
  intros ?; cbv beta.
  eapply t_bind with (Q := fun _ v => unchanged existing [] v).
  { apply t_when. eapply t_bind; [now apply t_upgradeOperatorPolicies_harmless|].
    intros [e|]; cbv beta; [t_fail | now apply t_ret]. }
  intros ?; cbv beta.
  destruct (Nat.ltb _ _) eqn:Hlt.
  - eapply t_bind; [now apply t_createMissingRoles|].
    intros [created|e]; cbv beta; [|apply t_ret; intros v Hv Hr; discriminate Hr].
    apply t_conseq with
      (P := fun v => unchanged existing
                       ([] ++ absentRoles env existing missingRolesInCS)%list v)
      (Q := fun r v => unchanged existing
                         ([] ++ absentRoles env existing missingRolesInCS)%list v).
    + eapply t_bind with
        (Q := fun _ v => unchanged existing
                 ([] ++ absentRoles env existing missingRolesInCS)%list v).
      { apply t_when, t_emit. reflexivity. }
      intros ?; cbv beta. now apply t_ret.
    + intros v Hv. exact (Hv created eq_refl).
    + intros r v Hv _ missing [= <-]. exact Hv.
  - apply t_ret. intros v Hv _ missing [= <-].
    apply Nat.ltb_ge in Hlt.
    rewrite (length_0_nil missingRolesInCS) by lia. exact Hv.
Qed.





End OperatorRoles.
